(** * Daily events digest: fetch, window filter, Block Kit builder, driver

    A shallow embedding of [scripts/post-daily-events.ts] and the proofs of
    the properties its specification states.

    Conventions of the embedding.
    - A JavaScript [number] that the script computes with is an integer
      number of milliseconds or days, or [NaN] (the time value of an invalid
      [Date], the result of [Number] on a malformed setting).  Integers are
      [Z]; the arithmetic of the script on them is exact below 2^53.
    - The clock ([Date.now()], [new Date()]) is an explicit argument [now].
    - What the host provides (the date parser behind [new Date(string)] and
      the three [Intl.DateTimeFormat] instances) is the class [Host]; every
      definition and theorem is parametric in it.
    - A function that can throw returns [result]. *)

From Stdlib Require Import ZArith List Bool Ascii String Lia Permutation Sorted.
From stdpp Require Import base list strings gmap pretty.

Open Scope Z_scope.

(* ===================================================================== *)
(** * Part I: the program                                                 *)
(* ===================================================================== *)

(** ** JavaScript numbers *)

Inductive number : Type :=
| NaN
| Num (z : Z).

Definition num_add (a b : number) : number :=
  match a, b with Num x, Num y => Num (x + y) | _, _ => NaN end.

Definition num_sub (a b : number) : number :=
  match a, b with Num x, Num y => Num (x - y) | _, _ => NaN end.

Definition num_mul (a b : number) : number :=
  match a, b with Num x, Num y => Num (x * y) | _, _ => NaN end.

(** [a >= b] and [a <= b]: every comparison with [NaN] is false. *)
Definition num_geb (a b : number) : bool :=
  match a, b with Num x, Num y => y <=? x | _, _ => false end.

Definition num_leb (a b : number) : bool :=
  match a, b with Num x, Num y => x <=? y | _, _ => false end.

(** The ordering of finite numbers, as a proposition. *)
Definition num_le (a b : number) : Prop :=
  match a, b with Num x, Num y => x <= y | _, _ => False end.

Definition is_finite (a : number) : Prop :=
  match a with Num _ => True | NaN => False end.

(** Template-literal rendering of a number. *)
Definition num_to_string (a : number) : string :=
  match a with Num z => pretty z | NaN => "NaN" end.

(** ** Exceptions *)

Inductive exn : Type :=
| RangeError (msg : string)
| Error (msg : string).

Inductive result (A : Type) : Type :=
| Ok (a : A)
| Throw (e : exn).

Arguments Ok {A} a.
Arguments Throw {A} e.

#[global] Instance result_ret : MRet result := fun A a => Ok a.

#[global] Instance result_bind : MBind result := fun A B k r =>
  match r with
  | Ok a => k a
  | Throw e => Throw e
  end.

#[global] Instance result_fmap : FMap result := fun A B f r =>
  match r with
  | Ok a => Ok (f a)
  | Throw e => Throw e
  end.

(** ** The host environment *)

Record ChapterMapping : Type := {
  chapterId : Z;
  channelId : string;
  name : string;
  pageUrl : string
}.

(** [Date_parse s] is [new Date(s).getTime()].  [JSON_parse] is [JSON.parse]
    on the chapter mapping: it throws on malformed text, and returns [None]
    for a value that is no array.  The three formatters are the [format]
    methods of the [Intl.DateTimeFormat] instances of the script (all en-US,
    America/New_York) on a valid time value. *)
Class Host : Type := {
  Date_parse : string -> number;
  JSON_parse : string -> result (option (list ChapterMapping));
  SHORT_WEEKDAY : Z -> string;
  SHORT_DATE : Z -> string;
  TIME_FMT : Z -> string
}.

(** A [Date] object is its time value; [NaN] is [Invalid Date]. *)
Definition Date : Type := number.

Definition MAX_TIME : Z := 8640000000000000.

(** [new Date(v)] clips the time value to the range of [Date]. *)
Definition new_Date (v : number) : Date :=
  match v with
  | Num z => if (Z.abs z <=? MAX_TIME) then Num z else NaN
  | NaN => NaN
  end.

(** [fmt.format(d)] throws a [RangeError] on an invalid date. *)
Definition format (fmt : Z -> string) (d : Date) : result string :=
  match d with
  | Num z => Ok (fmt z)
  | NaN => Throw (RangeError "Invalid time value")
  end.

(** ** Data model *)

Record EventSession : Type := {
  session_id : Z;
  start_time : string;
  end_time : string;
  session_title : string;
  location_name : option string;
  location_address : string
}.

Record SolidarityEvent : Type := {
  event_id : Z;
  title : string;
  event_type : string;
  event_sessions : list EventSession;
  event_page_url : option string;
  tags : list string
}.

(** [{ ...event, event_sessions: ss }] *)
Definition with_sessions (e : SolidarityEvent) (ss : list EventSession)
  : SolidarityEvent :=
  {| event_id := event_id e;
     title := title e;
     event_type := event_type e;
     event_sessions := ss;
     event_page_url := event_page_url e;
     tags := tags e |}.

(** Truthiness of a [string | null]: [null] and the empty string are falsy. *)
Definition truthy (s : option string) : bool :=
  match s with
  | Some (String _ _) => true
  | Some EmptyString => false
  | None => false
  end.

(** [arr.includes(x)] on an array of strings. *)
Definition includes (arr : list string) (x : string) : bool :=
  existsb (String.eqb x) arr.

(** ** [Array.prototype.sort]

    The sort of the language is stable.  Its comparator returns a number;
    [SortCompare] reads [NaN] as [+0], and an element moves behind another
    only when the comparator is positive. *)

Section ArraySort.
Context {A : Type} (comparefn : A -> A -> number).

Definition SortCompare (x y : A) : Z :=
  match comparefn x y with
  | Num v => v
  | NaN => 0
  end.

Fixpoint sort_insert (x : A) (l : list A) : list A :=
  match l with
  | [] => [x]
  | y :: l' =>
      if 0 <? SortCompare x y then y :: sort_insert x l' else x :: y :: l'
  end.

Fixpoint Array_sort (l : list A) : list A :=
  match l with
  | [] => []
  | x :: l' => sort_insert x (Array_sort l')
  end.
End ArraySort.

(** ** Filtering and sorting *)

(** [daysAhead * 24 * 60 * 60 * 1000] *)
Definition days_ms (daysAhead : number) : number :=
  num_mul (num_mul (num_mul (num_mul daysAhead (Num 24)) (Num 60)) (Num 60))
          (Num 1000).

Definition EXCLUDE_TAG : string := "slack-exclude".

Section WindowFilter.
Context `{Host}.

(** [new Date(s.start_time).getTime()] *)
Definition session_start (s : EventSession) : number :=
  Date_parse (start_time s).

(** [new Date(e.event_sessions[0].start_time).getTime()].  The comparator
    only runs on events that passed the [length > 0] filter; the empty
    case is not reachable from [filterAndSortEvents]. *)
Definition first_start (e : SolidarityEvent) : number :=
  match event_sessions e with
  | s :: _ => session_start s
  | [] => NaN
  end.

Definition window_cutoff (now : Z) (daysAhead : number) : number :=
  num_add (Num now) (days_ms daysAhead).

(** [t >= now && t <= cutoff] *)
Definition in_window (now : Z) (cutoff : number) (s : EventSession) : bool :=
  let t := session_start s in
  num_geb t (Num now) && num_leb t cutoff.

Definition is_listed (e : SolidarityEvent) : bool :=
  truthy (event_page_url e) && negb (includes (tags e) EXCLUDE_TAG).

Definition by_session_start (a b : EventSession) : number :=
  num_sub (session_start a) (session_start b).

Definition by_first_start (a b : SolidarityEvent) : number :=
  num_sub (first_start a) (first_start b).

(** The object the [map] step builds from an event. *)
Definition window_event (now : Z) (cutoff : number) (e : SolidarityEvent)
  : SolidarityEvent :=
  with_sessions e
    (Array_sort by_session_start
       (List.filter (in_window now cutoff) (event_sessions e))).

Definition has_sessions (e : SolidarityEvent) : bool :=
  (0 <? length (event_sessions e))%nat.

(** [now] is the reading of [Date.now()] the function starts with. *)
Definition filterAndSortEvents (now : Z) (events : list SolidarityEvent)
    (daysAhead : number) : list SolidarityEvent :=
  let cutoff := window_cutoff now daysAhead in
  Array_sort by_first_start
    (List.filter has_sessions
       (List.map (window_event now cutoff)
          (List.filter is_listed events))).
End WindowFilter.

(** ** The outside world

    The script is sequential, so everything outside it is a function of how
    far the run has got: the [n]-th reading of the clock, the response to the
    [n]-th HTTP request, the answer of Slack to the [n]-th post.  The state
    of a run records what has been done so far. *)

Record SolidarityEventsResponse : Type := {
  data : option (list SolidarityEvent)
}.

(** [text] and [json] are what [await response.text()] and
    [await response.json()] give: either read of the body can fail. *)
Record Response : Type := {
  ok : bool;
  status : Z;
  text : result string;
  json : result SolidarityEventsResponse
}.

Inductive TextObject : Type :=
| PlainText (text : string) (emoji : bool)
| Mrkdwn (text : string).

Inductive Block : Type :=
| HeaderBlock (text : TextObject)
| ContextBlock (elements : list TextObject)
| SectionBlock (text : TextObject)
| DividerBlock.

Definition block_type (b : Block) : string :=
  match b with
  | HeaderBlock _ => "header"
  | ContextBlock _ => "context"
  | SectionBlock _ => "section"
  | DividerBlock => "divider"
  end.

Record Message : Type := {
  msg_channel : string;
  msg_text : string;
  msg_blocks : list Block
}.

Inductive ConsoleLine : Type :=
| ConsoleLog (line : string)
| ConsoleError (line : string) (err : option exn).

Record World : Type := {
  console : list ConsoleLine;
  requests : list string;
  posted : list Message;
  clock_reads : nat
}.

Class Outside : Type := {
  clock : nat -> Z;
  fetch : nat -> string -> result Response;
  chat_postMessage : nat -> Message -> result unit
}.

Definition console_log (line : string) (w : World) : World :=
  {| console := console w ++ [ConsoleLog line];
     requests := requests w;
     posted := posted w;
     clock_reads := clock_reads w |}.

Definition console_error (line : string) (err : option exn) (w : World) : World :=
  {| console := console w ++ [ConsoleError line err];
     requests := requests w;
     posted := posted w;
     clock_reads := clock_reads w |}.

Section Effects.
Context `{Outside}.

(** [Date.now()] and [new Date()] *)
Definition read_clock (w : World) : Z * World :=
  (clock (clock_reads w),
   {| console := console w;
      requests := requests w;
      posted := posted w;
      clock_reads := S (clock_reads w) |}).

(** [await fetch(url, ...)] *)
Definition do_fetch (url : string) (w : World) : result Response * World :=
  (fetch (length (requests w)) url,
   {| console := console w;
      requests := requests w ++ [url];
      posted := posted w;
      clock_reads := clock_reads w |}).

(** [await slack.chat.postMessage(msg)]; a message the call throws on was
    not posted. *)
Definition do_post (msg : Message) (w : World) : result unit * World :=
  match chat_postMessage (length (posted w)) msg with
  | Ok u =>
      (Ok u,
       {| console := console w;
          requests := requests w;
          posted := posted w ++ [msg];
          clock_reads := clock_reads w |})
  | Throw e => (Throw e, w)
  end.
End Effects.

(** ** API helpers *)

Definition LIMIT : Z := 100.

Definition events_url (chapterId page : Z) : string :=
  "https://api.solidarity.tech/v1/events?scope_id=" +:+ pretty chapterId
  +:+ "&scope_type=Chapter&_limit=" +:+ pretty LIMIT
  +:+ "&_page=" +:+ pretty page.

Section EventFetcher.
Context `{Outside}.

(** One iteration of the [while (true)] loop per unit of fuel; [None] is a
    loop that has not left after [fuel] iterations. *)
Fixpoint fetch_loop (fuel : nat) (chapterId : Z)
    (allEvents : list SolidarityEvent) (page : Z) (w : World)
  : option (result (list SolidarityEvent) * World) :=
  match fuel with
  | O => None
  | S fuel' =>
      let url := events_url chapterId page in
      let '(r, w) := do_fetch url w in
      match r with
      | Throw e => Some (Throw e, w)
      | Ok response =>
          if negb (ok response) then
            match text response with
            | Throw e => Some (Throw e, w)
            | Ok body =>
                Some (Throw (Error ("solidarity.tech API error "
                                    +:+ pretty (status response) +:+ ": "
                                    +:+ body)), w)
            end
          else
            match json response with
            | Throw e => Some (Throw e, w)
            | Ok body =>
                let events := default [] (data body) in
                let allEvents := allEvents ++ events in
                if Z.of_nat (length events) <? LIMIT then
                  Some (Ok allEvents, w)
                else
                  fetch_loop fuel' chapterId allEvents (page + 1) w
            end
      end
  end.

Definition fetchAllEvents (fuel : nat) (chapterId : Z) (w : World)
  : option (result (list SolidarityEvent) * World) :=
  fetch_loop fuel chapterId [] 1 w.
End EventFetcher.

(** ** Formatting helpers *)

(** The character classes of the pattern [/\s+\w+$/], on the ASCII range. *)
Definition is_space (c : ascii) : bool :=
  let n := nat_of_ascii c in
  ((9 <=? n) && (n <=? 13) || (n =? 32))%nat.

Definition is_word (c : ascii) : bool :=
  let n := nat_of_ascii c in
  ((48 <=? n) && (n <=? 57) || (65 <=? n) && (n <=? 90)
   || (97 <=? n) && (n <=? 122) || (n =? 95))%nat.

(** [s] is one or more word characters. *)
Fixpoint word_run (s : string) : bool :=
  match s with
  | EmptyString => false
  | String c EmptyString => is_word c
  | String c s' => is_word c && word_run s'
  end.

(** [s] is one or more spaces followed by one or more word characters. *)
Fixpoint space_word_run (s : string) : bool :=
  match s with
  | EmptyString => false
  | String c s' => is_space c && (space_word_run s' || word_run s')
  end.

(** [s.replace(/\s+\w+$/, "")]: the leftmost suffix that matches is cut. *)
Fixpoint drop_trailing_word (s : string) : string :=
  match s with
  | EmptyString => EmptyString
  | String c s' =>
      if space_word_run s then EmptyString
      else String c (drop_trailing_word s')
  end.

(** [s.toLowerCase()], on the ASCII range.  No character outside it maps to
    a letter of the type tags the script compares with. *)
Definition lower_char (c : ascii) : ascii :=
  let n := nat_of_ascii c in
  if ((65 <=? n) && (n <=? 90))%nat then ascii_of_nat (n + 32) else c.

Fixpoint toLowerCase (s : string) : string :=
  match s with
  | EmptyString => EmptyString
  | String c s' => String (lower_char c) (toLowerCase s')
  end.

Definition ICON_CALENDAR : string := "📅".
Definition ICON_PIN : string := "📍".
Definition LABEL_IN_PERSON : string := "🏢 In Person".
Definition LABEL_VIRTUAL : string := "💻 Virtual".
Definition LABEL_HYBRID : string := "🔀 Hybrid".

Section Formatting.
Context `{Host}.

Definition formatDateRange (startDate endDate : Date) : result string :=
  weekday ← format SHORT_WEEKDAY startDate;
  date ← format SHORT_DATE startDate;
  startTime ← format TIME_FMT startDate;
  endTime ← format TIME_FMT endDate;
  let startTimeShort := drop_trailing_word startTime in
  Ok (weekday +:+ ", " +:+ date +:+ " · " +:+ startTimeShort
      +:+ "–" +:+ endTime).

Definition formatHeaderDateRange (now : Z) (daysAhead : number)
  : result string :=
  let end_ := new_Date (num_add (Num now) (days_ms daysAhead)) in
  from ← format SHORT_DATE (Num now);
  to ← format SHORT_DATE end_;
  Ok (from +:+ " – " +:+ to).
End Formatting.

Definition eventTypeLabel (eventType : string) : string :=
  if String.eqb eventType "in_person" then LABEL_IN_PERSON
  else if String.eqb eventType "in-person" then LABEL_IN_PERSON
  else if String.eqb eventType "virtual" then LABEL_VIRTUAL
  else if String.eqb eventType "online" then LABEL_VIRTUAL
  else if String.eqb eventType "hybrid" then LABEL_HYBRID
  else "".

(** ** Block Kit builder *)

Definition MAX_GROUPS : nat := 23.

(** Truthiness of a string. *)
Definition nonempty (s : string) : bool :=
  match s with
  | EmptyString => false
  | String _ _ => true
  end.

(** [a || b || undefined] on the two location fields. *)
Definition session_location (session : EventSession) : option string :=
  if nonempty (location_address session) then Some (location_address session)
  else if truthy (location_name session) then location_name session
  else None.

Section MessageBuilder.
Context `{Host}.

(** The body of the [map] over the sessions of an event. *)
Definition sessionLine (typeLabel : string) (isVirtual : bool)
    (session : EventSession) : result string :=
  let startDate := Date_parse (start_time session) in
  let endDate := Date_parse (end_time session) in
  timeStr ← formatDateRange startDate endDate;
  let location := session_location session in
  let line := ICON_CALENDAR +:+ " *" +:+ timeStr +:+ "*" in
  let line :=
    match location with
    | Some loc =>
        if negb isVirtual then line +:+ "   " +:+ ICON_PIN +:+ " _" +:+ loc +:+ "_"
        else line
    | None => line
    end in
  let line :=
    if nonempty typeLabel then line +:+ "   " +:+ typeLabel else line in
  Ok line.

(** [lines.join(sep)] *)
Fixpoint join (sep : string) (lines : list string) : string :=
  match lines with
  | [] => ""
  | [l] => l
  | l :: rest => l +:+ sep +:+ join sep rest
  end.

Definition NEWLINE : string := String (ascii_of_nat 10) EmptyString.

(** The section block the loop body builds for one event.  A page URL of
    [null] under the non-null assertion prints as the text null. *)
Definition eventSection (event : SolidarityEvent) : result Block :=
  let titleText :=
    "*<" +:+ default "null" (event_page_url event) +:+ "|"
    +:+ title event +:+ ">*" in
  let normalizedType := toLowerCase (event_type event) in
  let typeLabel := eventTypeLabel normalizedType in
  let isVirtual :=
    String.eqb normalizedType "virtual" || String.eqb normalizedType "online" in
  sessionLines ← mapM (sessionLine typeLabel isVirtual) (event_sessions event);
  Ok (SectionBlock (Mrkdwn (titleText +:+ NEWLINE +:+ join NEWLINE sessionLines))).

(** The [for ... of visibleEvents] loop; [eventBlocks] is the array the
    loop pushes to. *)
Fixpoint pushEventBlocks (visibleEvents : list SolidarityEvent)
    (eventBlocks : list Block) : result (list Block) :=
  match visibleEvents with
  | [] => Ok eventBlocks
  | event :: rest =>
      sectionBlock ← eventSection event;
      pushEventBlocks rest (eventBlocks ++ [sectionBlock; DividerBlock])
  end.

(** "Remove trailing divider" *)
Definition popTrailingDivider (eventBlocks : list Block) : list Block :=
  match last eventBlocks with
  | Some b =>
      if String.eqb (block_type b) "divider" then removelast eventBlocks
      else eventBlocks
  | None => eventBlocks
  end.

Definition overflowNotice (overflow : nat) : Block :=
  ContextBlock
    [Mrkdwn ("_+" +:+ pretty overflow +:+ " more event"
             +:+ (if (overflow =? 1)%nat then "" else "s")
             +:+ " later this week not shown._")].

Definition headerBlock (chapterName : string) : Block :=
  HeaderBlock
    (PlainText (ICON_CALENDAR +:+ " Upcoming Events — " +:+ chapterName) true).

Definition subtitleBlock (chapterUrl : string) (daysAhead : number)
    (dateRange : string) : Block :=
  ContextBlock
    [Mrkdwn ("Next " +:+ num_to_string daysAhead +:+ " days · " +:+ dateRange
             +:+ " · <" +:+ chapterUrl +:+ "|All Events>")].

Definition noEventsBlock (daysAhead : number) : Block :=
  SectionBlock
    (Mrkdwn ("No upcoming events in the next " +:+ num_to_string daysAhead
             +:+ " days.")).

(** [now] is the reading of [new Date()] the function starts with. *)
Definition buildBlocks (now : Z) (chapterName chapterUrl : string)
    (events : list SolidarityEvent) (daysAhead : number)
  : result (list Block) :=
  dateRange ← formatHeaderDateRange now daysAhead;
  if (length events =? 0)%nat then
    Ok [headerBlock chapterName;
        subtitleBlock chapterUrl daysAhead dateRange;
        noEventsBlock daysAhead]
  else
    let overflow :=
      if (MAX_GROUPS <? length events)%nat
      then (length events - MAX_GROUPS)%nat else 0%nat in
    let visibleEvents :=
      if (0 <? overflow)%nat then take MAX_GROUPS events else events in
    eventBlocks ← pushEventBlocks visibleEvents [];
    let eventBlocks := popTrailingDivider eventBlocks in
    let eventBlocks :=
      if (0 <? overflow)%nat then eventBlocks ++ [overflowNotice overflow]
      else eventBlocks in
    Ok (headerBlock chapterName
        :: subtitleBlock chapterUrl daysAhead dateRange
        :: eventBlocks).
End MessageBuilder.

(** ** Main *)

Record ProcessEnv : Type := {
  SOLIDARITY_TECH_API_KEY : string;
  SLACK_BOT_TOKEN : string;
  EVENTS_DAYS_AHEAD : number;
  CHAPTER_CHANNEL_MAPPING_RAW : string
}.

Definition fallbackText (displayName : string) (events : list SolidarityEvent)
    (daysAhead : number) : string :=
  if (0 <? length events)%nat then
    ICON_CALENDAR +:+ " Upcoming Events — " +:+ displayName +:+ ": "
    +:+ pretty (length events) +:+ " event(s) in the next "
    +:+ num_to_string daysAhead +:+ " days."
  else
    ICON_CALENDAR +:+ " Upcoming Events — " +:+ displayName
    +:+ ": No upcoming events in the next "
    +:+ num_to_string daysAhead +:+ " days.".

Section Driver.
Context `{Host} `{Outside}.

Definition postChapter (fuel : nat) (mapping : ChapterMapping)
    (daysAhead : number) (w : World) : option (result unit * World) :=
  let displayName := name mapping in
  let pageUrl := pageUrl mapping in
  let w := console_log ("Fetching events for chapter: " +:+ displayName
                        +:+ " (" +:+ pretty (chapterId mapping) +:+ ")") w in
  match fetchAllEvents fuel (chapterId mapping) w with
  | None => None
  | Some (Throw e, w) => Some (Throw e, w)
  | Some (Ok allEvents, w) =>
      let '(now, w) := read_clock w in
      let events := filterAndSortEvents now allEvents daysAhead in
      let totalSessions :=
        fold_left (fun sum e => (sum + length (event_sessions e))%nat)
                  events 0%nat in
      let w := console_log ("  → " +:+ pretty (length allEvents)
                            +:+ " total events fetched, "
                            +:+ pretty (length events) +:+ " event(s) with "
                            +:+ pretty totalSessions
                            +:+ " session(s) in window") w in
      let '(now, w) := read_clock w in
      match buildBlocks now displayName pageUrl events daysAhead with
      | Throw e => Some (Throw e, w)
      | Ok blocks =>
          let msg := {| msg_channel := channelId mapping;
                        msg_text := fallbackText displayName events daysAhead;
                        msg_blocks := blocks |} in
          let '(r, w) := do_post msg w in
          match r with
          | Throw e => Some (Throw e, w)
          | Ok _ =>
              Some (Ok (), console_log ("  → Posted to channel "
                                        +:+ channelId mapping) w)
          end
      end
  end.

(** The [for ... of mappings] loop with its [try]/[catch]. *)
Fixpoint chapterLoop (fuel : nat) (mappings : list ChapterMapping)
    (daysAhead : number) (anyFailed : bool) (w : World)
  : option (bool * World) :=
  match mappings with
  | [] => Some (anyFailed, w)
  | mapping :: rest =>
      match postChapter fuel mapping daysAhead w with
      | None => None
      | Some (Ok _, w) => chapterLoop fuel rest daysAhead anyFailed w
      | Some (Throw err, w) =>
          let w := console_error ("Failed to post events for chapter "
                                  +:+ name mapping +:+ ":") (Some err) w in
          chapterLoop fuel rest daysAhead true w
      end
  end.

(** [process.exit(1)] after an error line. *)
Definition exit_with (line : string) (w : World) : option (Z * World) :=
  Some (1, console_error line None w).

(** The result is the exit code of the process and the final state. *)
Definition main (fuel : nat) (env : ProcessEnv) (w : World)
  : option (Z * World) :=
  if negb (nonempty (SOLIDARITY_TECH_API_KEY env)) then
    exit_with "Missing SOLIDARITY_TECH_API_KEY" w
  else if negb (nonempty (SLACK_BOT_TOKEN env)) then
    exit_with "Missing SLACK_BOT_TOKEN" w
  else if negb (nonempty (CHAPTER_CHANNEL_MAPPING_RAW env)) then
    exit_with "Missing CHAPTER_CHANNEL_MAPPING" w
  else
    match JSON_parse (CHAPTER_CHANNEL_MAPPING_RAW env) with
    | Throw _ => exit_with "CHAPTER_CHANNEL_MAPPING is not valid JSON" w
    | Ok None | Ok (Some []) =>
        exit_with "CHAPTER_CHANNEL_MAPPING must be a non-empty JSON array" w
    | Ok (Some mappings) =>
        match chapterLoop fuel mappings (EVENTS_DAYS_AHEAD env) false w with
        | None => None
        | Some (anyFailed, w) => Some (if anyFailed then 1 else 0, w)
        end
    end.
End Driver.

(** ** The window filter in memory

    Arrays and objects are references.  The functions above compute with the
    values of the events; the ones below follow the same code on a heap, so
    that what is shared, what is new and what is written in place can be
    told apart.  [filter] and [map] build a new array, an object literal a
    new object, and [sort] sorts the array it is called on in place.  The
    spread [{...event}] copies the fields of the event, references among
    them.  A read of a reference of the wrong kind has no result; the types
    of the script exclude it. *)

Abbreviation loc := positive.

Record EventObject : Type := {
  obj_event_id : Z;
  obj_title : string;
  obj_event_type : string;
  obj_event_sessions : loc;
  obj_event_page_url : option string;
  obj_tags : loc
}.

Inductive cell : Type :=
| ObjectArray (elements : list loc)
| StringArray (elements : list string)
| SessionCell (s : EventSession)
| EventCell (o : EventObject).

Abbreviation heap := (gmap loc cell).

(** A computation on the heap that may have no result. *)
Definition Heaped (A : Type) : Type := heap -> option (A * heap).

#[global] Instance heaped_ret : MRet Heaped := fun A a h => Some (a, h).

#[global] Instance heaped_bind : MBind Heaped := fun A B k m h =>
  match m h with
  | Some (a, h') => k a h'
  | None => None
  end.

Definition alloc (c : cell) : Heaped loc := fun h =>
  let l := fresh (dom h) in Some (l, <[l := c]> h).

Definition read_event (ev : loc) : Heaped EventObject := fun h =>
  match h !! ev with
  | Some (EventCell o) => Some (o, h)
  | _ => None
  end.

(** [arr.filter(p)]; the callback reads the heap. *)
Definition array_filter (p : heap -> loc -> bool) (arr : loc) : Heaped loc :=
  fun h =>
    match h !! arr with
    | Some (ObjectArray es) => alloc (ObjectArray (List.filter (p h) es)) h
    | _ => None
    end.

(** [arr.sort(cmp)]: [arr] is overwritten with its sorted contents and
    returned. *)
Definition array_sort (cmp : heap -> loc -> loc -> number) (arr : loc)
  : Heaped loc :=
  fun h =>
    match h !! arr with
    | Some (ObjectArray es) =>
        Some (arr, <[arr := ObjectArray (Array_sort (cmp h) es)]> h)
    | _ => None
    end.

(** [arr.map(f)]; the callback allocates. *)
Fixpoint map_elements (f : loc -> Heaped loc) (es : list loc)
  : Heaped (list loc) :=
  match es with
  | [] => mret []
  | e :: rest => e' ← f e; rest' ← map_elements f rest; mret (e' :: rest')
  end.

Definition array_map (f : loc -> Heaped loc) (arr : loc) : Heaped loc :=
  fun h =>
    match h !! arr with
    | Some (ObjectArray es) =>
        (es' ← map_elements f es; alloc (ObjectArray es')) h
    | _ => None
    end.

Section WindowFilterInMemory.
Context `{Host}.

Definition strings_at (h : heap) (arr : loc) : list string :=
  match h !! arr with
  | Some (StringArray ss) => ss
  | _ => []
  end.

(** [event.event_page_url && !event.tags.includes("slack-exclude")] *)
Definition is_listed_at (h : heap) (ev : loc) : bool :=
  match h !! ev with
  | Some (EventCell o) =>
      truthy (obj_event_page_url o)
      && negb (includes (strings_at h (obj_tags o)) EXCLUDE_TAG)
  | _ => false
  end.

Definition session_start_at (h : heap) (s : loc) : number :=
  match h !! s with
  | Some (SessionCell s) => session_start s
  | _ => NaN
  end.

Definition in_window_at (now : Z) (cutoff : number) (h : heap) (s : loc)
  : bool :=
  match h !! s with
  | Some (SessionCell s) => in_window now cutoff s
  | _ => false
  end.

Definition by_session_start_at (h : heap) (a b : loc) : number :=
  num_sub (session_start_at h a) (session_start_at h b).

(** [event.event_sessions.length > 0] *)
Definition has_sessions_at (h : heap) (ev : loc) : bool :=
  match h !! ev with
  | Some (EventCell o) =>
      match h !! obj_event_sessions o with
      | Some (ObjectArray ss) => (0 <? length ss)%nat
      | _ => false
      end
  | _ => false
  end.

Definition first_start_at (h : heap) (ev : loc) : number :=
  match h !! ev with
  | Some (EventCell o) =>
      match h !! obj_event_sessions o with
      | Some (ObjectArray (s :: _)) => session_start_at h s
      | _ => NaN
      end
  | _ => NaN
  end.

Definition by_first_start_at (h : heap) (a b : loc) : number :=
  num_sub (first_start_at h a) (first_start_at h b).

(** The callback of [map]: a new object with the fields of [event], its
    [event_sessions] a new, filtered and then sorted array. *)
Definition window_event_at (now : Z) (cutoff : number) (event : loc)
  : Heaped loc :=
  o ← read_event event;
  kept ← array_filter (in_window_at now cutoff) (obj_event_sessions o);
  sorted ← array_sort by_session_start_at kept;
  alloc (EventCell {| obj_event_id := obj_event_id o;
                      obj_title := obj_title o;
                      obj_event_type := obj_event_type o;
                      obj_event_sessions := sorted;
                      obj_event_page_url := obj_event_page_url o;
                      obj_tags := obj_tags o |}).

Definition filterAndSortEvents_in_memory (now : Z) (events : loc)
    (daysAhead : number) : Heaped loc :=
  let cutoff := window_cutoff now daysAhead in
  listed ← array_filter is_listed_at events;
  windowed ← array_map (window_event_at now cutoff) listed;
  remaining ← array_filter has_sessions_at windowed;
  array_sort by_first_start_at remaining.
End WindowFilterInMemory.

(** ** A reference host

    The examples below run the script on a concrete host: ISO 8601 time
    stamps with an explicit offset, the Gregorian calendar, and US Eastern
    time under the rules in force since 2007 (daylight time from the second
    Sunday of March, 07:00 UTC, to the first Sunday of November, 06:00 UTC).
    The theorems do not depend on it. *)

Module RefHost.

Definition MS_PER_DAY : Z := 86400000.
Definition MS_PER_HOUR : Z := 3600000.
Definition MS_PER_MINUTE : Z := 60000.

(** Days since 1970-01-01 of a civil date, and back. *)
Definition days_from_civil (y m d : Z) : Z :=
  let y := if m <=? 2 then y - 1 else y in
  let era := y / 400 in
  let yoe := y - era * 400 in
  let mp := if 2 <? m then m - 3 else m + 9 in
  let doy := (153 * mp + 2) / 5 + d - 1 in
  let doe := yoe * 365 + yoe / 4 - yoe / 100 + doy in
  era * 146097 + doe - 719468.

Definition civil_from_days (z : Z) : Z * Z * Z :=
  let z := z + 719468 in
  let era := z / 146097 in
  let doe := z - era * 146097 in
  let yoe := (doe - doe / 1460 + doe / 36524 - doe / 146096) / 365 in
  let doy := doe - (365 * yoe + yoe / 4 - yoe / 100) in
  let mp := (5 * doy + 2) / 153 in
  let d := doy - (153 * mp + 2) / 5 + 1 in
  let m := if mp <? 10 then mp + 3 else mp - 9 in
  let y := yoe + era * 400 in
  (if m <=? 2 then y + 1 else y, m, d).

(** 0 is Sunday. *)
Definition weekday_of_days (z : Z) : Z := (z + 4) mod 7.

(** The first Sunday on or after day [d] of month [m]. *)
Definition sunday_from (y m d : Z) : Z :=
  let z := days_from_civil y m d in
  z + (7 - weekday_of_days z) mod 7.

Definition is_daylight_time (t : Z) : bool :=
  let '(y, _, _) := civil_from_days (t / MS_PER_DAY) in
  let starts := sunday_from y 3 8 * MS_PER_DAY + 7 * MS_PER_HOUR in
  let ends := sunday_from y 11 1 * MS_PER_DAY + 6 * MS_PER_HOUR in
  (starts <=? t) && (t <? ends).

Definition local_ms (t : Z) : Z :=
  if is_daylight_time t then t - 4 * MS_PER_HOUR else t - 5 * MS_PER_HOUR.

Definition weekday_name (w : Z) : string :=
  nth (Z.to_nat w) ["Sun"; "Mon"; "Tue"; "Wed"; "Thu"; "Fri"; "Sat"] "".

Definition month_name (m : Z) : string :=
  nth (Z.to_nat (m - 1))
      ["Jan"; "Feb"; "Mar"; "Apr"; "May"; "Jun";
       "Jul"; "Aug"; "Sep"; "Oct"; "Nov"; "Dec"] "".

Definition short_weekday (t : Z) : string :=
  weekday_name (weekday_of_days (local_ms t / MS_PER_DAY)).

Definition short_date (t : Z) : string :=
  let '(_, m, d) := civil_from_days (local_ms t / MS_PER_DAY) in
  month_name m +:+ " " +:+ pretty d.

Definition two_digits (n : Z) : string :=
  if n <? 10 then "0" +:+ pretty n else pretty n.

Definition time_fmt (t : Z) : string :=
  let ms := local_ms t mod MS_PER_DAY in
  let h := ms / MS_PER_HOUR in
  let mi := (ms mod MS_PER_HOUR) / MS_PER_MINUTE in
  let h12 := if h mod 12 =? 0 then 12 else h mod 12 in
  pretty h12 +:+ ":" +:+ two_digits mi
  +:+ (if h <? 12 then " AM " else " PM ")
  +:+ (if is_daylight_time t then "EDT" else "EST").

(** Reading [YYYY-MM-DDTHH:MM:SS[.mmm](Z|+HH:MM|-HH:MM)]. *)
Definition digit (c : ascii) : option Z :=
  let n := nat_of_ascii c in
  if ((48 <=? n) && (n <=? 57))%nat then Some (Z.of_nat n - 48) else None.

Fixpoint read_digits (n : nat) (acc : Z) (s : string) : option (Z * string) :=
  match n with
  | O => Some (acc, s)
  | S n' =>
      match s with
      | String c s' => d ← digit c; read_digits n' (10 * acc + d) s'
      | EmptyString => None
      end
  end.

Definition expect (c : ascii) (s : string) : option string :=
  match s with
  | String c' s' => if Ascii.eqb c c' then Some s' else None
  | EmptyString => None
  end.

Definition read_millis (s : string) : option (Z * string) :=
  match expect "." s with
  | Some s' => read_digits 3 0 s'
  | None => Some (0, s)
  end.

Definition read_offset (s : string) : option Z :=
  match s with
  | String "Z" EmptyString => Some 0
  | String sign s' =>
      '(h, s1) ← read_digits 2 0 s';
      s2 ← expect ":" s1;
      '(mi, s3) ← read_digits 2 0 s2;
      let off := h * MS_PER_HOUR + mi * MS_PER_MINUTE in
      match s3 with
      | EmptyString =>
          if Ascii.eqb sign "+" then Some off
          else if Ascii.eqb sign "-" then Some (- off)
          else None
      | _ => None
      end
  | EmptyString => None
  end.

Definition parse_iso (s : string) : option Z :=
  '(y, s) ← read_digits 4 0 s;
  s ← expect "-" s;
  '(m, s) ← read_digits 2 0 s;
  s ← expect "-" s;
  '(d, s) ← read_digits 2 0 s;
  s ← expect "T" s;
  '(h, s) ← read_digits 2 0 s;
  s ← expect ":" s;
  '(mi, s) ← read_digits 2 0 s;
  s ← expect ":" s;
  '(sec, s) ← read_digits 2 0 s;
  '(ms, s) ← read_millis s;
  off ← read_offset s;
  Some (days_from_civil y m d * MS_PER_DAY + h * MS_PER_HOUR
        + mi * MS_PER_MINUTE + sec * 1000 + ms - off).

Definition date_parse (s : string) : number :=
  match parse_iso s with
  | Some t => new_Date (Num t)
  | None => NaN
  end.

(** The one configuration the reference host can read, as JSON text. *)
Definition quoted (s : string) : string :=
  String (ascii_of_nat 34) s +:+ String (ascii_of_nat 34) EmptyString.

Definition mapping_json (chapter : Z) (channel name page : string) : string :=
  "{" +:+ quoted "chapterId" +:+ ":" +:+ pretty chapter
  +:+ "," +:+ quoted "channelId" +:+ ":" +:+ quoted channel
  +:+ "," +:+ quoted "name" +:+ ":" +:+ quoted name
  +:+ "," +:+ quoted "pageUrl" +:+ ":" +:+ quoted page +:+ "}".

Definition EXAMPLE_MAPPING_RAW : string :=
  "[" +:+ mapping_json 123 "C0123456789" "Washtenaw County"
                       "https://example.org/w"
  +:+ "," +:+ mapping_json 456 "C9876543210" "Wayne County"
                           "https://example.org/y"
  +:+ "]".

Definition example_mappings : list ChapterMapping :=
  [ {| chapterId := 123; channelId := "C0123456789";
       name := "Washtenaw County"; pageUrl := "https://example.org/w" |};
    {| chapterId := 456; channelId := "C9876543210";
       name := "Wayne County"; pageUrl := "https://example.org/y" |} ].

Definition json_parse (s : string) : result (option (list ChapterMapping)) :=
  if String.eqb s EXAMPLE_MAPPING_RAW then Ok (Some example_mappings)
  else Throw (Error "SyntaxError").

#[export] Instance host : Host := {|
  Date_parse := date_parse;
  JSON_parse := json_parse;
  SHORT_WEEKDAY := short_weekday;
  SHORT_DATE := short_date;
  TIME_FMT := time_fmt
|}.

End RefHost.

(** ** An example run

    Two chapters on the reference host.  The events API holds exactly 100
    events for chapter 123, so its second page comes back without events;
    every other request is answered with status 500.  Slack accepts every
    post, and the clock stands at 2026-03-01T14:00:00Z. *)

Module Example.
Import RefHost.

Definition T0 : Z := 1772373600000.

Definition stamp (hour minute : Z) : string :=
  "2026-03-02T" +:+ two_digits hour +:+ ":" +:+ two_digits minute
  +:+ ":00.000-05:00".

Definition session_of (i : nat) : EventSession :=
  let i := Z.of_nat i in
  {| session_id := 1000 + i;
     start_time := stamp (10 + i / 60) (i mod 60);
     end_time := stamp (11 + i / 60) (i mod 60);
     session_title := "Session";
     location_name := Some "Union Hall";
     location_address := "123 Main St, Ann Arbor, MI" |}.

Definition event_of (i : nat) : SolidarityEvent :=
  {| event_id := Z.of_nat i;
     title := "Meeting " +:+ pretty i;
     event_type := "In_Person";
     event_sessions := [session_of i];
     event_page_url := Some ("https://solidarity.tech/events/" +:+ pretty i);
     tags := [] |}.

Definition hundred_events : list SolidarityEvent :=
  List.map event_of (seq 0 100).

Definition page_of (events : option (list SolidarityEvent)) : Response :=
  {| ok := true; status := 200; text := Ok "";
     json := Ok {| data := events |} |}.

Definition server_error : Response :=
  {| ok := false; status := 500; text := Ok "Internal Server Error";
     json := Throw (Error "SyntaxError") |}.

#[export] Instance outside : Outside := {|
  clock := fun _ => T0;
  fetch := fun _ url =>
    if String.eqb url (events_url 123 1) then Ok (page_of (Some hundred_events))
    else if String.eqb url (events_url 123 2) then Ok (page_of None)
    else Ok server_error;
  chat_postMessage := fun _ _ => Ok ()
|}.

Definition pages (i : nat) : list SolidarityEvent :=
  match i with
  | O => hundred_events
  | S _ => []
  end.

Definition env : ProcessEnv :=
  {| SOLIDARITY_TECH_API_KEY := "key";
     SLACK_BOT_TOKEN := "xoxb-token";
     EVENTS_DAYS_AHEAD := Num 7;
     CHAPTER_CHANNEL_MAPPING_RAW := EXAMPLE_MAPPING_RAW |}.

Definition start : World :=
  {| console := []; requests := []; posted := []; clock_reads := 0 |}.

(** A virtual event with two sessions, an excluded event, an event without
    page, and an event outside the window. *)
Definition webinar : SolidarityEvent :=
  {| event_id := 7;
     title := "New Member Orientation";
     event_type := "Virtual";
     event_sessions :=
       [ {| session_id := 72;
            start_time := "2026-03-05T19:00:00.000-05:00";
            end_time := "2026-03-05T20:00:00.000-05:00";
            session_title := "Second";
            location_name := None;
            location_address := "Zoom" |};
         {| session_id := 71;
            start_time := "2026-03-03T19:00:00.000-05:00";
            end_time := "2026-03-03T20:00:00.000-05:00";
            session_title := "First";
            location_name := None;
            location_address := "" |};
         {| session_id := 70;
            start_time := "2026-02-24T19:00:00.000-05:00";
            end_time := "2026-02-24T20:00:00.000-05:00";
            session_title := "Past";
            location_name := None;
            location_address := "" |} ];
     event_page_url := Some "https://solidarity.tech/events/456";
     tags := ["members"] |}.

Definition excluded : SolidarityEvent :=
  {| event_id := 8; title := "Steering"; event_type := "hybrid";
     event_sessions := event_sessions (event_of 1);
     event_page_url := Some "https://solidarity.tech/events/8";
     tags := ["internal"; "slack-exclude"] |}.

Definition unpublished : SolidarityEvent :=
  {| event_id := 9; title := "Draft"; event_type := "hybrid";
     event_sessions := event_sessions (event_of 2);
     event_page_url := None;
     tags := [] |}.

Definition far_away : SolidarityEvent :=
  {| event_id := 10; title := "Convention"; event_type := "hybrid";
     event_sessions :=
       [ {| session_id := 100;
            start_time := "2026-04-01T09:00:00.000-04:00";
            end_time := "2026-04-01T17:00:00.000-04:00";
            session_title := "Day 1";
            location_name := Some "Cobo";
            location_address := "" |} ];
     event_page_url := Some "https://solidarity.tech/events/10";
     tags := [] |}.

Definition mixed_events : list SolidarityEvent :=
  [far_away; webinar; excluded; unpublished; event_of 3].

(** The events array [[webinar]] in memory: the array at 1, the event at 2,
    its sessions array at 3 and its tags array at 4, the sessions at 5, 6
    and 7. *)
Definition webinar_object : EventObject :=
  {| obj_event_id := event_id webinar;
     obj_title := title webinar;
     obj_event_type := event_type webinar;
     obj_event_sessions := 3%positive;
     obj_event_page_url := event_page_url webinar;
     obj_tags := 4%positive |}.

Definition memory : heap :=
  list_to_map
    [ (1%positive, ObjectArray [2%positive]);
      (2%positive, EventCell webinar_object);
      (3%positive, ObjectArray [5%positive; 6%positive; 7%positive]);
      (4%positive, StringArray (tags webinar));
      (5%positive, SessionCell (nth 0 (event_sessions webinar) (session_of 0)));
      (6%positive, SessionCell (nth 1 (event_sessions webinar) (session_of 0)));
      (7%positive, SessionCell (nth 2 (event_sessions webinar) (session_of 0))) ].

(** An events API that answers every request with a full page. *)
Definition endless : Outside := {|
  clock := fun _ => T0;
  fetch := fun _ _ => Ok (page_of (Some hundred_events));
  chat_postMessage := fun _ _ => Ok ()
|}.

Definition env_without_token : ProcessEnv :=
  {| SOLIDARITY_TECH_API_KEY := "key";
     SLACK_BOT_TOKEN := "";
     EVENTS_DAYS_AHEAD := Num 7;
     CHAPTER_CHANNEL_MAPPING_RAW := EXAMPLE_MAPPING_RAW |}.
End Example.

(* ===================================================================== *)
(** * Part II: the vocabulary of the specification                        *)
(* ===================================================================== *)

(** An event "lacks a page URL" when the field is [null] or empty. *)
Definition lacks_page_url (e : SolidarityEvent) : Prop :=
  event_page_url e = None \/ event_page_url e = Some "".

Definition has_exclusion_tag (e : SolidarityEvent) : Prop :=
  In "slack-exclude" (tags e).

Definition MS_PER_DAY : Z := 86400000.

Section WindowVocabulary.
Context `{Host}.

(** The session starts in [[now, now + daysAhead * 24h]], both ends
    included: the instant that its [start_time] stamp denotes lies there.
    No instant is in the window of a [NaN] lookahead, and a start time that
    does not parse is at no instant. *)
Definition starts_in_window (now : Z) (daysAhead : number)
    (s : EventSession) : Prop :=
  match Date_parse (start_time s), daysAhead with
  | Num t, Num d => now <= t <= now + d * MS_PER_DAY
  | _, _ => False
  end.

(** The same as a test. *)
Definition starts_in_windowb (now : Z) (daysAhead : number)
    (s : EventSession) : bool :=
  match Date_parse (start_time s), daysAhead with
  | Num t, Num d => (now <=? t) && (t <=? now + d * MS_PER_DAY)
  | _, _ => false
  end.

Definition no_session_in_window (now : Z) (daysAhead : number)
    (e : SolidarityEvent) : Prop :=
  ~ exists s, In s (event_sessions e) /\ starts_in_window now daysAhead s.

(** The sessions of an event that start in the window, in their order. *)
Definition window_sessions (now : Z) (daysAhead : number)
    (e : SolidarityEvent) : list EventSession :=
  List.filter (starts_in_windowb now daysAhead) (event_sessions e).

(** [e'] is the event [e] restricted to the window: the same id, title,
    type, page and tags, and for sessions exactly the sessions of [e] that
    start in the window, each as often as [e] has it. *)
Definition restricted_to_window (now : Z) (daysAhead : number)
    (e e' : SolidarityEvent) : Prop :=
  event_id e' = event_id e
  /\ title e' = title e
  /\ event_type e' = event_type e
  /\ event_page_url e' = event_page_url e
  /\ tags e' = tags e
  /\ Permutation (event_sessions e') (window_sessions now daysAhead e).

(** The input events that are not excluded, in input order: those with a
    page URL, without the tag "slack-exclude", and with a session that
    starts in the window. *)
Definition not_excluded (now : Z) (daysAhead : number) (e : SolidarityEvent)
  : bool :=
  match event_page_url e with
  | Some url => negb (String.eqb url "")
  | None => false
  end
  && negb (existsb (String.eqb "slack-exclude") (tags e))
  && existsb (starts_in_windowb now daysAhead) (event_sessions e).

Definition included (now : Z) (daysAhead : number)
    (events : list SolidarityEvent) : list SolidarityEvent :=
  List.filter (not_excluded now daysAhead) events.

(** Ascending order of start times. *)
Definition sessions_ascending (ss : list EventSession) : Prop :=
  StronglySorted
    (fun a b => num_le (Date_parse (start_time a)) (Date_parse (start_time b)))
    ss.

(** The start time of the first session of an event. *)
Definition first_session_start (e : SolidarityEvent) : number :=
  match event_sessions e with
  | s :: _ => Date_parse (start_time s)
  | [] => NaN
  end.

Definition events_ascending (es : list SolidarityEvent) : Prop :=
  StronglySorted
    (fun a b => num_le (first_session_start a) (first_session_start b)) es.

(** The events whose first session starts at [t], in their order. *)
Definition starting_at (t : Z) (es : list SolidarityEvent)
  : list SolidarityEvent :=
  List.filter (fun e => match first_session_start e with
                        | Num t' => t' =? t
                        | NaN => false
                        end) es.

(** The object the [map] step of the code holds for the input event [e],
    and the input events that pass both filters of the code, in input
    order. *)
Definition kept (now : Z) (daysAhead : number) (e : SolidarityEvent)
  : SolidarityEvent :=
  window_event now (window_cutoff now daysAhead) e.

Definition survivors (now : Z) (daysAhead : number)
    (events : list SolidarityEvent) : list SolidarityEvent :=
  List.filter (fun e => is_listed e && has_sessions (kept now daysAhead e))
              events.
End WindowVocabulary.

(** Pages of the events API.  [with_requests w urls] is the state [w] after
    the requests [urls]; [page_urls c n] are the requests for the first [n]
    pages of chapter [c]. *)
Definition with_requests (w : World) (urls : list string) : World :=
  {| console := console w;
     requests := requests w ++ urls;
     posted := posted w;
     clock_reads := clock_reads w |}.

Definition page_urls (chapterId : Z) (n : nat) : list string :=
  List.map (fun i => events_url chapterId (Z.of_nat i + 1)) (seq 0 n).

Section FetchVocabulary.
Context `{Outside}.

(** Page [i] (counted from 0; the API numbers pages from 1) of a chapter is
    answered, [i] requests after the state [w], with a success whose body
    carries the events [evs]; a body without [data] carries none. *)
Definition answers_page (w : World) (chapterId : Z) (i : nat)
    (evs : list SolidarityEvent) : Prop :=
  exists response body,
    fetch (length (requests w) + i) (events_url chapterId (Z.of_nat i + 1))
      = Ok response
    /\ ok response = true
    /\ json response = Ok body
    /\ default [] (data body) = evs.
End FetchVocabulary.

Definition full_page (evs : list SolidarityEvent) : Prop :=
  (100 <= length evs)%nat.

Definition short_page (evs : list SolidarityEvent) : Prop :=
  (length evs < 100)%nat.

(** The events of pages [0 .. n-1], in page order. *)
Definition pages_upto (pages : nat -> list SolidarityEvent) (n : nat)
  : list SolidarityEvent :=
  concat (List.map pages (seq 0 n)).

(** Block documents.  [separated] lays sections out with a divider between
    neighbours and none after the last; [overflow_part n] is what follows
    them for [n] filtered events. *)
Fixpoint separated (sections : list Block) : list Block :=
  match sections with
  | [] => []
  | [sec] => [sec]
  | sec :: rest => sec :: DividerBlock :: separated rest
  end.

Definition overflow_part (n : nat) : list Block :=
  if (23 <? n)%nat then [overflowNotice (n - 23)] else [].

Definition is_overflow_notice (b : Block) : Prop :=
  exists k, b = overflowNotice k.

Section BuilderVocabulary.
Context `{Host}.

(** The end of the window is a date the formatter accepts. *)
Definition window_end_valid (now : Z) (daysAhead : number) : Prop :=
  is_finite (new_Date (num_add (Num now) (days_ms daysAhead))).

(** Both time stamps of the session parse. *)
Definition session_dated (s : EventSession) : Prop :=
  is_finite (Date_parse (start_time s)) /\ is_finite (Date_parse (end_time s)).

Definition sessions_dated (e : SolidarityEvent) : Prop :=
  Forall session_dated (event_sessions e).

(** The same as a test. *)
Definition is_finiteb (a : number) : bool :=
  match a with Num _ => true | NaN => false end.

Definition sessions_datedb (e : SolidarityEvent) : bool :=
  forallb (fun s => is_finiteb (Date_parse (start_time s))
                    && is_finiteb (Date_parse (end_time s)))
          (event_sessions e).

(** [sections] are the section blocks of [events], one each, in order. *)
Definition renders (events : list SolidarityEvent) (sections : list Block)
  : Prop :=
  Forall2 (fun e sec => eventSection e = Ok sec) events sections.

(** The line of one session of an event, as the loop body calls it. *)
Definition event_sessionLine (e : SolidarityEvent) (s : EventSession)
  : result string :=
  let normalizedType := toLowerCase (event_type e) in
  sessionLine (eventTypeLabel normalizedType)
              (String.eqb normalizedType "virtual"
               || String.eqb normalizedType "online") s.

Definition title_link (e : SolidarityEvent) : string :=
  "*<" +:+ default "null" (event_page_url e) +:+ "|" +:+ title e +:+ ">*".
End BuilderVocabulary.

(** The segments of a session line, in the words of the specification.  The
    type of an event is read case-normalized. *)
Definition is_virtual (e : SolidarityEvent) : Prop :=
  toLowerCase (event_type e) = "virtual" \/ toLowerCase (event_type e) = "online".

Definition known_type (t : string) : Prop :=
  t = "in_person" \/ t = "in-person" \/ t = "virtual" \/ t = "online"
  \/ t = "hybrid".

(** A location is present: a street address, or else a venue name. *)
Definition location_present (s : EventSession) : Prop :=
  location_address s <> ""
  \/ exists venue, location_name s = Some venue /\ venue <> "".

Definition location_text (loc : string) : string :=
  "   📍 _" +:+ loc +:+ "_".

(** Nothing for a virtual event; the address when there is one; else the
    venue name when there is one; else nothing. *)
Definition location_segment (e : SolidarityEvent) (s : EventSession) : string :=
  let t := toLowerCase (event_type e) in
  if String.eqb t "virtual" || String.eqb t "online" then ""
  else if nonempty (location_address s) then location_text (location_address s)
  else match location_name s with
       | Some venue => if nonempty venue then location_text venue else ""
       | None => ""
       end.

Definition label_segment (e : SolidarityEvent) : string :=
  let t := toLowerCase (event_type e) in
  if String.eqb t "in_person" || String.eqb t "in-person"
  then "   🏢 In Person"
  else if String.eqb t "virtual" || String.eqb t "online"
  then "   💻 Virtual"
  else if String.eqb t "hybrid" then "   🔀 Hybrid"
  else "".

(** The driver.  [chapters_run] is the sequential run of the chapters in
    input order: each chapter starts in the state its predecessor left, a
    chapter that throws is marked failed, and its failure is written to the
    console with the name of the chapter before the next one starts. *)
Definition attempt_line (m : ChapterMapping) : ConsoleLine :=
  ConsoleLog ("Fetching events for chapter: " +:+ name m
              +:+ " (" +:+ pretty (chapterId m) +:+ ")").

Definition failure_line (m : ChapterMapping) (err : exn) : ConsoleLine :=
  ConsoleError ("Failed to post events for chapter " +:+ name m +:+ ":")
               (Some err).

Definition failed (r : result unit) : bool :=
  match r with Throw _ => true | Ok _ => false end.

Definition log_failure (m : ChapterMapping) (err : exn) (w : World) : World :=
  {| console := console w ++ [failure_line m err];
     requests := requests w;
     posted := posted w;
     clock_reads := clock_reads w |}.

Section DriverVocabulary.
Context `{Host} `{Outside}.

Inductive chapters_run (fuel : nat) (daysAhead : number)
  : list ChapterMapping -> World -> list (result unit) -> World -> Prop :=
| run_done (w : World) :
    chapters_run fuel daysAhead [] w [] w
| run_posted (m : ChapterMapping) (rest : list ChapterMapping)
      (w w1 w2 : World) (outcomes : list (result unit)) :
    postChapter fuel m daysAhead w = Some (Ok (), w1) ->
    chapters_run fuel daysAhead rest w1 outcomes w2 ->
    chapters_run fuel daysAhead (m :: rest) w (Ok () :: outcomes) w2
| run_failed (m : ChapterMapping) (rest : list ChapterMapping)
      (w w1 w2 : World) (err : exn) (outcomes : list (result unit)) :
    postChapter fuel m daysAhead w = Some (Throw err, w1) ->
    chapters_run fuel daysAhead rest (log_failure m err w1) outcomes w2 ->
    chapters_run fuel daysAhead (m :: rest) w (Throw err :: outcomes) w2.

(** The configuration passes the checks of [main] and names [mappings]. *)
Definition valid_config (env : ProcessEnv) (mappings : list ChapterMapping)
  : Prop :=
  SOLIDARITY_TECH_API_KEY env <> ""
  /\ SLACK_BOT_TOKEN env <> ""
  /\ CHAPTER_CHANNEL_MAPPING_RAW env <> ""
  /\ JSON_parse (CHAPTER_CHANNEL_MAPPING_RAW env) = Ok (Some mappings)
  /\ mappings <> [].

(** The run of a chapter ends, with a result or an exception, within the
    fuel, from whatever state it starts. *)
Definition chapter_returns (fuel : nat) (daysAhead : number)
    (m : ChapterMapping) : Prop :=
  forall w, is_Some (postChapter fuel m daysAhead w).
End DriverVocabulary.

(** Memory.  What a reference stands for: [events_rep h arr es] reads the
    array [arr] of the heap [h] as the list of events [es], with their
    sessions and tags. *)
Definition session_rep (h : heap) (l : loc) (s : EventSession) : Prop :=
  h !! l = Some (SessionCell s).

Definition sessions_rep (h : heap) (arr : loc) (ss : list EventSession)
  : Prop :=
  exists ls, h !! arr = Some (ObjectArray ls) /\ Forall2 (session_rep h) ls ss.

Definition event_rep (h : heap) (l : loc) (e : SolidarityEvent) : Prop :=
  exists o,
    h !! l = Some (EventCell o)
    /\ obj_event_id o = event_id e
    /\ obj_title o = title e
    /\ obj_event_type o = event_type e
    /\ obj_event_page_url o = event_page_url e
    /\ sessions_rep h (obj_event_sessions o) (event_sessions e)
    /\ h !! obj_tags o = Some (StringArray (tags e)).

Definition events_rep (h : heap) (arr : loc) (es : list SolidarityEvent)
  : Prop :=
  exists ls, h !! arr = Some (ObjectArray ls) /\ Forall2 (event_rep h) ls es.

(** No cell of [h] has changed in [h']. *)
Definition unchanged (h h' : heap) : Prop :=
  forall l c, h !! l = Some c -> h' !! l = Some c.

(** The event object [ev] of [h'] is new with respect to [h], and so is its
    array of sessions; its tags array and its session objects are cells of
    [h]. *)
Definition new_event_object (h h' : heap) (ev : loc) : Prop :=
  h !! ev = None
  /\ exists o sessions,
       h' !! ev = Some (EventCell o)
       /\ h !! obj_event_sessions o = None
       /\ h' !! obj_event_sessions o = Some (ObjectArray sessions)
       /\ Forall (fun s => is_Some (h !! s)) sessions
       /\ is_Some (h !! obj_tags o).

(** The result [out] of a call from [h] to [h']: a new array of new event
    objects with new arrays of sessions. *)
Definition result_is_new (h h' : heap) (out : loc) : Prop :=
  h !! out = None
  /\ exists ls, h' !! out = Some (ObjectArray ls)
                /\ Forall (new_event_object h h') ls.

(** The event object [ev'] of [h'] is a copy of the event object [ev] of
    [h]: a new object with the id, title, type and page of [ev]; its tags
    array is the tags array of [ev], the same reference; its array of
    sessions is a new array, and the elements of that array are session
    objects of [ev], the same references. *)
Definition copied_from (h h' : heap) (ev ev' : loc) : Prop :=
  exists o o' sessions sessions',
    h !! ev = Some (EventCell o)
    /\ h !! ev' = None
    /\ h' !! ev' = Some (EventCell o')
    /\ obj_event_id o' = obj_event_id o
    /\ obj_title o' = obj_title o
    /\ obj_event_type o' = obj_event_type o
    /\ obj_event_page_url o' = obj_event_page_url o
    /\ obj_tags o' = obj_tags o
    /\ h !! obj_event_sessions o = Some (ObjectArray sessions)
    /\ h !! obj_event_sessions o' = None
    /\ h' !! obj_event_sessions o' = Some (ObjectArray sessions')
    /\ Forall (fun s => In s sessions) sessions'.

(** Every event object of the result [out] is a copy of an event object of
    the input array [events]. *)
Definition result_shares_with_input (h h' : heap) (events out : loc) : Prop :=
  exists inputs outputs,
    h !! events = Some (ObjectArray inputs)
    /\ h' !! out = Some (ObjectArray outputs)
    /\ Forall (fun ev' => exists ev, In ev inputs /\ copied_from h h' ev ev')
              outputs.

(** Every array and every event object of the result is new: the result
    array, the event objects, their arrays of sessions and their arrays of
    tags. *)
Definition result_entirely_new (h h' : heap) (out : loc) : Prop :=
  h !! out = None
  /\ exists ls, h' !! out = Some (ObjectArray ls)
                /\ Forall (fun ev =>
                             h !! ev = None
                             /\ exists o, h' !! ev = Some (EventCell o)
                                          /\ h !! obj_event_sessions o = None
                                          /\ h !! obj_tags o = None) ls.

(** Further vocabulary.  [api_error status body] is the error the fetcher
    reports for a status that is not a success.  [response_failure r] is the
    exception a page request answered with [r] ends the fetch with: the one
    of [fetch] itself; for a status that is not a success the API error, or
    the failure to read the text it quotes; for a success the failure to
    read the body; [None] for a page that is read. *)
Definition api_error (status : Z) (body : string) : exn :=
  Error ("solidarity.tech API error " +:+ pretty status +:+ ": " +:+ body).

Definition response_failure (r : result Response) : option exn :=
  match r with
  | Throw e => Some e
  | Ok response =>
      if ok response then
        match json response with
        | Throw e => Some e
        | Ok _ => None
        end
      else
        match text response with
        | Throw e => Some e
        | Ok body => Some (api_error (status response) body)
        end
  end.

(** The last character of [s] is a space of the pattern. *)
Fixpoint last_is_space (s : string) : bool :=
  match s with
  | EmptyString => false
  | String c EmptyString => is_space c
  | String _ s' => last_is_space s'
  end.

(** The chapters of a run that did not fail, in order. *)
Fixpoint successes (mappings : list ChapterMapping)
    (outcomes : list (result unit)) : list ChapterMapping :=
  match mappings, outcomes with
  | m :: mappings', Ok _ :: outcomes' => m :: successes mappings' outcomes'
  | _ :: mappings', Throw _ :: outcomes' => successes mappings' outcomes'
  | _, _ => []
  end.

(** The requests of a run: for each chapter the pages [1 .. k] with its own
    [k]. *)
Fixpoint chapter_requests (mappings : list ChapterMapping) (ks : list nat)
  : list string :=
  match mappings, ks with
  | m :: mappings', k :: ks' =>
      page_urls (chapterId m) k ++ chapter_requests mappings' ks'
  | _, _ => []
  end.

(** The number of blocks of a document for [n] filtered events. *)
Definition document_size (n : nat) : nat :=
  if (n =? 0)%nat then 3%nat
  else (2 * Nat.min n 23 + 1 + (if (23 <? n)%nat then 1 else 0))%nat.

(** Sorting by a numeric key: the comparator [key a - key b], the order it
    induces on finite keys, and the test for one key value. *)
Section KeyVocabulary.
Context {A : Type} (key : A -> number).

Definition key_cmp (a b : A) : number := num_sub (key a) (key b).

Definition key_le (a b : A) : Prop := num_le (key a) (key b).

Definition key_is (v : Z) (a : A) : bool :=
  match key a with Num k => k =? v | NaN => false end.
End KeyVocabulary.

(* ===================================================================== *)
(** * Part III: properties                                                *)
(* ===================================================================== *)

(** ** Numbers *)

Lemma days_ms_Num (d : Z) : days_ms (Num d) = Num (d * MS_PER_DAY).
Proof. unfold days_ms, MS_PER_DAY. simpl. f_equal. lia. Qed.

Lemma days_ms_NaN : days_ms NaN = NaN.
Proof. reflexivity. Qed.

Lemma num_sub_finite (a b : number) (x y : Z) :
  a = Num x -> b = Num y -> num_sub a b = Num (x - y).
Proof. intros -> ->. reflexivity. Qed.

(** ** The sort *)

Section SortFacts.
Context {A : Type}.

Lemma sort_insert_perm (cmp : A -> A -> number) (x : A) (l : list A) :
  Permutation (sort_insert cmp x l) (x :: l).
Proof.
  induction l as [|y l IH]; simpl.
  - reflexivity.
  - destruct (0 <? SortCompare cmp x y).
    + rewrite IH. apply perm_swap.
    + reflexivity.
Qed.

Lemma Array_sort_perm (cmp : A -> A -> number) (l : list A) :
  Permutation (Array_sort cmp l) l.
Proof.
  induction l as [|x l IH]; simpl.
  - reflexivity.
  - rewrite sort_insert_perm. now constructor.
Qed.

Lemma Array_sort_In (cmp : A -> A -> number) (l : list A) (x : A) :
  In x (Array_sort cmp l) <-> In x l.
Proof.
  split; apply Permutation_in;
    [apply Array_sort_perm | symmetry; apply Array_sort_perm].
Qed.

Lemma Array_sort_length (cmp : A -> A -> number) (l : list A) :
  length (Array_sort cmp l) = length l.
Proof. apply Permutation_length, Array_sort_perm. Qed.

Context (key : A -> number).

Lemma key_moves_behind (x y : A) :
  (0 <? SortCompare (key_cmp key) x y) = true ->
  exists kx ky, key x = Num kx /\ key y = Num ky /\ ky < kx.
Proof.
  unfold SortCompare, key_cmp.
  destruct (key x) as [|kx], (key y) as [|ky]; simpl;
    intros Hlt; try discriminate.
  exists kx, ky. apply Z.ltb_lt in Hlt. repeat split; lia.
Qed.

Lemma key_stays_in_front (x y : A) :
  is_finite (key x) -> is_finite (key y) ->
  (0 <? SortCompare (key_cmp key) x y) = false -> key_le key x y.
Proof.
  unfold SortCompare, key_cmp, key_le.
  destruct (key x) as [|kx], (key y) as [|ky]; simpl; try tauto.
  intros _ _ Hlt. apply Z.ltb_ge in Hlt. lia.
Qed.

Lemma key_le_trans (x y z : A) : key_le key x y -> key_le key y z -> key_le key x z.
Proof.
  unfold key_le.
  destruct (key x), (key y), (key z); simpl; try tauto. lia.
Qed.

Lemma sort_insert_sorted (x : A) (l : list A) :
  is_finite (key x) ->
  Forall (fun a => is_finite (key a)) l ->
  StronglySorted (key_le key) l ->
  StronglySorted (key_le key) (sort_insert (key_cmp key) x l).
Proof.
  intros Hx Hfin Hsorted.
  induction Hsorted as [|y l Hl IH Hy]; simpl.
  - repeat constructor.
  - inversion Hfin as [|? ? Hfy Hfl]; subst.
    destruct (0 <? SortCompare (key_cmp key) x y) eqn:Hcmp.
    + constructor; [now apply IH|].
      destruct (key_moves_behind _ _ Hcmp) as (kx & ky & Hkx & Hky & Hlt).
      eapply Permutation_Forall; [symmetry; apply sort_insert_perm|].
      constructor; [|exact Hy].
      unfold key_le. rewrite Hkx, Hky. simpl. lia.
    + pose proof (key_stays_in_front _ _ Hx Hfy Hcmp) as Hxy.
      constructor; [now constructor|].
      constructor; [exact Hxy|].
      eapply List.Forall_impl; [|exact Hy].
      intros z Hyz. simpl in Hyz. eapply key_le_trans; eassumption.
Qed.

Lemma Array_sort_sorted (l : list A) :
  Forall (fun a => is_finite (key a)) l ->
  StronglySorted (key_le key) (Array_sort (key_cmp key) l).
Proof.
  induction 1 as [|x l Hx Hl IH]; simpl.
  - constructor.
  - apply sort_insert_sorted; [exact Hx| |exact IH].
    eapply Permutation_Forall; [symmetry; apply Array_sort_perm|exact Hl].
Qed.

(** Stability: the elements of one key keep their relative order. *)
Lemma sort_insert_stable (v : Z) (x : A) (l : list A) :
  List.filter (key_is key v) (sort_insert (key_cmp key) x l)
  = List.filter (key_is key v) (x :: l).
Proof.
  induction l as [|y l IH]; [reflexivity|].
  simpl sort_insert.
  destruct (0 <? SortCompare (key_cmp key) x y) eqn:Hcmp; [|reflexivity].
  destruct (key_moves_behind _ _ Hcmp) as (kx & ky & Hkx & Hky & Hlt).
  simpl in *. rewrite IH.
  unfold key_is. rewrite Hkx, Hky.
  destruct (kx =? v) eqn:Ex, (ky =? v) eqn:Ey; try reflexivity.
  apply Z.eqb_eq in Ex, Ey. lia.
Qed.

Lemma Array_sort_stable (v : Z) (l : list A) :
  List.filter (key_is key v) (Array_sort (key_cmp key) l) = List.filter (key_is key v) l.
Proof.
  induction l as [|x l IH]; [reflexivity|].
  simpl Array_sort. rewrite sort_insert_stable. simpl. now rewrite IH.
Qed.

(** Whatever algorithm the engine runs: on finite keys there is one list
    that is in ascending order and keeps the order of equal keys, so every
    stable sort returns what [Array_sort] returns. *)
Lemma key_is_head (v : Z) (x : A) (l : list A) :
  key x = Num v -> List.filter (key_is key v) (x :: l)
                   = x :: List.filter (key_is key v) l.
Proof. intros Hx. simpl. unfold key_is at 1. now rewrite Hx, Z.eqb_refl. Qed.

Lemma key_is_In (v : Z) (x : A) (l : list A) :
  In x (List.filter (key_is key v) l) -> In x l /\ key x = Num v.
Proof.
  intros Hx. apply filter_In in Hx. destruct Hx as [Hin Hk].
  split; [exact Hin|]. unfold key_is in Hk.
  destruct (key x) as [|k]; [discriminate|].
  apply Z.eqb_eq in Hk. now subst.
Qed.

Lemma sorted_head_least (x y : A) (l : list A) (kx ky : Z) :
  StronglySorted (key_le key) (x :: l) -> In y (x :: l) ->
  key x = Num kx -> key y = Num ky -> kx <= ky.
Proof.
  intros Hs Hy Hkx Hky. inversion Hs as [|? ? _ Hall]; subst.
  destruct Hy as [->|Hy]; [rewrite Hkx in Hky; inversion Hky; lia|].
  rewrite List.Forall_forall in Hall. specialize (Hall y Hy).
  unfold key_le in Hall. now rewrite Hkx, Hky in Hall.
Qed.

Lemma stable_sorted_unique (l1 l2 : list A) :
  Forall (fun a => is_finite (key a)) l1 ->
  Forall (fun a => is_finite (key a)) l2 ->
  StronglySorted (key_le key) l1 ->
  StronglySorted (key_le key) l2 ->
  (forall v, List.filter (key_is key v) l1 = List.filter (key_is key v) l2) ->
  l1 = l2.
Proof.
  revert l2. induction l1 as [|x l1 IH]; intros l2 Hf1 Hf2 Hs1 Hs2 Hsame.
  - destruct l2 as [|y l2]; [reflexivity|].
    inversion Hf2 as [|? ? Hy _]; subst.
    destruct (key y) as [|ky] eqn:Hky; [contradiction|].
    specialize (Hsame ky). rewrite (key_is_head ky y l2 Hky) in Hsame.
    discriminate.
  - inversion Hf1 as [|? ? Hx Hf1']; subst.
    destruct (key x) as [|kx] eqn:Hkx; [contradiction|].
    pose proof (Hsame kx) as Hkxs. rewrite (key_is_head kx x l1 Hkx) in Hkxs.
    destruct l2 as [|y l2]; [discriminate|].
    inversion Hf2 as [|? ? Hy Hf2']; subst.
    destruct (key y) as [|ky] eqn:Hky; [contradiction|].
    assert (Hxin : In x (y :: l2)).
    { eapply (key_is_In kx). rewrite <- Hkxs. now left. }
    assert (Hyin : In y (x :: l1)).
    { eapply (key_is_In ky). rewrite Hsame, (key_is_head ky y l2 Hky).
      now left. }
    pose proof (sorted_head_least y x l2 ky kx Hs2 Hxin Hky Hkx) as Hle1.
    pose proof (sorted_head_least x y l1 kx ky Hs1 Hyin Hkx Hky) as Hle2.
    assert (ky = kx) by lia. subst ky.
    rewrite (key_is_head kx y l2 Hky) in Hkxs.
    injection Hkxs as <- Htail. f_equal.
    apply IH; try assumption.
    + now inversion Hs1.
    + now inversion Hs2.
    + intros v. specialize (Hsame v). simpl in Hsame.
      destruct (key_is key v x); [now injection Hsame|exact Hsame].
Qed.

Lemma Array_sort_is_the_stable_sort (l sorted : list A) :
  Forall (fun a => is_finite (key a)) l ->
  Permutation sorted l ->
  StronglySorted (key_le key) sorted ->
  (forall v, List.filter (key_is key v) sorted = List.filter (key_is key v) l) ->
  sorted = Array_sort (key_cmp key) l.
Proof.
  intros Hfin Hperm Hsorted Hstable.
  apply stable_sorted_unique.
  - eapply Permutation_Forall; [symmetry; exact Hperm|exact Hfin].
  - eapply Permutation_Forall; [symmetry; apply Array_sort_perm|exact Hfin].
  - exact Hsorted.
  - now apply Array_sort_sorted.
  - intros v. now rewrite Hstable, Array_sort_stable.
Qed.
End SortFacts.

(** ** The window filter *)

Section WindowFilterFacts.
Context `{Host}.

Lemma truthy_false_iff (e : SolidarityEvent) :
  truthy (event_page_url e) = false <-> lacks_page_url e.
Proof.
  unfold lacks_page_url.
  destruct (event_page_url e) as [[|c u]|]; simpl; split;
    intros Hu; try tauto; try discriminate;
    destruct Hu as [Hu|Hu]; discriminate.
Qed.

Lemma includes_In (l : list string) (x : string) :
  includes l x = true <-> In x l.
Proof.
  unfold includes. rewrite existsb_exists. split.
  - intros (y & Hy & Heq). apply String.eqb_eq in Heq. now subst.
  - intros Hx. exists x. split; [exact Hx|apply String.eqb_refl].
Qed.

Lemma is_listed_iff (e : SolidarityEvent) :
  is_listed e = true <-> ~ lacks_page_url e /\ ~ has_exclusion_tag e.
Proof.
  unfold is_listed, has_exclusion_tag.
  rewrite andb_true_iff, negb_true_iff.
  rewrite <- truthy_false_iff, <- (includes_In (tags e)).
  unfold EXCLUDE_TAG.
  destruct (truthy (event_page_url e)), (includes (tags e) "slack-exclude");
    intuition congruence.
Qed.

Lemma in_window_test (now : Z) (daysAhead : number) (s : EventSession) :
  in_window now (window_cutoff now daysAhead) s
  = starts_in_windowb now daysAhead s.
Proof.
  unfold in_window, starts_in_windowb, window_cutoff, session_start.
  destruct daysAhead as [|d].
  - rewrite days_ms_NaN. simpl.
    destruct (Date_parse (start_time s)); simpl;
      [reflexivity|apply andb_false_r].
  - rewrite days_ms_Num. simpl.
    destruct (Date_parse (start_time s)); reflexivity.
Qed.

Lemma starts_in_windowb_iff (now : Z) (daysAhead : number) (s : EventSession) :
  starts_in_windowb now daysAhead s = true
  <-> starts_in_window now daysAhead s.
Proof.
  unfold starts_in_windowb, starts_in_window.
  destruct (Date_parse (start_time s)), daysAhead;
    try (intuition discriminate).
  rewrite andb_true_iff, !Z.leb_le. tauto.
Qed.

Lemma in_window_iff (now : Z) (daysAhead : number) (s : EventSession) :
  in_window now (window_cutoff now daysAhead) s = true
  <-> starts_in_window now daysAhead s.
Proof. rewrite in_window_test. apply starts_in_windowb_iff. Qed.

Lemma in_window_finite (now : Z) (cutoff : number) (s : EventSession) :
  in_window now cutoff s = true -> is_finite (session_start s).
Proof.
  unfold in_window. destruct (session_start s); simpl; [discriminate|easy].
Qed.

Lemma window_sessions_eq (now : Z) (daysAhead : number)
    (e : SolidarityEvent) :
  List.filter (in_window now (window_cutoff now daysAhead)) (event_sessions e)
  = window_sessions now daysAhead e.
Proof. apply List.filter_ext. intros s. apply in_window_test. Qed.

Lemma window_sessions_finite (now : Z) (daysAhead : number)
    (e : SolidarityEvent) :
  Forall (fun s => is_finite (session_start s))
         (window_sessions now daysAhead e).
Proof.
  rewrite <- window_sessions_eq. apply List.Forall_forall. intros s Hs.
  apply filter_In in Hs. eapply in_window_finite, Hs.
Qed.

Lemma kept_sessions (now : Z) (daysAhead : number) (e : SolidarityEvent) :
  event_sessions (kept now daysAhead e)
  = Array_sort (key_cmp session_start) (window_sessions now daysAhead e).
Proof. rewrite <- window_sessions_eq. reflexivity. Qed.

Lemma kept_sessions_perm (now : Z) (daysAhead : number) (e : SolidarityEvent) :
  Permutation (event_sessions (kept now daysAhead e))
              (window_sessions now daysAhead e).
Proof. rewrite kept_sessions. apply Array_sort_perm. Qed.

Lemma kept_sessions_finite (now : Z) (daysAhead : number)
    (e : SolidarityEvent) :
  Forall (fun s => is_finite (session_start s))
         (event_sessions (kept now daysAhead e)).
Proof.
  eapply Permutation_Forall; [symmetry; apply kept_sessions_perm|].
  apply window_sessions_finite.
Qed.

Lemma kept_sessions_ascending (now : Z) (daysAhead : number)
    (e : SolidarityEvent) :
  sessions_ascending (event_sessions (kept now daysAhead e)).
Proof.
  rewrite kept_sessions. apply (Array_sort_sorted session_start).
  apply window_sessions_finite.
Qed.

Lemma has_sessions_iff (e : SolidarityEvent) :
  has_sessions e = true <-> event_sessions e <> [].
Proof.
  unfold has_sessions. destruct (event_sessions e); simpl.
  - split; [discriminate|congruence].
  - split; [discriminate|reflexivity].
Qed.

Lemma kept_has_sessions_iff (now : Z) (daysAhead : number)
    (e : SolidarityEvent) :
  has_sessions (kept now daysAhead e) = true
  <-> exists s, In s (event_sessions e) /\ starts_in_window now daysAhead s.
Proof.
  rewrite has_sessions_iff. split.
  - intros Hne.
    destruct (event_sessions (kept now daysAhead e)) as [|s ss] eqn:Hk;
      [congruence|].
    assert (Hin : In s (window_sessions now daysAhead e)).
    { eapply Permutation_in; [apply kept_sessions_perm|].
      rewrite Hk. now left. }
    apply filter_In in Hin. exists s. split; [apply Hin|].
    apply starts_in_windowb_iff, Hin.
  - intros (s & Hs & Hw) Hnil.
    assert (Hin : In s (event_sessions (kept now daysAhead e))).
    { eapply Permutation_in; [symmetry; apply kept_sessions_perm|].
      apply filter_In. split; [exact Hs|]. now apply starts_in_windowb_iff. }
    rewrite Hnil in Hin. exact Hin.
Qed.

Lemma kept_first_start_finite (now : Z) (daysAhead : number)
    (e : SolidarityEvent) :
  has_sessions (kept now daysAhead e) = true ->
  is_finite (first_start (kept now daysAhead e)).
Proof.
  intros Hs. pose proof (kept_sessions_finite now daysAhead e) as Hfin.
  unfold first_start, has_sessions in *.
  destruct (event_sessions (kept now daysAhead e)); [discriminate|].
  now inversion Hfin.
Qed.

(** The list the final sort runs on. *)
Lemma candidates_survivors (now : Z) (daysAhead : number)
    (events : list SolidarityEvent) :
  List.filter has_sessions
    (List.map (window_event now (window_cutoff now daysAhead))
       (List.filter is_listed events))
  = List.map (kept now daysAhead) (survivors now daysAhead events).
Proof.
  unfold survivors. induction events as [|e events IH]; [reflexivity|].
  simpl. destruct (is_listed e); simpl; [|exact IH].
  fold (kept now daysAhead e).
  destruct (has_sessions (kept now daysAhead e)); simpl; now rewrite IH.
Qed.

Lemma filterAndSortEvents_sorted_survivors (now : Z) (daysAhead : number)
    (events : list SolidarityEvent) :
  filterAndSortEvents now events daysAhead
  = Array_sort (key_cmp first_start)
      (List.map (kept now daysAhead) (survivors now daysAhead events)).
Proof.
  unfold filterAndSortEvents. cbv zeta. now rewrite candidates_survivors.
Qed.

Lemma filterAndSortEvents_perm (now : Z) (daysAhead : number)
    (events : list SolidarityEvent) :
  Permutation (filterAndSortEvents now events daysAhead)
              (List.map (kept now daysAhead) (survivors now daysAhead events)).
Proof. rewrite filterAndSortEvents_sorted_survivors. apply Array_sort_perm. Qed.

Lemma In_filterAndSortEvents (now : Z) (daysAhead : number)
    (events : list SolidarityEvent) (e' : SolidarityEvent) :
  In e' (filterAndSortEvents now events daysAhead)
  <-> exists e, In e events /\ is_listed e = true
                /\ has_sessions (kept now daysAhead e) = true
                /\ e' = kept now daysAhead e.
Proof.
  rewrite filterAndSortEvents_sorted_survivors, Array_sort_In, in_map_iff.
  unfold survivors. split.
  - intros (e & <- & He). apply filter_In in He. destruct He as [He Hb].
    apply andb_true_iff in Hb. exists e. tauto.
  - intros (e & He & Hl & Hs & ->). exists e. split; [reflexivity|].
    apply filter_In. split; [exact He|]. now rewrite Hl, Hs.
Qed.

Lemma kept_page_url (now : Z) (daysAhead : number) (e : SolidarityEvent) :
  event_page_url (kept now daysAhead e) = event_page_url e.
Proof. reflexivity. Qed.

Lemma kept_tags (now : Z) (daysAhead : number) (e : SolidarityEvent) :
  tags (kept now daysAhead e) = tags e.
Proof. reflexivity. Qed.

Lemma kept_is_listed (now : Z) (daysAhead : number) (e : SolidarityEvent) :
  is_listed (kept now daysAhead e) = is_listed e.
Proof. reflexivity. Qed.

(** The vocabulary of the window against the tests of the code. *)
Lemma kept_restricted (now : Z) (daysAhead : number) (e : SolidarityEvent) :
  restricted_to_window now daysAhead e (kept now daysAhead e).
Proof.
  unfold restricted_to_window. repeat split. apply kept_sessions_perm.
Qed.

Lemma kept_all_restricted (now : Z) (daysAhead : number)
    (es : list SolidarityEvent) :
  Forall2 (restricted_to_window now daysAhead) es
          (List.map (kept now daysAhead) es).
Proof.
  induction es as [|e es IH]; simpl; constructor;
    [apply kept_restricted|exact IH].
Qed.

Lemma restricted_is_listed (now : Z) (daysAhead : number)
    (e e' : SolidarityEvent) :
  restricted_to_window now daysAhead e e' -> is_listed e' = is_listed e.
Proof.
  intros (_ & _ & _ & Hurl & Htags & _). unfold is_listed.
  now rewrite Hurl, Htags.
Qed.

Lemma restricted_sessions (now : Z) (daysAhead : number)
    (e e' : SolidarityEvent) :
  restricted_to_window now daysAhead e e' ->
  forall s, In s (event_sessions e')
            <-> In s (event_sessions e) /\ starts_in_window now daysAhead s.
Proof.
  intros (_ & _ & _ & _ & _ & Hperm) s. split.
  - intros Hs. eapply Permutation_in in Hs; [|exact Hperm].
    apply filter_In in Hs. split; [apply Hs|apply starts_in_windowb_iff, Hs].
  - intros [Hs Hw]. eapply Permutation_in; [symmetry; exact Hperm|].
    apply filter_In. split; [exact Hs|now apply starts_in_windowb_iff].
Qed.

Lemma not_excluded_test (now : Z) (daysAhead : number) (e : SolidarityEvent) :
  is_listed e && has_sessions (kept now daysAhead e)
  = not_excluded now daysAhead e.
Proof.
  unfold not_excluded. f_equal.
  - unfold is_listed. f_equal. destruct (event_page_url e) as [[|c u]|];
      reflexivity.
  - apply eq_true_iff_eq.
    rewrite kept_has_sessions_iff, existsb_exists.
    split; intros (s & Hs & Hw); exists s; (split; [exact Hs|]);
      now apply starts_in_windowb_iff.
Qed.

Lemma survivors_included (now : Z) (daysAhead : number)
    (events : list SolidarityEvent) :
  survivors now daysAhead events = included now daysAhead events.
Proof. apply List.filter_ext. intros e. apply not_excluded_test. Qed.

Lemma not_excluded_iff (now : Z) (daysAhead : number) (e : SolidarityEvent) :
  not_excluded now daysAhead e = true
  <-> ~ (lacks_page_url e \/ has_exclusion_tag e
         \/ no_session_in_window now daysAhead e).
Proof.
  rewrite <- not_excluded_test, andb_true_iff, is_listed_iff,
    kept_has_sessions_iff.
  unfold no_session_in_window. split; [tauto|].
  intros Hnot. split; [tauto|].
  destruct (has_sessions (kept now daysAhead e)) eqn:Hs.
  - now apply kept_has_sessions_iff.
  - exfalso. apply Hnot. right. right. intros Hex.
    apply kept_has_sessions_iff in Hex. congruence.
Qed.

(** C1.  An input event is absent from the output of [filterAndSortEvents]
    (no output event is that event restricted to the window) exactly when
    it lacks a page URL, carries the tag "slack-exclude", or has no session
    whose [start_time] lies in the inclusive window
    [[now, now + daysAhead * 24h]].  Every event of the output is an input
    event restricted to its sessions in the window (the same sessions,
    each as often as in the input), and has at least one session; the
    output holds one such event for every input event that is not excluded,
    and nothing else. *)
Theorem filterAndSortEvents_excludes_iff (now : Z) (daysAhead : number)
    (events : list SolidarityEvent) :
  let out := filterAndSortEvents now events daysAhead in
  (forall e, In e events ->
     (~ (exists e', In e' out /\ restricted_to_window now daysAhead e e')
      <-> lacks_page_url e \/ has_exclusion_tag e
          \/ no_session_in_window now daysAhead e))
  /\ (forall e', In e' out ->
        exists e, In e events
                  /\ restricted_to_window now daysAhead e e'
                  /\ (length (event_sessions e') >= 1)%nat
                  /\ forall s, In s (event_sessions e')
                               <-> In s (event_sessions e)
                                   /\ starts_in_window now daysAhead s)
  /\ (forall e, In e (included now daysAhead events)
                <-> In e events
                    /\ ~ (lacks_page_url e \/ has_exclusion_tag e
                          \/ no_session_in_window now daysAhead e))
  /\ exists originals,
       Permutation originals (included now daysAhead events)
       /\ Forall2 (restricted_to_window now daysAhead) originals out.
Proof.
  intros out. subst out.
  split; [|split; [|split]].
  - intros e He. split.
    + (* absent, hence excluded *)
      intros Habs.
      destruct (is_listed e) eqn:Hl.
      * right. right. intros Hex.
        apply kept_has_sessions_iff in Hex.
        apply Habs. exists (kept now daysAhead e).
        split; [|apply kept_restricted].
        apply In_filterAndSortEvents. exists e. tauto.
      * destruct (truthy (event_page_url e)) eqn:Hu.
        -- right. left. apply includes_In.
           unfold is_listed in Hl. rewrite Hu in Hl. simpl in Hl.
           now apply negb_false_iff in Hl.
        -- left. now apply truthy_false_iff.
    + (* excluded, hence absent *)
      intros Hexcl (e' & Hin & Hres).
      apply In_filterAndSortEvents in Hin.
      destruct Hin as (e0 & _ & Hl & Hs & Heq).
      rewrite <- (kept_is_listed now daysAhead), <- Heq,
        (restricted_is_listed now daysAhead e e' Hres) in Hl.
      apply is_listed_iff in Hl. destruct Hl as [Hurl Htag].
      destruct Hexcl as [Hx|[Hx|Hx]]; [tauto|tauto|].
      apply Hx. rewrite <- Heq in Hs. apply has_sessions_iff in Hs.
      destruct (event_sessions e') as [|s ss] eqn:Hss; [congruence|].
      exists s. apply (restricted_sessions now daysAhead e e' Hres).
      rewrite Hss. now left.
  - intros e' Hin. apply In_filterAndSortEvents in Hin.
    destruct Hin as (e & He & _ & Hs & ->).
    exists e. split; [exact He|]. split; [apply kept_restricted|]. split.
    + apply has_sessions_iff in Hs.
      destruct (event_sessions (kept now daysAhead e));
        [congruence|simpl; lia].
    + apply restricted_sessions, kept_restricted.
  - intros e. unfold included. now rewrite filter_In, not_excluded_iff.
  - destruct (Permutation_map_inv _ _
                (filterAndSortEvents_perm now daysAhead events))
      as (originals & Hout & Hperm).
    exists originals. split.
    + rewrite <- survivors_included. now symmetry.
    + rewrite Hout. apply kept_all_restricted.
Qed.

(** C5.  The output of [filterAndSortEvents] is in ascending order of the
    [start_time] of each event's first remaining session; the sessions of
    each output event are in ascending order of their [start_time]; and the
    output is a stable arrangement of the input: it holds the input events
    that are not excluded, each restricted to the window, and those whose
    first sessions start at the same instant stand in their input order. *)
Theorem filterAndSortEvents_sorted_stable (now : Z) (daysAhead : number)
    (events : list SolidarityEvent) :
  let out := filterAndSortEvents now events daysAhead in
  events_ascending out
  /\ Forall (fun e => sessions_ascending (event_sessions e)) out
  /\ exists restricted,
       Forall2 (restricted_to_window now daysAhead)
               (included now daysAhead events) restricted
       /\ Permutation out restricted
       /\ forall t, starting_at t out = starting_at t restricted.
Proof.
  intros out. subst out. split; [|split].
  - rewrite filterAndSortEvents_sorted_survivors.
    apply (Array_sort_sorted first_start).
    apply List.Forall_forall. intros e' He'.
    apply in_map_iff in He'. destruct He' as (e & <- & He).
    apply filter_In in He. destruct He as [_ Hb].
    apply andb_true_iff in Hb. now apply kept_first_start_finite.
  - apply List.Forall_forall. intros e' He'.
    apply In_filterAndSortEvents in He'.
    destruct He' as (e & _ & _ & _ & ->).
    apply kept_sessions_ascending.
  - exists (List.map (kept now daysAhead) (included now daysAhead events)).
    split; [apply kept_all_restricted|].
    rewrite <- survivors_included. split.
    + apply filterAndSortEvents_perm.
    + intros t. rewrite filterAndSortEvents_sorted_survivors.
      apply (Array_sort_stable first_start).
Qed.
End WindowFilterFacts.

(** ** The event fetcher *)

Section EventFetcherFacts.
Context `{Outside}.

Lemma with_requests_nil (w : World) : with_requests w [] = w.
Proof. destruct w. unfold with_requests. simpl. now rewrite app_nil_r. Qed.

Lemma with_requests_app (w : World) (a b : list string) :
  with_requests (with_requests w a) b = with_requests w (a ++ b).
Proof. unfold with_requests. simpl. now rewrite app_assoc. Qed.

Lemma do_fetch_eq (url : string) (w : World) :
  do_fetch url w = (fetch (length (requests w)) url, with_requests w [url]).
Proof. reflexivity. Qed.

Lemma page_urls_S (chapterId : Z) (n : nat) :
  page_urls chapterId (S n)
  = page_urls chapterId n ++ [events_url chapterId (Z.of_nat n + 1)].
Proof. unfold page_urls. now rewrite seq_S, map_app. Qed.

Lemma pages_upto_S (pages : nat -> list SolidarityEvent) (n : nat) :
  pages_upto pages (S n) = pages_upto pages n ++ pages n.
Proof.
  unfold pages_upto. rewrite seq_S, map_app, concat_app. simpl.
  now rewrite app_nil_r.
Qed.

(** One iteration on a page that is answered. *)
Lemma fetch_loop_step (fuel : nat) (chapterId : Z)
    (pages : nat -> list SolidarityEvent) (w : World) (i : nat) :
  answers_page w chapterId i (pages i) ->
  fetch_loop (S fuel) chapterId (pages_upto pages i) (Z.of_nat i + 1)
             (with_requests w (page_urls chapterId i))
  = if Z.of_nat (length (pages i)) <? LIMIT
    then Some (Ok (pages_upto pages (S i)),
               with_requests w (page_urls chapterId (S i)))
    else fetch_loop fuel chapterId (pages_upto pages (S i))
                    (Z.of_nat (S i) + 1)
                    (with_requests w (page_urls chapterId (S i))).
Proof.
  intros (response & body & Hfetch & Hok & Hjson & Hdata).
  cbn [fetch_loop]. rewrite do_fetch_eq.
  replace (length (requests (with_requests w (page_urls chapterId i))))
    with (length (requests w) + i)%nat.
  2:{ unfold with_requests, page_urls. simpl.
      now rewrite length_app, length_map, length_seq. }
  rewrite Hfetch, Hok. cbn [negb]. rewrite Hjson, Hdata.
  rewrite with_requests_app, <- page_urls_S, <- pages_upto_S.
  replace (Z.of_nat i + 1 + 1) with (Z.of_nat (S i) + 1) by lia.
  reflexivity.
Qed.

(** From page [i] on, the loop stops at the first short page. *)
Lemma fetch_loop_reaches_short (chapterId : Z)
    (pages : nat -> list SolidarityEvent) (w : World) (k i : nat) :
  short_page (pages (i + k)%nat) ->
  (forall j, (j <= i + k)%nat -> answers_page w chapterId j (pages j)) ->
  exists n, (i <= n <= i + k)%nat
    /\ (forall j, (i <= j < n)%nat -> full_page (pages j))
    /\ short_page (pages n)
    /\ forall fuel, (n - i < fuel)%nat ->
         fetch_loop fuel chapterId (pages_upto pages i) (Z.of_nat i + 1)
                    (with_requests w (page_urls chapterId i))
         = Some (Ok (pages_upto pages (S n)),
                 with_requests w (page_urls chapterId (S n))).
Proof.
  revert i. induction k as [|k IH]; intros i Hshort Hans.
  - exists i. rewrite Nat.add_0_r in *.
    split; [lia|]. split; [intros j Hj; lia|]. split; [exact Hshort|].
    intros [|fuel] Hfuel; [lia|].
    rewrite fetch_loop_step by (apply Hans; lia).
    unfold short_page in Hshort. unfold LIMIT.
    destruct (Z.ltb_spec (Z.of_nat (length (pages i))) 100); [reflexivity|lia].
  - destruct (Nat.lt_ge_cases (length (pages i)) 100) as [Hi|Hi].
    + exists i. split; [lia|]. split; [intros j Hj; lia|].
      split; [exact Hi|].
      intros [|fuel] Hfuel; [lia|].
      rewrite fetch_loop_step by (apply Hans; lia). unfold LIMIT.
      destruct (Z.ltb_spec (Z.of_nat (length (pages i))) 100);
        [reflexivity|lia].
    + destruct (IH (S i)) as (n & Hn & Hfull & Hsh & Hrun).
      { now replace (S i + k)%nat with (i + S k)%nat by lia. }
      { intros j Hj. apply Hans. lia. }
      exists n. split; [lia|]. split.
      { intros j Hj. destruct (Nat.eq_dec j i) as [->|Hne]; [exact Hi|].
        apply Hfull. lia. }
      split; [exact Hsh|].
      intros [|fuel] Hfuel; [lia|].
      rewrite fetch_loop_step by (apply Hans; lia). unfold LIMIT.
      destruct (Z.ltb_spec (Z.of_nat (length (pages i))) 100); [lia|].
      apply Hrun. lia.
Qed.

(** C2.  Let the chapter's pages be answered in sequence, and let some page
    [k] hold fewer than 100 events.  Then [fetchAllEvents] returns: there
    is a first short page [n], after [n] full pages, and with enough fuel
    (any amount above [n]) the call returns the events of pages [0 .. n]
    concatenated in page order, having requested exactly these [n + 1]
    pages in order.  In particular, when page [n] is empty (the last page
    with events was full), the call returns the events of the [n] full
    pages, having requested the [n] full pages and then, once more, the
    empty one. *)
Theorem fetchAllEvents_returns_all_pages (chapterId : Z)
    (pages : nat -> list SolidarityEvent) (w : World) (k : nat) :
  short_page (pages k) ->
  (forall j, (j <= k)%nat -> answers_page w chapterId j (pages j)) ->
  exists n, (n <= k)%nat
    /\ (forall j, (j < n)%nat -> full_page (pages j))
    /\ short_page (pages n)
    /\ (forall fuel, (n < fuel)%nat ->
          fetchAllEvents fuel chapterId w
          = Some (Ok (pages_upto pages (S n)),
                  with_requests w (page_urls chapterId (S n))))
    /\ (pages n = [] ->
          forall fuel, (n < fuel)%nat ->
            fetchAllEvents fuel chapterId w
            = Some (Ok (pages_upto pages n),
                    with_requests w
                      (page_urls chapterId n
                       ++ [events_url chapterId (Z.of_nat n + 1)]))).
Proof.
  intros Hshort Hans.
  destruct (fetch_loop_reaches_short chapterId pages w k 0)
    as (n & Hn & Hfull & Hsh & Hrun); [exact Hshort|exact Hans|].
  exists n. split; [lia|]. split; [intros j Hj; apply Hfull; lia|].
  split; [exact Hsh|].
  assert (Hret : forall fuel, (n < fuel)%nat ->
            fetchAllEvents fuel chapterId w
            = Some (Ok (pages_upto pages (S n)),
                    with_requests w (page_urls chapterId (S n)))).
  { intros fuel Hfuel. unfold fetchAllEvents.
    specialize (Hrun fuel). rewrite Nat.sub_0_r in Hrun.
    specialize (Hrun Hfuel).
    unfold page_urls at 1 in Hrun. simpl in Hrun.
    now rewrite with_requests_nil in Hrun. }
  split; [exact Hret|].
  intros Hempty fuel Hfuel. rewrite (Hret fuel Hfuel).
  now rewrite pages_upto_S, Hempty, app_nil_r, page_urls_S.
Qed.
End EventFetcherFacts.

(** ** Strings and the result monad *)

Lemma append_cons (ch : ascii) (a b : string) :
  String ch a +:+ b = String ch (a +:+ b).
Proof. reflexivity. Qed.

Lemma append_assoc (a b c : string) : (a +:+ b) +:+ c = a +:+ (b +:+ c).
Proof.
  induction a as [|ch a IH]; [reflexivity|].
  rewrite !append_cons. now rewrite IH.
Qed.

Lemma append_nil_r (a : string) : a +:+ "" = a.
Proof.
  induction a as [|ch a IH]; [reflexivity|].
  rewrite append_cons. now rewrite IH.
Qed.

Lemma nonempty_false_iff (s : string) : nonempty s = false <-> s = "".
Proof. destruct s; simpl; split; congruence. Qed.

Lemma nonempty_true_iff (s : string) : nonempty s = true <-> s <> "".
Proof. destruct s; simpl; split; congruence. Qed.

Lemma existsb_failed_iff (outcomes : list (result unit)) :
  existsb failed outcomes = true
  <-> exists i err, outcomes !! i = Some (Throw err).
Proof.
  rewrite existsb_exists. split.
  - intros ([u|err] & Hin & Hf); [discriminate|].
    apply list_elem_of_In, list_elem_of_lookup in Hin.
    destruct Hin as (i & Hi). eauto.
  - intros (i & err & Hi). exists (Throw err). split; [|reflexivity].
    apply list_elem_of_In, list_elem_of_lookup. eauto.
Qed.

Lemma bind_Ok_inv {A B : Type} (r : result A) (k : A -> result B) (b : B) :
  r ≫= k = Ok b <-> exists a, r = Ok a /\ k a = Ok b.
Proof.
  destruct r as [a|e]; simpl; split.
  - intros Hk. now exists a.
  - intros (a' & Ha & Hk). now inversion Ha; subst.
  - discriminate.
  - intros (a' & Ha & _). discriminate.
Qed.

Lemma mapM_Ok_Forall2 {A B : Type} (f : A -> result B) (l : list A)
    (k : list B) :
  mapM f l = Ok k <-> Forall2 (fun x y => f x = Ok y) l k.
Proof.
  revert k. induction l as [|x l IH]; intros k; simpl.
  - split.
    + intros Hk. inversion Hk. constructor.
    + intros Hk. now inversion Hk.
  - rewrite bind_Ok_inv. split.
    + intros (y & Hy & Hrest). apply bind_Ok_inv in Hrest.
      destruct Hrest as (ys & Hys & Hret). inversion Hret; subst.
      constructor; [exact Hy|now apply IH].
    + intros Hk. inversion Hk as [|? y ? ys Hy Hys]; subst.
      exists y. split; [exact Hy|]. apply bind_Ok_inv.
      exists ys. split; [now apply IH|reflexivity].
Qed.

Lemma mapM_Ok_exists {A B : Type} (f : A -> result B) (l : list A) :
  Forall (fun x => exists y, f x = Ok y) l -> exists k, mapM f l = Ok k.
Proof.
  induction 1 as [|x l (y & Hy) _ (k & Hk)]; simpl.
  - now exists [].
  - exists (y :: k). now rewrite Hy, Hk.
Qed.

(** ** The message builder *)

Lemma separated_length (sections : list Block) :
  length (separated sections) = (2 * length sections - 1)%nat.
Proof.
  induction sections as [|sec [|sec' rest] IH]; [reflexivity..|].
  change (separated (sec :: sec' :: rest))
    with (sec :: DividerBlock :: separated (sec' :: rest)).
  simpl length in *. lia.
Qed.

Lemma pairs_separated (sections : list Block) :
  sections <> [] ->
  flat_map (fun sec => [sec; DividerBlock]) sections
  = separated sections ++ [DividerBlock].
Proof.
  induction sections as [|sec [|sec' rest] IH]; intros Hne;
    [congruence|reflexivity|].
  change (separated (sec :: sec' :: rest))
    with (sec :: DividerBlock :: separated (sec' :: rest)).
  simpl flat_map in *. rewrite IH by discriminate. reflexivity.
Qed.

Lemma popTrailingDivider_pairs (sections : list Block) :
  popTrailingDivider (flat_map (fun sec => [sec; DividerBlock]) sections)
  = separated sections.
Proof.
  destruct sections as [|sec rest]; [reflexivity|].
  rewrite pairs_separated by discriminate.
  unfold popTrailingDivider. rewrite last_snoc.
  change (String.eqb (block_type DividerBlock) "divider") with true.
  cbv iota. apply removelast_last.
Qed.

Lemma separated_last (sections : list Block) :
  last (separated sections) = last sections.
Proof.
  induction sections as [|sec [|sec' rest] IH]; [reflexivity..|].
  change (separated (sec :: sec' :: rest))
    with (sec :: DividerBlock :: separated (sec' :: rest)).
  rewrite !last_cons_cons, last_cons, IH.
  destruct (last (sec' :: rest)) eqn:Hlast; [reflexivity|].
  now apply last_None in Hlast.
Qed.

(** Where the blocks of [separated] sit: section [i] at [2 i], a divider at
    [2 i + 1] when a section follows. *)
Lemma separated_lookup_section (sections : list Block) (i : nat) :
  separated sections !! (2 * i)%nat = sections !! i.
Proof.
  revert i. induction sections as [|sec [|sec' rest] IH]; intros i.
  - reflexivity.
  - destruct i as [|i]; [reflexivity|].
    replace (2 * S i)%nat with (S (S (2 * i))) by lia. reflexivity.
  - change (separated (sec :: sec' :: rest))
      with (sec :: DividerBlock :: separated (sec' :: rest)).
    destruct i as [|i]; [reflexivity|].
    replace (2 * S i)%nat with (S (S (2 * i))) by lia.
    simpl lookup. apply IH.
Qed.

Lemma separated_lookup_divider (sections : list Block) (i : nat) :
  (S i < length sections)%nat ->
  separated sections !! (2 * i + 1)%nat = Some DividerBlock.
Proof.
  revert i. induction sections as [|sec [|sec' rest] IH]; intros i Hi.
  - simpl in Hi. lia.
  - simpl in Hi. lia.
  - change (separated (sec :: sec' :: rest))
      with (sec :: DividerBlock :: separated (sec' :: rest)).
    destruct i as [|i]; [reflexivity|].
    replace (2 * S i + 1)%nat with (S (S (2 * i + 1))) by lia.
    simpl lookup. apply IH. simpl in *. lia.
Qed.

Section MessageBuilderFacts.
Context `{Host}.

Lemma pushEventBlocks_eq (visibleEvents : list SolidarityEvent)
    (eventBlocks : list Block) :
  pushEventBlocks visibleEvents eventBlocks
  = sections ← mapM eventSection visibleEvents;
    Ok (eventBlocks ++ flat_map (fun sec => [sec; DividerBlock]) sections).
Proof.
  revert eventBlocks.
  induction visibleEvents as [|event rest IH]; intros eventBlocks.
  - simpl. now rewrite app_nil_r.
  - cbn [pushEventBlocks mapM].
    destruct (eventSection event) as [sec|err]; [|reflexivity].
    change (Ok sec ≫= ?k) with (k sec). cbv beta.
    rewrite IH. destruct (mapM eventSection rest) as [secs|err];
      [|reflexivity].
    simpl. now rewrite <- app_assoc.
Qed.

Lemma visible_is_take (events : list SolidarityEvent) :
  (if (0 <? (if (MAX_GROUPS <? length events)%nat
             then (length events - MAX_GROUPS)%nat else 0%nat))%nat
   then take MAX_GROUPS events else events)
  = take 23 events.
Proof.
  unfold MAX_GROUPS.
  destruct (Nat.ltb_spec 23 (length events)) as [Hlt|Hge].
  - destruct (Nat.ltb_spec 0 (length events - 23)); [reflexivity|lia].
  - simpl. symmetry. now apply take_ge.
Qed.

Lemma overflow_is_part (events : list SolidarityEvent) (blocks : list Block) :
  (let overflow := if (MAX_GROUPS <? length events)%nat
                   then (length events - MAX_GROUPS)%nat else 0%nat in
   if (0 <? overflow)%nat then blocks ++ [overflowNotice overflow]
   else blocks)
  = blocks ++ overflow_part (length events).
Proof.
  unfold MAX_GROUPS, overflow_part. cbv zeta.
  destruct (Nat.ltb_spec 23 (length events)) as [Hlt|Hge].
  - destruct (Nat.ltb_spec 0 (length events - 23)); [reflexivity|lia].
  - simpl. now rewrite app_nil_r.
Qed.

(** The builder on a non-empty list, as one expression. *)
Lemma buildBlocks_nonempty (now : Z) (chapterName chapterUrl : string)
    (events : list SolidarityEvent) (daysAhead : number) :
  events <> [] ->
  buildBlocks now chapterName chapterUrl events daysAhead
  = dateRange ← formatHeaderDateRange now daysAhead;
    sections ← mapM eventSection (take 23 events);
    Ok (headerBlock chapterName
        :: subtitleBlock chapterUrl daysAhead dateRange
        :: separated sections ++ overflow_part (length events)).
Proof.
  intros Hne. unfold buildBlocks.
  destruct (formatHeaderDateRange now daysAhead) as [dateRange|err];
    [|reflexivity].
  change (Ok dateRange ≫= ?k) with (k dateRange). cbv beta.
  destruct events as [|e events]; [congruence|].
  change (length (e :: events) =? 0)%nat with false. cbv iota.
  cbv zeta. rewrite visible_is_take, pushEventBlocks_eq.
  destruct (mapM eventSection (take 23 (e :: events))) as [secs|err];
    [|reflexivity].
  change (Ok secs ≫= ?k) with (k secs). cbv beta.
  change (Ok (?a) ≫= ?k) with (k a). cbv beta.
  rewrite app_nil_l, popTrailingDivider_pairs.
  pose proof (overflow_is_part (e :: events) (separated secs)) as Hov.
  cbv zeta in Hov. now rewrite Hov.
Qed.

Lemma buildBlocks_empty_eq (now : Z) (chapterName chapterUrl : string)
    (daysAhead : number) :
  buildBlocks now chapterName chapterUrl [] daysAhead
  = dateRange ← formatHeaderDateRange now daysAhead;
    Ok [headerBlock chapterName;
        subtitleBlock chapterUrl daysAhead dateRange;
        noEventsBlock daysAhead].
Proof. reflexivity. Qed.

Lemma forallb_Forall_true {A : Type} (p : A -> bool) (l : list A) :
  forallb p l = true -> Forall (fun x => p x = true) l.
Proof. intros Hp. apply List.Forall_forall. now apply forallb_forall. Qed.

Lemma sessions_datedb_true (e : SolidarityEvent) :
  sessions_datedb e = true -> sessions_dated e.
Proof.
  unfold sessions_datedb, sessions_dated. intros Hb.
  apply List.Forall_forall. intros s Hs.
  rewrite forallb_forall in Hb. specialize (Hb s Hs).
  apply andb_true_iff in Hb. unfold session_dated.
  destruct (Date_parse (start_time s)), (Date_parse (end_time s));
    simpl in *; intuition congruence.
Qed.

Lemma formatHeaderDateRange_Ok (now : Z) (daysAhead : number) :
  window_end_valid now daysAhead ->
  exists dateRange, formatHeaderDateRange now daysAhead = Ok dateRange.
Proof.
  unfold window_end_valid, formatHeaderDateRange. cbv zeta.
  destruct (new_Date (num_add (Num now) (days_ms daysAhead))) as [|t];
    simpl; [tauto|]. intros _. eauto.
Qed.

Lemma formatDateRange_Ok (startDate endDate : Date) :
  is_finite startDate -> is_finite endDate ->
  exists timeStr, formatDateRange startDate endDate = Ok timeStr.
Proof.
  destruct startDate as [|a], endDate as [|b]; simpl; try tauto.
  intros _ _. unfold formatDateRange. simpl. eauto.
Qed.

Lemma sessionLine_Ok (typeLabel : string) (isVirtual : bool)
    (session : EventSession) :
  session_dated session ->
  exists line, sessionLine typeLabel isVirtual session = Ok line.
Proof.
  intros [Hs He]. unfold sessionLine. cbv zeta.
  destruct (formatDateRange_Ok _ _ Hs He) as (timeStr & ->).
  simpl. eauto.
Qed.

Lemma eventSection_Ok (event : SolidarityEvent) :
  sessions_dated event ->
  exists text, eventSection event = Ok (SectionBlock (Mrkdwn text)).
Proof.
  intros Hd. unfold eventSection. cbv zeta.
  edestruct (mapM_Ok_exists
               (sessionLine (eventTypeLabel (toLowerCase (event_type event)))
                  (String.eqb (toLowerCase (event_type event)) "virtual"
                   || String.eqb (toLowerCase (event_type event)) "online")))
    as (lines & Hlines).
  { eapply List.Forall_impl; [|exact Hd]. intros s. apply sessionLine_Ok. }
  rewrite Hlines. simpl. eauto.
Qed.

Lemma eventSection_is_section (event : SolidarityEvent) (sec : Block) :
  eventSection event = Ok sec -> block_type sec = "section".
Proof.
  unfold eventSection. cbv zeta. intros Hsec.
  apply bind_Ok_inv in Hsec. destruct Hsec as (lines & _ & Hsec).
  now inversion Hsec.
Qed.

Lemma renders_exists (events : list SolidarityEvent) :
  Forall sessions_dated events -> exists sections, renders events sections.
Proof.
  intros Hd. destruct (mapM_Ok_exists eventSection events) as (secs & Hs).
  - eapply List.Forall_impl; [|exact Hd]. intros e He.
    destruct (eventSection_Ok e He) as (text & Ht). eauto.
  - exists secs. now apply mapM_Ok_Forall2.
Qed.

Lemma renders_length (events : list SolidarityEvent) (sections : list Block) :
  renders events sections -> length sections = length events.
Proof. intros Hr. symmetry. eapply Forall2_length, Hr. Qed.

Lemma renders_sections (events : list SolidarityEvent)
    (sections : list Block) :
  renders events sections ->
  Forall (fun b => block_type b = "section") sections.
Proof.
  induction 1 as [|e sec es secs He _ IH]; constructor; [|exact IH].
  eapply eventSection_is_section, He.
Qed.

(** What a returned document is. *)
Lemma buildBlocks_Ok_iff (now : Z) (chapterName chapterUrl : string)
    (events : list SolidarityEvent) (daysAhead : number)
    (blocks : list Block) :
  buildBlocks now chapterName chapterUrl events daysAhead = Ok blocks
  <-> exists dateRange,
        formatHeaderDateRange now daysAhead = Ok dateRange
        /\ ((events = []
             /\ blocks = [headerBlock chapterName;
                          subtitleBlock chapterUrl daysAhead dateRange;
                          noEventsBlock daysAhead])
            \/ (events <> []
                /\ exists sections,
                     renders (take 23 events) sections
                     /\ blocks
                        = headerBlock chapterName
                          :: subtitleBlock chapterUrl daysAhead dateRange
                          :: separated sections
                             ++ overflow_part (length events))).
Proof.
  destruct events as [|e events].
  - rewrite buildBlocks_empty_eq, bind_Ok_inv. split.
    + intros (dr & Hdr & Hb). exists dr. split; [exact Hdr|].
      left. split; [reflexivity|]. now inversion Hb.
    + intros (dr & Hdr & [[_ ->]|[Hne _]]); [|congruence].
      exists dr. now split.
  - rewrite buildBlocks_nonempty by discriminate.
    rewrite bind_Ok_inv. split.
    + intros (dr & Hdr & Hb). exists dr. split; [exact Hdr|].
      right. split; [discriminate|].
      apply bind_Ok_inv in Hb. destruct Hb as (secs & Hsecs & Hb).
      exists secs. split; [now apply mapM_Ok_Forall2|]. now inversion Hb.
    + intros (dr & Hdr & [[Hnil _]|[_ (secs & Hsecs & ->)]]);
        [discriminate|].
      exists dr. split; [exact Hdr|]. apply bind_Ok_inv.
      exists secs. split; [now apply mapM_Ok_Forall2|reflexivity].
Qed.
End MessageBuilderFacts.

Section MessageBuilderTheorems.
Context `{Host}.

Lemma overflow_part_small (n : nat) : (n <= 23)%nat -> overflow_part n = [].
Proof.
  intros Hn. unfold overflow_part.
  destruct (Nat.ltb_spec 23 n); [lia|reflexivity].
Qed.

Lemma overflow_part_large (n : nat) :
  (23 < n)%nat -> overflow_part n = [overflowNotice (n - 23)].
Proof.
  intros Hn. unfold overflow_part.
  destruct (Nat.ltb_spec 23 n); [reflexivity|lia].
Qed.

Lemma overflow_part_length (n : nat) : (length (overflow_part n) <= 1)%nat.
Proof. unfold overflow_part. destruct (23 <? n)%nat; simpl; lia. Qed.

Lemma overflowNotice_singular :
  overflowNotice 1
  = ContextBlock [Mrkdwn "_+1 more event later this week not shown._"].
Proof. reflexivity. Qed.

Lemma overflowNotice_plural (k : nat) :
  k <> 1%nat ->
  overflowNotice k
  = ContextBlock
      [Mrkdwn ("_+" +:+ pretty k +:+ " more events later this week not shown._")].
Proof.
  intros Hk. unfold overflowNotice.
  destruct (Nat.eqb_spec k 1); [contradiction|reflexivity].
Qed.

Lemma separated_In (sections : list Block) (b : Block) :
  In b (separated sections) -> b = DividerBlock \/ In b sections.
Proof.
  induction sections as [|sec [|sec' rest] IH]; [simpl; tauto..|].
  change (separated (sec :: sec' :: rest))
    with (sec :: DividerBlock :: separated (sec' :: rest)).
  intros [<-|[<-|Hb]]; [right; now left|now left|].
  destruct (IH Hb) as [->|Hin]; [now left|right; now right].
Qed.

Lemma notice_is_context (b : Block) :
  is_overflow_notice b -> block_type b = "context".
Proof. intros (k & ->). reflexivity. Qed.

Lemma subtitle_not_notice (chapterUrl : string) (daysAhead : number)
    (dateRange : string) :
  ~ is_overflow_notice (subtitleBlock chapterUrl daysAhead dateRange).
Proof.
  intros (k & Hk). unfold subtitleBlock, overflowNotice in Hk.
  discriminate Hk.
Qed.

(** A document without overflow part holds no overflow notice. *)
Lemma no_notice_in_plain_document (chapterName chapterUrl : string)
    (daysAhead : number) (dateRange : string) (sections : list Block) :
  Forall (fun b => block_type b = "section") sections ->
  Forall (fun b => ~ is_overflow_notice b)
         (headerBlock chapterName
          :: subtitleBlock chapterUrl daysAhead dateRange
          :: separated sections).
Proof.
  intros Hsec. constructor.
  { intros Hn. apply notice_is_context in Hn. discriminate. }
  constructor; [apply subtitle_not_notice|].
  apply List.Forall_forall. intros b Hb Hn.
  apply notice_is_context in Hn.
  destruct (separated_In _ _ Hb) as [->|Hin]; [discriminate|].
  rewrite List.Forall_forall in Hsec. rewrite (Hsec b Hin) in Hn.
  discriminate.
Qed.

Lemma document_length (b1 b2 : Block) (sections : list Block) (n : nat) :
  (length sections <= 23)%nat ->
  (length (b1 :: b2 :: separated sections ++ overflow_part n) <= 50)%nat.
Proof.
  intros Hs. simpl. rewrite length_app, separated_length.
  pose proof (overflow_part_length n). lia.
Qed.

(** C3.  [buildBlocks] never returns more than 50 blocks.  When the end of
    the window is a valid date and the sessions of the first 23 events
    carry dates that parse, the call returns a document: for at most 23
    events it holds the section of every event and no overflow notice; for
    [n > 23] events it holds the sections of exactly the first 23, followed
    by one overflow notice for [n - 23] events.  The notice reads
    "+1 more event ..." for one event and "+k more events ..." otherwise. *)
Theorem buildBlocks_budget (now : Z) (chapterName chapterUrl : string)
    (events : list SolidarityEvent) (daysAhead : number) :
  (forall blocks,
      buildBlocks now chapterName chapterUrl events daysAhead = Ok blocks ->
      (length blocks <= 50)%nat)
  /\ (window_end_valid now daysAhead ->
      Forall sessions_dated (take 23 events) ->
      exists dateRange sections blocks,
        buildBlocks now chapterName chapterUrl events daysAhead = Ok blocks
        /\ renders (take 23 events) sections
        /\ (events <> [] ->
            blocks = headerBlock chapterName
                     :: subtitleBlock chapterUrl daysAhead dateRange
                     :: separated sections ++ overflow_part (length events))
        /\ ((length events <= 23)%nat ->
            renders events sections
            /\ overflow_part (length events) = []
            /\ Forall (fun b => ~ is_overflow_notice b) blocks)
        /\ ((23 < length events)%nat ->
            length sections = 23%nat
            /\ blocks = headerBlock chapterName
                        :: subtitleBlock chapterUrl daysAhead dateRange
                        :: separated sections
                           ++ [overflowNotice (length events - 23)]))
  /\ overflowNotice 1
     = ContextBlock [Mrkdwn "_+1 more event later this week not shown._"]
  /\ (forall k, k <> 1%nat ->
        overflowNotice k
        = ContextBlock
            [Mrkdwn ("_+" +:+ pretty k
                     +:+ " more events later this week not shown._")]).
Proof.
  split; [|split; [|split; [exact overflowNotice_singular
                           |exact overflowNotice_plural]]].
  - intros blocks Hb. apply buildBlocks_Ok_iff in Hb.
    destruct Hb as (dr & _ & [[_ ->]|[_ (secs & Hsecs & ->)]]);
      [simpl; lia|].
    apply document_length. rewrite (renders_length _ _ Hsecs), length_take.
    lia.
  - intros Hvalid Hdated.
    destruct (formatHeaderDateRange_Ok _ _ Hvalid) as (dr & Hdr).
    destruct (renders_exists _ Hdated) as (secs & Hsecs).
    pose proof (renders_length _ _ Hsecs) as Hlen.
    rewrite length_take in Hlen.
    destruct events as [|e events].
    + exists dr, secs,
        [headerBlock chapterName; subtitleBlock chapterUrl daysAhead dr;
         noEventsBlock daysAhead].
      split; [rewrite buildBlocks_empty_eq, Hdr; reflexivity|].
      split; [exact Hsecs|]. split; [congruence|]. split.
      * intros _. split; [exact Hsecs|]. split; [reflexivity|].
        repeat constructor.
        -- intros Hn. apply notice_is_context in Hn. discriminate.
        -- apply subtitle_not_notice.
        -- intros Hn. apply notice_is_context in Hn. discriminate.
      * simpl. lia.
    + exists dr, secs,
        (headerBlock chapterName :: subtitleBlock chapterUrl daysAhead dr
         :: separated secs ++ overflow_part (length (e :: events))).
      split.
      { apply buildBlocks_Ok_iff. exists dr. split; [exact Hdr|].
        right. split; [discriminate|]. now exists secs. }
      split; [exact Hsecs|]. split; [reflexivity|]. split.
      * intros Hsmall. rewrite take_ge in Hsecs by exact Hsmall.
        rewrite overflow_part_small by exact Hsmall.
        split; [exact Hsecs|]. split; [reflexivity|].
        rewrite app_nil_r. apply no_notice_in_plain_document.
        eapply renders_sections, Hsecs.
      * intros Hlarge. rewrite overflow_part_large by exact Hlarge.
        split; [lia|reflexivity].
Qed.

(** C7.  For an empty list of filtered events and a window whose end is a
    valid date, [buildBlocks] returns exactly three blocks: the header, the
    subtitle (a context block) and one section with the text
    "No upcoming events in the next N days."; the fallback text of the
    chapter contains "No upcoming events".  No call on the empty list
    returns any other number of blocks. *)
Theorem buildBlocks_no_events (now : Z) (chapterName chapterUrl : string)
    (daysAhead : number) :
  window_end_valid now daysAhead ->
  (exists dateRange,
      buildBlocks now chapterName chapterUrl [] daysAhead
      = Ok [HeaderBlock
              (PlainText (ICON_CALENDAR +:+ " Upcoming Events — "
                          +:+ chapterName) true);
            subtitleBlock chapterUrl daysAhead dateRange;
            SectionBlock
              (Mrkdwn ("No upcoming events in the next "
                       +:+ num_to_string daysAhead +:+ " days."))])
  /\ (forall blocks,
        buildBlocks now chapterName chapterUrl [] daysAhead = Ok blocks ->
        length blocks = 3%nat
        /\ List.map block_type blocks = ["header"; "context"; "section"])
  /\ exists before after,
       fallbackText chapterName [] daysAhead
       = before +:+ "No upcoming events" +:+ after.
Proof.
  intros Hvalid. split; [|split].
  - destruct (formatHeaderDateRange_Ok _ _ Hvalid) as (dr & Hdr).
    exists dr. now rewrite buildBlocks_empty_eq, Hdr.
  - intros blocks Hb. rewrite buildBlocks_empty_eq in Hb.
    apply bind_Ok_inv in Hb. destruct Hb as (dr & _ & Hb).
    inversion Hb; subst. now split.
  - exists (ICON_CALENDAR +:+ " Upcoming Events — " +:+ chapterName +:+ ": "),
      (" in the next " +:+ num_to_string daysAhead +:+ " days.").
    unfold fallbackText. change (0 <? length [])%nat with false. cbv iota.
    now rewrite !append_assoc.
Qed.

Lemma lookup_after_two {A : Type} (a b : A) (l : list A) (i : nat) :
  (a :: b :: l) !! S (S i) = l !! i.
Proof. reflexivity. Qed.

Lemma renders_last (events : list SolidarityEvent) (sections : list Block)
    (e : SolidarityEvent) :
  renders events sections -> last events = Some e ->
  exists sec, last sections = Some sec /\ eventSection e = Ok sec.
Proof.
  intros Hr Hlast. rewrite last_lookup in Hlast.
  destruct (Forall2_lookup_l _ _ _ _ _ Hr Hlast) as (sec & Hsec & He).
  exists sec. split; [|exact He].
  rewrite last_lookup. now rewrite (renders_length _ _ Hr).
Qed.

(** C8.  For a non-empty list of filtered events (with a valid window end
    and sessions whose dates parse), the document holds the section of the
    [i]-th visible event at position [2 + 2 i], and a divider right after
    it exactly when another visible section follows.  Without overflow the
    last block is the section of the last event; with overflow the last
    block is the overflow notice, which directly follows the section of the
    last visible event.  The last block is never a divider. *)
Theorem buildBlocks_no_trailing_divider (now : Z)
    (chapterName chapterUrl : string) (events : list SolidarityEvent)
    (daysAhead : number) :
  events <> [] ->
  window_end_valid now daysAhead ->
  Forall sessions_dated (take 23 events) ->
  exists sections blocks,
    buildBlocks now chapterName chapterUrl events daysAhead = Ok blocks
    /\ renders (take 23 events) sections
    /\ (forall i sec, sections !! i = Some sec ->
          blocks !! (2 + 2 * i)%nat = Some sec)
    /\ (forall i, (S i < length sections)%nat ->
          blocks !! (2 + 2 * i + 1)%nat = Some DividerBlock)
    /\ ((length events <= 23)%nat ->
          blocks !! (2 + 2 * (length sections - 1) + 1)%nat = None
          /\ exists e sec, last events = Some e
                           /\ eventSection e = Ok sec
                           /\ last blocks = Some sec)
    /\ ((23 < length events)%nat ->
          blocks !! (2 + 2 * (length sections - 1) + 1)%nat
            = Some (overflowNotice (length events - 23))
          /\ last blocks = Some (overflowNotice (length events - 23)))
    /\ last blocks <> Some DividerBlock.
Proof.
  intros Hne Hvalid Hdated.
  destruct (formatHeaderDateRange_Ok _ _ Hvalid) as (dr & Hdr).
  destruct (renders_exists _ Hdated) as (secs & Hsecs).
  pose proof (renders_length _ _ Hsecs) as Hlen.
  rewrite length_take in Hlen.
  assert (Hpos : (0 < length events)%nat).
  { destruct events; [congruence|simpl; lia]. }
  assert (Hsecpos : (0 < length secs)%nat) by lia.
  pose proof (separated_length secs) as Hseplen.
  exists secs,
    (headerBlock chapterName :: subtitleBlock chapterUrl daysAhead dr
     :: separated secs ++ overflow_part (length events)).
  split.
  { apply buildBlocks_Ok_iff. exists dr. split; [exact Hdr|].
    right. split; [exact Hne|]. now exists secs. }
  split; [exact Hsecs|].
  assert (Hlast_secs : exists sec, last secs = Some sec
                                   /\ block_type sec = "section").
  { destruct (last secs) as [sec|] eqn:Hl.
    - exists sec. split; [reflexivity|].
      pose proof (renders_sections _ _ Hsecs) as Hall.
      rewrite List.Forall_forall in Hall. apply Hall.
      apply list_elem_of_In. eapply last_Some_elem_of, Hl.
    - apply last_None in Hl. subst secs. simpl in Hsecpos. lia. }
  destruct Hlast_secs as (lsec & Hlsec & Hltype).
  split; [|split; [|split; [|split]]].
  - intros i sec Hi.
    replace (2 + 2 * i)%nat with (S (S (2 * i))) by lia.
    rewrite lookup_after_two, lookup_app_l.
    + now rewrite separated_lookup_section.
    + apply lookup_lt_Some in Hi. lia.
  - intros i Hi.
    replace (2 + 2 * i + 1)%nat with (S (S (2 * i + 1))) by lia.
    rewrite lookup_after_two, lookup_app_l by lia.
    now apply separated_lookup_divider.
  - intros Hsmall. rewrite overflow_part_small by exact Hsmall.
    rewrite app_nil_r. split.
    + apply lookup_ge_None. simpl. lia.
    + rewrite take_ge in Hsecs by exact Hsmall.
      destruct (last events) as [e|] eqn:He;
        [|apply last_None in He; congruence].
      destruct (renders_last _ _ _ Hsecs He) as (sec & Hsec & Hrender).
      exists e, sec. split; [reflexivity|]. split; [exact Hrender|].
      rewrite !last_cons, separated_last, Hsec. reflexivity.
  - intros Hlarge. rewrite overflow_part_large by exact Hlarge. split.
    + replace (2 + 2 * (length secs - 1) + 1)%nat
        with (S (S (length (separated secs)))) by lia.
      rewrite lookup_after_two, lookup_app_r by lia.
      now rewrite Nat.sub_diag.
    + rewrite !last_cons, last_snoc. reflexivity.
  - rewrite !last_cons, last_app, separated_last, Hlsec.
    unfold overflow_part. destruct (23 <? length events)%nat; simpl.
    + discriminate.
    + intros Heq. inversion Heq; subst. discriminate.
Qed.

Lemma eventTypeLabel_segment (e : SolidarityEvent) :
  (if nonempty (eventTypeLabel (toLowerCase (event_type e)))
   then "   " +:+ eventTypeLabel (toLowerCase (event_type e)) else "")
  = label_segment e.
Proof.
  unfold label_segment, eventTypeLabel. cbv zeta.
  destruct (String.eqb (toLowerCase (event_type e)) "in_person");
    [reflexivity|].
  destruct (String.eqb (toLowerCase (event_type e)) "in-person");
    [reflexivity|].
  destruct (String.eqb (toLowerCase (event_type e)) "virtual");
    [reflexivity|].
  destruct (String.eqb (toLowerCase (event_type e)) "online");
    [reflexivity|].
  destruct (String.eqb (toLowerCase (event_type e)) "hybrid"); reflexivity.
Qed.

Lemma session_location_segment (e : SolidarityEvent) (s : EventSession) :
  match session_location s with
  | Some loc =>
      if negb (String.eqb (toLowerCase (event_type e)) "virtual"
               || String.eqb (toLowerCase (event_type e)) "online")
      then "   " +:+ ICON_PIN +:+ " _" +:+ loc +:+ "_" else ""
  | None => ""
  end
  = location_segment e s.
Proof.
  unfold location_segment, session_location, location_text. cbv zeta.
  destruct (String.eqb (toLowerCase (event_type e)) "virtual"
            || String.eqb (toLowerCase (event_type e)) "online").
  - cbn [negb].
    destruct (nonempty (location_address s)); [reflexivity|].
    destruct (truthy (location_name s)); [|reflexivity].
    now destruct (location_name s).
  - cbn [negb].
    destruct (nonempty (location_address s)); [reflexivity|].
    destruct (location_name s) as [[|c venue]|]; reflexivity.
Qed.

(** The line of a session: the date range, then the two segments. *)
Lemma event_sessionLine_eq (e : SolidarityEvent) (s : EventSession) :
  event_sessionLine e s
  = timeStr ← formatDateRange (Date_parse (start_time s))
                              (Date_parse (end_time s));
    Ok (ICON_CALENDAR +:+ " *" +:+ timeStr +:+ "*"
        +:+ location_segment e s +:+ label_segment e).
Proof.
  unfold event_sessionLine, sessionLine. cbv zeta.
  destruct (formatDateRange (Date_parse (start_time s))
                            (Date_parse (end_time s))) as [timeStr|err];
    [|reflexivity].
  change (Ok timeStr ≫= ?k) with (k timeStr). cbv beta. f_equal.
  rewrite <- eventTypeLabel_segment, <- session_location_segment.
  destruct (session_location s) as [loc|];
    destruct (negb (String.eqb (toLowerCase (event_type e)) "virtual"
                    || String.eqb (toLowerCase (event_type e)) "online"));
    destruct (nonempty (eventTypeLabel (toLowerCase (event_type e))));
    rewrite ?append_assoc, ?append_nil_r; reflexivity.
Qed.

Lemma location_segment_nonempty_iff (e : SolidarityEvent) (s : EventSession) :
  location_segment e s <> "" <-> ~ is_virtual e /\ location_present s.
Proof.
  unfold location_segment, is_virtual, location_present, location_text.
  cbv zeta.
  destruct (String.eqb_spec (toLowerCase (event_type e)) "virtual") as [Hv|Hv];
    [cbn [orb]; intuition congruence|].
  destruct (String.eqb_spec (toLowerCase (event_type e)) "online") as [Ho|Ho];
    [cbn [orb]; intuition congruence|].
  cbn [orb].
  destruct (location_address s) as [|c addr]; cbn [nonempty].
  - destruct (location_name s) as [[|c venue]|]; cbn [nonempty]; split.
    + congruence.
    + intros [_ [Ha|(v & Hv' & Hne)]]; [congruence|].
      inversion Hv'; subst. congruence.
    + intros _. split; [tauto|]. right. eexists. split; [reflexivity|].
      discriminate.
    + intros _. discriminate.
    + congruence.
    + intros [_ [Ha|(v & Hv' & _)]]; congruence.
  - split.
    + intros _. split; [tauto|]. left. discriminate.
    + intros _. discriminate.
Qed.

Lemma label_segment_nonempty_iff (e : SolidarityEvent) :
  label_segment e <> "" <-> known_type (toLowerCase (event_type e)).
Proof.
  unfold label_segment, known_type. cbv zeta.
  destruct (String.eqb_spec (toLowerCase (event_type e)) "in_person");
    [cbn [orb]; split; [tauto|discriminate]|].
  destruct (String.eqb_spec (toLowerCase (event_type e)) "in-person");
    [cbn [orb]; split; [tauto|discriminate]|].
  destruct (String.eqb_spec (toLowerCase (event_type e)) "virtual");
    [cbn [orb]; split; [tauto|discriminate]|].
  destruct (String.eqb_spec (toLowerCase (event_type e)) "online");
    [cbn [orb]; split; [tauto|discriminate]|].
  destruct (String.eqb_spec (toLowerCase (event_type e)) "hybrid");
    [cbn [orb]; split; [tauto|discriminate]|].
  cbn [orb]. intuition congruence.
Qed.

(** C9.  The section of an event whose session dates parse is its title
    link followed by one line per session.  Each line is the calendar icon
    and the date range, then the location segment, then the label segment.
    The location segment is present exactly when the event is not
    virtual/online (case-normalized type) and the session has a location;
    it shows the street address when there is one and the venue name
    otherwise.  The label segment is present exactly when the
    case-normalized type is one of the known tags, and is then the label of
    that tag; any other type gives no label. *)
Theorem session_line_segments (e : SolidarityEvent) :
  sessions_dated e ->
  (exists lines,
      eventSection e
      = Ok (SectionBlock
              (Mrkdwn (title_link e +:+ NEWLINE +:+ join NEWLINE lines)))
      /\ Forall2
           (fun s line =>
              exists timeStr,
                formatDateRange (Date_parse (start_time s))
                                (Date_parse (end_time s)) = Ok timeStr
                /\ line = ICON_CALENDAR +:+ " *" +:+ timeStr +:+ "*"
                          +:+ location_segment e s +:+ label_segment e)
           (event_sessions e) lines)
  /\ (forall s,
        (location_segment e s <> "" <-> ~ is_virtual e /\ location_present s)
        /\ (~ is_virtual e -> location_address s <> "" ->
            location_segment e s
            = "   " +:+ ICON_PIN +:+ " _" +:+ location_address s +:+ "_")
        /\ (forall venue,
              ~ is_virtual e -> location_address s = "" ->
              location_name s = Some venue -> venue <> "" ->
              location_segment e s
              = "   " +:+ ICON_PIN +:+ " _" +:+ venue +:+ "_"))
  /\ (label_segment e <> "" <-> known_type (toLowerCase (event_type e)))
  /\ (label_segment e
      = if nonempty (eventTypeLabel (toLowerCase (event_type e)))
        then "   " +:+ eventTypeLabel (toLowerCase (event_type e)) else "")
  /\ eventTypeLabel "in_person" = LABEL_IN_PERSON
  /\ eventTypeLabel "in-person" = LABEL_IN_PERSON
  /\ eventTypeLabel "virtual" = LABEL_VIRTUAL
  /\ eventTypeLabel "online" = LABEL_VIRTUAL
  /\ eventTypeLabel "hybrid" = LABEL_HYBRID
  /\ (forall t, ~ known_type t -> eventTypeLabel t = "").
Proof.
  intros Hdated.
  split; [|split; [|split; [|split; [|repeat split]]]].
  - destruct (mapM_Ok_exists (event_sessionLine e) (event_sessions e))
      as (lines & Hlines).
    { eapply List.Forall_impl; [|exact Hdated]. intros s Hs.
      now apply sessionLine_Ok. }
    exists lines. split.
    + unfold eventSection. cbv zeta.
      change (mapM (sessionLine _ _) (event_sessions e))
        with (mapM (event_sessionLine e) (event_sessions e)).
      now rewrite Hlines.
    + apply mapM_Ok_Forall2 in Hlines.
      eapply Forall2_impl; [exact Hlines|].
      intros s line Hline. cbv beta in Hline.
      rewrite event_sessionLine_eq in Hline.
      apply bind_Ok_inv in Hline. destruct Hline as (timeStr & Ht & Hl).
      exists timeStr. split; [exact Ht|]. now inversion Hl.
  - intros s. split; [apply location_segment_nonempty_iff|]. split.
    + intros Hnv Haddr. unfold location_segment, is_virtual in *.
      cbv zeta.
      destruct (String.eqb_spec (toLowerCase (event_type e)) "virtual");
        [tauto|].
      destruct (String.eqb_spec (toLowerCase (event_type e)) "online");
        [tauto|].
      cbn [orb]. destruct (location_address s); [congruence|reflexivity].
    + intros venue Hnv Haddr Hname Hvenue.
      unfold location_segment, is_virtual in *. cbv zeta.
      destruct (String.eqb_spec (toLowerCase (event_type e)) "virtual");
        [tauto|].
      destruct (String.eqb_spec (toLowerCase (event_type e)) "online");
        [tauto|].
      cbn [orb]. rewrite Haddr, Hname. cbn [nonempty].
      destruct venue; [congruence|reflexivity].
  - apply label_segment_nonempty_iff.
  - symmetry. apply eventTypeLabel_segment.
  - intros t Ht. unfold known_type in Ht. unfold eventTypeLabel.
    destruct (String.eqb_spec t "in_person"); [tauto|].
    destruct (String.eqb_spec t "in-person"); [tauto|].
    destruct (String.eqb_spec t "virtual"); [tauto|].
    destruct (String.eqb_spec t "online"); [tauto|].
    destruct (String.eqb_spec t "hybrid"); [tauto|reflexivity].
Qed.

(** C4, as the code has it.  The document depends on the four arguments
    and on the reading of the clock, and on the clock only through the
    date range of the subtitle: two calls with the same four arguments
    whose clock readings give the same header date range (two calls at the
    same instant, for one) return the same document, or fail alike. *)
Theorem buildBlocks_determined_with_clock (now1 now2 : Z)
    (chapterName chapterUrl : string) (events : list SolidarityEvent)
    (daysAhead : number) :
  formatHeaderDateRange now1 daysAhead = formatHeaderDateRange now2 daysAhead ->
  buildBlocks now1 chapterName chapterUrl events daysAhead
  = buildBlocks now2 chapterName chapterUrl events daysAhead.
Proof.
  intros Hrange. destruct events as [|e events].
  - now rewrite !buildBlocks_empty_eq, Hrange.
  - now rewrite !buildBlocks_nonempty, Hrange by discriminate.
Qed.
End MessageBuilderTheorems.

(** ** The driver *)

Section DriverFacts.
Context `{Host} `{Outside}.

Lemma fetch_loop_console (fuel : nat) (chapterId : Z)
    (allEvents : list SolidarityEvent) (page : Z) (w w' : World)
    (r : result (list SolidarityEvent)) :
  fetch_loop fuel chapterId allEvents page w = Some (r, w') ->
  console w' = console w.
Proof.
  revert allEvents page w.
  induction fuel as [|fuel IH]; intros allEvents page w Hrun;
    [discriminate|].
  cbn [fetch_loop] in Hrun. rewrite do_fetch_eq in Hrun.
  destruct (fetch (length (requests w)) (events_url chapterId page))
    as [response|err]; [|now inversion Hrun].
  destruct (negb (ok response));
    [destruct (text response); now inversion Hrun|].
  destruct (json response) as [body|err]; [|now inversion Hrun].
  destruct (Z.of_nat (length (default [] (data body))) <? LIMIT);
    [now inversion Hrun|].
  now apply IH in Hrun.
Qed.

(** A chapter writes its attempt line first and only adds to the console. *)
Lemma postChapter_console (fuel : nat) (m : ChapterMapping)
    (daysAhead : number) (w w' : World) (r : result unit) :
  postChapter fuel m daysAhead w = Some (r, w') ->
  exists lines, console w' = console w ++ attempt_line m :: lines.
Proof.
  unfold postChapter, fetchAllEvents. cbv zeta. intros Hrun.
  destruct (fetch_loop fuel (chapterId m) [] 1 (console_log _ w))
    as [[[allEvents|err] w1]|] eqn:Hfetch; [| |discriminate];
    apply fetch_loop_console in Hfetch; simpl in Hfetch.
  - unfold read_clock in Hrun. cbn [fst snd] in Hrun.
    destruct (buildBlocks _ _ _ _ _) as [blocks|err].
    + unfold do_post in Hrun.
      destruct (chat_postMessage _ _) as [u|err]; inversion Hrun; subst;
        simpl; rewrite Hfetch, <- !app_assoc; simpl; eauto.
    + inversion Hrun; subst. simpl. rewrite Hfetch, <- !app_assoc.
      simpl. eauto.
  - inversion Hrun; subst. rewrite Hfetch. eauto.
Qed.

Lemma chapters_run_length (fuel : nat) (daysAhead : number)
    (mappings : list ChapterMapping) (w w' : World)
    (outcomes : list (result unit)) :
  chapters_run fuel daysAhead mappings w outcomes w' ->
  length outcomes = length mappings.
Proof. induction 1; simpl; congruence. Qed.

(** The console after a run: the attempt lines of the chapters, in input
    order, among what was added. *)
Lemma chapters_run_attempts (fuel : nat) (daysAhead : number)
    (mappings : list ChapterMapping) (w w' : World)
    (outcomes : list (result unit)) :
  chapters_run fuel daysAhead mappings w outcomes w' ->
  exists lines, console w' = console w ++ lines
                /\ sublist (List.map attempt_line mappings) lines.
Proof.
  induction 1 as [w|m rest w w1 w2 outcomes Hpost _ (lines & Hc & Hs)
                 |m rest w w1 w2 err outcomes Hpost _ (lines & Hc & Hs)].
  - exists []. split; [now rewrite app_nil_r|constructor].
  - apply postChapter_console in Hpost. destruct Hpost as (l1 & Hl1).
    exists (attempt_line m :: l1 ++ lines). split.
    + rewrite Hc, Hl1, <- app_assoc. reflexivity.
    + simpl. constructor. now apply sublist_inserts_l.
  - apply postChapter_console in Hpost. destruct Hpost as (l1 & Hl1).
    exists (attempt_line m :: l1 ++ failure_line m err :: lines). split.
    + rewrite Hc. simpl. rewrite Hl1, <- !app_assoc. reflexivity.
    + simpl. constructor. apply sublist_inserts_l. now constructor.
Qed.

(** Every failure is on the console, under the name of its chapter. *)
Lemma chapters_run_failures (fuel : nat) (daysAhead : number)
    (mappings : list ChapterMapping) (w w' : World)
    (outcomes : list (result unit)) :
  chapters_run fuel daysAhead mappings w outcomes w' ->
  forall i m err,
    mappings !! i = Some m -> outcomes !! i = Some (Throw err) ->
    In (failure_line m err) (console w').
Proof.
  induction 1 as [w|m rest w w1 w2 outcomes Hpost Hrun IH
                 |m rest w w1 w2 err outcomes Hpost Hrun IH];
    intros i m' err' Hm Ho.
  - discriminate.
  - destruct i as [|i]; [discriminate|]. eapply IH; eassumption.
  - destruct i as [|i].
    + inversion Hm; inversion Ho; subst.
      destruct (chapters_run_attempts _ _ _ _ _ _ Hrun) as (lines & -> & _).
      apply in_or_app. left. simpl. apply in_or_app. right. now left.
    + eapply IH; eassumption.
Qed.

Lemma chapterLoop_runs (fuel : nat) (daysAhead : number)
    (mappings : list ChapterMapping) (anyFailed : bool) (w : World) :
  Forall (chapter_returns fuel daysAhead) mappings ->
  exists outcomes w',
    chapters_run fuel daysAhead mappings w outcomes w'
    /\ chapterLoop fuel mappings daysAhead anyFailed w
       = Some (anyFailed || existsb failed outcomes, w').
Proof.
  intros Hret. revert anyFailed w.
  induction Hret as [|m rest Hm _ IH]; intros anyFailed w.
  - exists [], w. split; [constructor|]. simpl. now rewrite orb_false_r.
  - destruct (Hm w) as ([[[]|err] w1] & Hpost).
    + destruct (IH anyFailed w1) as (outcomes & w' & Hrun & Hloop).
      exists (Ok () :: outcomes), w'. split; [econstructor; eassumption|].
      cbn [chapterLoop]. rewrite Hpost. exact Hloop.
    + destruct (IH true (log_failure m err w1))
        as (outcomes & w' & Hrun & Hloop).
      exists (Throw err :: outcomes), w'.
      split; [econstructor; eassumption|].
      cbn [chapterLoop]. rewrite Hpost.
      change (console_error _ (Some err) w1) with (log_failure m err w1).
      rewrite Hloop. simpl. now rewrite orb_true_r.
Qed.

(** C6.  Under a valid configuration, and when the run of every chapter
    ends (with a result or an exception), [main] ends too.  It has run the
    chapters one after the other in input order, every one of them
    ([chapters_run], one outcome per chapter, the attempt lines in input
    order on the console); every failure is on the console under the name
    of its chapter; and the exit code is non-zero exactly when at least one
    chapter failed (it is then 1). *)
Theorem main_attempts_every_chapter (fuel : nat) (env : ProcessEnv)
    (mappings : list ChapterMapping) (w : World) :
  valid_config env mappings ->
  Forall (chapter_returns fuel (EVENTS_DAYS_AHEAD env)) mappings ->
  exists outcomes code w',
    main fuel env w = Some (code, w')
    /\ chapters_run fuel (EVENTS_DAYS_AHEAD env) mappings w outcomes w'
    /\ length outcomes = length mappings
    /\ (exists lines, console w' = console w ++ lines
                      /\ sublist (List.map attempt_line mappings) lines)
    /\ (forall i m err,
          mappings !! i = Some m -> outcomes !! i = Some (Throw err) ->
          In (failure_line m err) (console w'))
    /\ (code <> 0 <-> exists i err, outcomes !! i = Some (Throw err))
    /\ code = (if existsb failed outcomes then 1 else 0).
Proof.
  intros (Hkey & Htoken & Hraw & Hparse & Hne) Hret.
  destruct (chapterLoop_runs fuel (EVENTS_DAYS_AHEAD env) mappings false w
              Hret) as (outcomes & w' & Hrun & Hloop).
  exists outcomes, (if existsb failed outcomes then 1 else 0), w'.
  split; [|split; [exact Hrun|split; [|split; [|split; [|split]]]]].
  - unfold main.
    rewrite (proj2 (nonempty_true_iff _) Hkey).
    rewrite (proj2 (nonempty_true_iff _) Htoken).
    rewrite (proj2 (nonempty_true_iff _) Hraw).
    cbn [negb]. rewrite Hparse.
    destruct mappings as [|m rest]; [congruence|].
    now rewrite Hloop.
  - eapply chapters_run_length, Hrun.
  - eapply chapters_run_attempts, Hrun.
  - eapply chapters_run_failures, Hrun.
  - rewrite <- (existsb_failed_iff outcomes).
    destruct (existsb failed outcomes); split; congruence.
  - reflexivity.
Qed.
End DriverFacts.

(** ** The window filter in memory *)

Lemma Forall2_filter_agree {A B : Type} (R : A -> B -> Prop)
    (pA : A -> bool) (pB : B -> bool) (la : list A) (lb : list B) :
  (forall a b, R a b -> pA a = pB b) ->
  Forall2 R la lb ->
  Forall2 R (List.filter pA la) (List.filter pB lb).
Proof.
  intros Hp. induction 1 as [|a b la lb Hab _ IH]; simpl; [constructor|].
  rewrite (Hp a b Hab). destruct (pB b); [now constructor|exact IH].
Qed.

Lemma Forall2_sort_insert {A B : Type} (R : A -> B -> Prop)
    (cmpA : A -> A -> number) (cmpB : B -> B -> number)
    (a : A) (b : B) (la : list A) (lb : list B) :
  (forall a1 a2 b1 b2, R a1 b1 -> R a2 b2 -> cmpA a1 a2 = cmpB b1 b2) ->
  R a b -> Forall2 R la lb ->
  Forall2 R (sort_insert cmpA a la) (sort_insert cmpB b lb).
Proof.
  intros Hcmp Hab. induction 1 as [|a' b' la lb Hab' Hl IH]; simpl.
  - repeat constructor. exact Hab.
  - unfold SortCompare. rewrite (Hcmp a a' b b' Hab Hab').
    destruct (0 <? match cmpB b b' with Num v => v | NaN => 0 end).
    + constructor; [exact Hab'|exact IH].
    + repeat constructor; assumption.
Qed.

Lemma Forall2_Array_sort {A B : Type} (R : A -> B -> Prop)
    (cmpA : A -> A -> number) (cmpB : B -> B -> number)
    (la : list A) (lb : list B) :
  (forall a1 a2 b1 b2, R a1 b1 -> R a2 b2 -> cmpA a1 a2 = cmpB b1 b2) ->
  Forall2 R la lb ->
  Forall2 R (Array_sort cmpA la) (Array_sort cmpB lb).
Proof.
  intros Hcmp. induction 1 as [|a b la lb Hab _ IH]; simpl; [constructor|].
  now apply Forall2_sort_insert.
Qed.

Lemma fresh_is_new (h : heap) : h !! fresh (dom h) = None.
Proof. apply not_elem_of_dom, is_fresh. Qed.

Lemma unchanged_subseteq (h h' : heap) : h ⊆ h' -> unchanged h h'.
Proof. intros Hsub l c Hl. eapply lookup_weaken; eassumption. Qed.

Lemma new_in_smaller (h h' : heap) (l : loc) :
  h ⊆ h' -> h' !! l = None -> h !! l = None.
Proof.
  intros Hsub Hl. destruct (h !! l) as [c|] eqn:Hc; [|reflexivity].
  rewrite (lookup_weaken _ _ _ _ Hc Hsub) in Hl. discriminate.
Qed.

Lemma session_rep_mono (h h' : heap) (l : loc) (s : EventSession) :
  h ⊆ h' -> session_rep h l s -> session_rep h' l s.
Proof. intros Hsub Hl. eapply lookup_weaken; eassumption. Qed.

Lemma sessions_rep_mono (h h' : heap) (arr : loc) (ss : list EventSession) :
  h ⊆ h' -> sessions_rep h arr ss -> sessions_rep h' arr ss.
Proof.
  intros Hsub (ls & Harr & Hls). exists ls. split.
  - eapply lookup_weaken; eassumption.
  - eapply Forall2_impl; [exact Hls|]. intros l s. now apply session_rep_mono.
Qed.

Lemma event_rep_mono (h h' : heap) (l : loc) (e : SolidarityEvent) :
  h ⊆ h' -> event_rep h l e -> event_rep h' l e.
Proof.
  intros Hsub (o & Ho & Hid & Htitle & Htype & Hurl & Hss & Htags).
  exists o. repeat split; try assumption.
  - eapply lookup_weaken; eassumption.
  - now apply (sessions_rep_mono h).
  - eapply lookup_weaken; eassumption.
Qed.

Lemma events_rep_mono (h h' : heap) (arr : loc) (es : list SolidarityEvent) :
  h ⊆ h' -> events_rep h arr es -> events_rep h' arr es.
Proof.
  intros Hsub (ls & Harr & Hls). exists ls. split.
  - eapply lookup_weaken; eassumption.
  - eapply Forall2_impl; [exact Hls|]. intros l e. now apply event_rep_mono.
Qed.

Lemma new_event_object_mono (h h1 h2 : heap) (ev : loc) :
  h1 ⊆ h2 -> new_event_object h h1 ev -> new_event_object h h2 ev.
Proof.
  intros Hsub (Hnew & o & ss & Ho & Hs & Hss & Hold & Htags).
  split; [exact Hnew|]. exists o, ss. repeat split; try assumption.
  - eapply lookup_weaken; eassumption.
  - eapply lookup_weaken; eassumption.
Qed.

Lemma copied_from_mono (h h1 h2 : heap) (ev ev' : loc) :
  h1 ⊆ h2 -> copied_from h h1 ev ev' -> copied_from h h2 ev ev'.
Proof.
  intros Hsub (o & o' & ss & ss' & Ho & Hnew & Ho' & Hid & Htitle & Htype
               & Hurl & Htags & Hss & Hnews & Hss' & Hin).
  exists o, o', ss, ss'. repeat split; try assumption.
  - eapply lookup_weaken; eassumption.
  - eapply lookup_weaken; eassumption.
Qed.

Section WindowFilterInMemoryFacts.
Context `{Host}.

Lemma in_window_at_rep (now : Z) (cutoff : number) (h : heap) (l : loc)
    (s : EventSession) :
  session_rep h l s -> in_window_at now cutoff h l = in_window now cutoff s.
Proof. unfold session_rep, in_window_at. now intros ->. Qed.

Lemma session_start_at_rep (h : heap) (l : loc) (s : EventSession) :
  session_rep h l s -> session_start_at h l = session_start s.
Proof. unfold session_rep, session_start_at. now intros ->. Qed.

Lemma is_listed_at_rep (h : heap) (l : loc) (e : SolidarityEvent) :
  event_rep h l e -> is_listed_at h l = is_listed e.
Proof.
  intros (o & Ho & _ & _ & _ & Hurl & _ & Htags).
  unfold is_listed_at, is_listed, strings_at. now rewrite Ho, Htags, Hurl.
Qed.

Lemma has_sessions_at_rep (h : heap) (l : loc) (e : SolidarityEvent) :
  event_rep h l e -> has_sessions_at h l = has_sessions e.
Proof.
  intros (o & Ho & _ & _ & _ & _ & (ls & Hls & Hss) & _).
  unfold has_sessions_at, has_sessions. rewrite Ho, Hls.
  now rewrite (Forall2_length _ _ _ Hss).
Qed.

Lemma first_start_at_rep (h : heap) (l : loc) (e : SolidarityEvent) :
  event_rep h l e -> first_start_at h l = first_start e.
Proof.
  intros (o & Ho & _ & _ & _ & _ & (ls & Hls & Hss) & _).
  unfold first_start_at, first_start. rewrite Ho, Hls.
  destruct Hss as [|s x ls ss Hs _]; [reflexivity|].
  now apply session_start_at_rep.
Qed.

(** Filtering and sorting the sessions of an event: one new array, written
    twice.  [h0] is the heap the call started from. *)
Lemma sessions_filter_sort {B : Type} (now : Z) (cutoff : number)
    (h0 h : heap) (arr : loc) (ls : list loc) (ss : list EventSession)
    (k : loc -> Heaped B) :
  h0 ⊆ h ->
  h0 !! arr = Some (ObjectArray ls) ->
  Forall2 (session_rep h0) ls ss ->
  exists ls',
    (kept ← array_filter (in_window_at now cutoff) arr;
     sorted ← array_sort by_session_start_at kept;
     k sorted) h
    = k (fresh (dom h)) (<[fresh (dom h) := ObjectArray ls']> h)
    /\ Forall2 (session_rep h0) ls'
         (Array_sort by_session_start
            (List.filter (in_window now cutoff) ss))
    /\ Forall (fun s => is_Some (h0 !! s)) ls'
    /\ Forall (fun s => In s ls) ls'.
Proof.
  intros Hbase Harr Hls.
  pose proof (fresh_is_new h) as Hnew.
  set (l := fresh (dom h)) in *.
  set (kept := List.filter (in_window_at now cutoff h) ls).
  set (h1 := <[l := ObjectArray kept]> h).
  assert (Hsub : h ⊆ h1) by now apply insert_subseteq.
  assert (Hkept : Forall2 (session_rep h0) kept
                    (List.filter (in_window now cutoff) ss)).
  { apply Forall2_filter_agree; [|exact Hls].
    intros a b Hab. apply in_window_at_rep.
    eapply session_rep_mono; eassumption. }
  assert (Hsorted : Forall2 (session_rep h0)
                      (Array_sort (by_session_start_at h1) kept)
                      (Array_sort by_session_start
                         (List.filter (in_window now cutoff) ss))).
  { apply Forall2_Array_sort; [|exact Hkept].
    intros a1 a2 b1 b2 H1 H2. unfold by_session_start_at, by_session_start.
    now rewrite (session_start_at_rep h1 a1 b1),
                (session_start_at_rep h1 a2 b2)
      by (eapply session_rep_mono; [|eassumption]; now transitivity h). }
  exists (Array_sort (by_session_start_at h1) kept). split; [|split; [|split]].
  - unfold mbind, heaped_bind, array_filter.
    rewrite (lookup_weaken _ _ _ _ Harr Hbase).
    unfold alloc. cbv zeta. fold l. fold kept. fold h1.
    unfold array_sort. unfold h1 at 1. rewrite lookup_insert_eq.
    unfold h1 at 2. now rewrite insert_insert_eq.
  - exact Hsorted.
  - apply List.Forall_forall. intros a Ha.
    apply list_elem_of_In, list_elem_of_lookup in Ha. destruct Ha as (i & Hi).
    destruct (Forall2_lookup_l _ _ _ _ _ Hsorted Hi) as (b & _ & Hb).
    unfold session_rep in Hb. now rewrite Hb.
  - apply List.Forall_forall. intros a Ha.
    apply Array_sort_In in Ha. unfold kept in Ha.
    apply filter_In in Ha. apply Ha.
Qed.

(** The callback of [map] on an event of the heap the call started from. *)
Lemma window_event_at_spec (now : Z) (cutoff : number) (h0 h : heap)
    (ev : loc) (e : SolidarityEvent) :
  h0 ⊆ h ->
  event_rep h0 ev e ->
  exists ev' h',
    window_event_at now cutoff ev h = Some (ev', h')
    /\ h ⊆ h'
    /\ event_rep h' ev' (window_event now cutoff e)
    /\ new_event_object h0 h' ev'
    /\ copied_from h0 h' ev ev'.
Proof.
  intros Hbase (o & Ho & Hid & Htitle & Htype & Hurl & (ls & Harr & Hls)
                & Htags).
  unfold window_event_at.
  unfold mbind at 1, heaped_bind at 1, read_event.
  rewrite (lookup_weaken _ _ _ _ Ho Hbase).
  destruct (sessions_filter_sort now cutoff h0 h (obj_event_sessions o)
              ls (event_sessions e)
              (fun sorted =>
                 alloc (EventCell {| obj_event_id := obj_event_id o;
                                     obj_title := obj_title o;
                                     obj_event_type := obj_event_type o;
                                     obj_event_sessions := sorted;
                                     obj_event_page_url := obj_event_page_url o;
                                     obj_tags := obj_tags o |}))
              Hbase Harr Hls) as (ls' & -> & Hls' & Hold & Hfrom).
  pose proof (fresh_is_new h) as Hl.
  set (l := fresh (dom h)) in *.
  set (h2 := <[l := ObjectArray ls']> h).
  assert (Hsub2 : h ⊆ h2) by now apply insert_subseteq.
  pose proof (fresh_is_new h2) as Hev.
  unfold alloc. cbv zeta.
  set (ev' := fresh (dom h2)) in *.
  set (o' := {| obj_event_id := obj_event_id o;
                obj_title := obj_title o;
                obj_event_type := obj_event_type o;
                obj_event_sessions := l;
                obj_event_page_url := obj_event_page_url o;
                obj_tags := obj_tags o |}).
  set (h3 := <[ev' := EventCell o']> h2).
  assert (Hsub3 : h2 ⊆ h3) by now apply insert_subseteq.
  assert (Hbase3 : h0 ⊆ h3) by (transitivity h; [|transitivity h2]; assumption).
  assert (Hl3 : h3 !! l = Some (ObjectArray ls')).
  { eapply lookup_weaken; [|exact Hsub3]. apply lookup_insert_eq. }
  exists ev', h3. split; [reflexivity|]. split; [|split; [|split]].
  - now transitivity h2.
  - exists o'. split; [apply lookup_insert_eq|].
    repeat split; try assumption.
    + exists ls'. split; [exact Hl3|].
      eapply Forall2_impl; [exact Hls'|].
      intros a b. now apply session_rep_mono.
    + eapply lookup_weaken; [exact Htags|exact Hbase3].
  - split.
    + eapply new_in_smaller; [|exact Hev]. now transitivity h.
    + exists o', ls'. split; [apply lookup_insert_eq|].
      split; [exact (new_in_smaller h0 h l Hbase Hl)|].
      split; [exact Hl3|]. split; [exact Hold|].
      exists (StringArray (tags e)). exact Htags.
  - exists o, o', ls, ls'.
    split; [exact Ho|].
    split; [eapply new_in_smaller; [|exact Hev]; now transitivity h|].
    split; [apply lookup_insert_eq|].
    repeat split; try reflexivity; try assumption.
    exact (new_in_smaller h0 h l Hbase Hl).
Qed.

Lemma map_elements_spec (now : Z) (cutoff : number) (h0 : heap)
    (ls : list loc) (es : list SolidarityEvent) (h : heap) :
  h0 ⊆ h ->
  Forall2 (event_rep h0) ls es ->
  exists ls' h',
    map_elements (window_event_at now cutoff) ls h = Some (ls', h')
    /\ h ⊆ h'
    /\ Forall2 (event_rep h') ls' (List.map (window_event now cutoff) es)
    /\ Forall (new_event_object h0 h') ls'
    /\ Forall2 (copied_from h0 h') ls ls'.
Proof.
  intros Hbase Hls. revert h Hbase.
  induction Hls as [|ev e ls es Hev _ IH]; intros h Hbase.
  - exists [], h. repeat split; try constructor. reflexivity.
  - destruct (window_event_at_spec now cutoff h0 h ev e Hbase Hev)
      as (ev' & h1 & Hrun & Hsub1 & Hrep & Hnew & Hcopy).
    destruct (IH h1) as (ls' & h2 & Hrest & Hsub2 & Hreps & Hnews & Hcopies);
      [now transitivity h|].
    exists (ev' :: ls'), h2. split; [|split; [|split; [|split]]].
    + cbn [map_elements]. unfold mbind, heaped_bind.
      rewrite Hrun. fold (@mbind Heaped _). unfold mbind, heaped_bind.
      now rewrite Hrest.
    + now transitivity h1.
    + simpl. constructor; [|exact Hreps]. now apply (event_rep_mono h1).
    + constructor; [|exact Hnews]. now apply (new_event_object_mono h0 h1).
    + constructor; [|exact Hcopies]. now apply (copied_from_mono h0 h1).
Qed.

(** C10, as the code has it.  For every input list held in memory,
    [filterAndSortEvents] returns, and no cell that existed before the call
    has changed: the input list, every event object in it, every array of
    sessions (and everything else) read as before.  The result is the value
    the function computes, held in a new array of new event objects, each
    with a new array of sessions.  The tags array of a result event and its
    session objects are not new: every result event is a copy of an event
    object of the input list, its tags array is the tags array of that
    input event and its session objects are session objects of that input
    event, the same references. *)
Theorem filterAndSortEvents_keeps_input (now : Z) (daysAhead : number)
    (h : heap) (events : loc) (input : list SolidarityEvent) :
  events_rep h events input ->
  exists out h',
    filterAndSortEvents_in_memory now events daysAhead h = Some (out, h')
    /\ unchanged h h'
    /\ events_rep h' events input
    /\ events_rep h' out (filterAndSortEvents now input daysAhead)
    /\ result_is_new h h' out
    /\ result_shares_with_input h h' events out.
Proof.
  intros Hinput. pose proof Hinput as (ls & Harr & Hls).
  set (cutoff := window_cutoff now daysAhead).
  (* events.filter(listed) *)
  pose proof (fresh_is_new h) as Ha.
  set (a := fresh (dom h)) in *.
  set (la := List.filter (is_listed_at h) ls).
  set (ha := <[a := ObjectArray la]> h).
  assert (Hsub_a : h ⊆ ha) by now apply insert_subseteq.
  assert (Hla : Forall2 (event_rep h) la (List.filter is_listed input)).
  { apply Forall2_filter_agree; [|exact Hls]. apply is_listed_at_rep. }
  (* .map(...) *)
  destruct (map_elements_spec now cutoff h la (List.filter is_listed input)
              ha Hsub_a Hla)
    as (lb & hb & Hmap & Hsub_b & Hlb & Hnew_b & Hcopy_b).
  pose proof (fresh_is_new hb) as Hb.
  set (b := fresh (dom hb)) in *.
  set (hb' := <[b := ObjectArray lb]> hb).
  assert (Hsub_b' : hb ⊆ hb') by now apply insert_subseteq.
  (* .filter(length > 0) *)
  pose proof (fresh_is_new hb') as Hc.
  set (c := fresh (dom hb')) in *.
  set (lc := List.filter (has_sessions_at hb') lb).
  set (hc := <[c := ObjectArray lc]> hb').
  assert (Hsub_c : hb' ⊆ hc) by now apply insert_subseteq.
  assert (Hlc : Forall2 (event_rep hb) lc
                  (List.filter has_sessions
                     (List.map (window_event now cutoff)
                        (List.filter is_listed input)))).
  { apply Forall2_filter_agree; [|exact Hlb].
    intros x y Hxy. apply has_sessions_at_rep.
    eapply event_rep_mono; eassumption. }
  (* .sort(...) *)
  set (ld := Array_sort (by_first_start_at hc) lc).
  set (h' := <[c := ObjectArray ld]> hb').
  assert (Hsub' : hb' ⊆ h') by now apply insert_subseteq.
  assert (Hld : Forall2 (event_rep hb) ld
                  (filterAndSortEvents now input daysAhead)).
  { apply Forall2_Array_sort; [|exact Hlc].
    intros x1 x2 y1 y2 H1 H2. unfold by_first_start_at, by_first_start.
    now rewrite (first_start_at_rep hc x1 y1), (first_start_at_rep hc x2 y2)
      by (eapply event_rep_mono; [|eassumption];
          transitivity hb'; assumption). }
  assert (Hbase' : h ⊆ h').
  { transitivity ha; [assumption|]. transitivity hb; [assumption|].
    now transitivity hb'. }
  exists c, h'. split; [|split; [|split; [|split; [|split]]]].
  - unfold filterAndSortEvents_in_memory. cbv zeta. fold cutoff.
    unfold mbind at 1, heaped_bind at 1, array_filter at 1.
    rewrite Harr. unfold alloc at 1. cbv zeta. fold a. fold la. fold ha.
    unfold mbind at 1, heaped_bind at 1, array_map.
    unfold ha at 1. rewrite lookup_insert_eq. fold ha.
    unfold mbind at 1, heaped_bind at 1. rewrite Hmap.
    unfold alloc at 1. cbv zeta. fold b. fold hb'.
    unfold mbind, heaped_bind, array_filter.
    unfold hb' at 1. rewrite lookup_insert_eq. fold hb'.
    unfold alloc. cbv zeta. fold c. fold lc. fold hc.
    unfold array_sort. unfold hc at 1. rewrite lookup_insert_eq.
    fold ld. unfold hc. now rewrite insert_insert_eq.
  - now apply unchanged_subseteq.
  - now apply (events_rep_mono h).
  - exists ld. split; [apply lookup_insert_eq|].
    eapply Forall2_impl; [exact Hld|]. intros x y.
    apply event_rep_mono. now transitivity hb'.
  - split.
    + eapply new_in_smaller; [|exact Hc].
      transitivity ha; [assumption|]. now transitivity hb.
    + exists ld. split; [apply lookup_insert_eq|].
      apply List.Forall_forall. intros x Hx.
      apply Array_sort_In, filter_In in Hx. destruct Hx as [Hx _].
      rewrite List.Forall_forall in Hnew_b.
      apply (new_event_object_mono h hb); [|now apply Hnew_b].
      now transitivity hb'.
  - exists ls, ld. split; [exact Harr|]. split; [apply lookup_insert_eq|].
    apply List.Forall_forall. intros x Hx.
    apply Array_sort_In, filter_In in Hx. destruct Hx as [Hx _].
    apply list_elem_of_In, list_elem_of_lookup in Hx. destruct Hx as (i & Hi).
    destruct (Forall2_lookup_r _ _ _ _ _ Hcopy_b Hi) as (ev & Hev & Hcopy).
    exists ev. split.
    + apply list_elem_of_lookup_2, list_elem_of_In in Hev.
      unfold la in Hev. apply filter_In in Hev. apply Hev.
    + apply (copied_from_mono h hb); [now transitivity hb'|exact Hcopy].
Qed.

End WindowFilterInMemoryFacts.

(* ===================================================================== *)
(** * Part III, continued: further properties of the code                 *)
(* ===================================================================== *)

(** ** More on the event fetcher *)

Section EventFetcherMore.
Context `{Outside}.

Lemma with_requests_length (w : World) (urls : list string) :
  length (requests (with_requests w urls))
  = (length (requests w) + length urls)%nat.
Proof. unfold with_requests. simpl. apply length_app. Qed.

Lemma page_urls_length (chapterId : Z) (n : nat) :
  length (page_urls chapterId n) = n.
Proof. unfold page_urls. now rewrite length_map, length_seq. Qed.

Lemma urls_from_shift (chapterId page : Z) (k : nat) :
  events_url chapterId page
  :: List.map (fun i => events_url chapterId (page + 1 + Z.of_nat i)) (seq 0 k)
  = List.map (fun i => events_url chapterId (page + Z.of_nat i)) (seq 0 (S k)).
Proof.
  cbn [seq List.map]. f_equal.
  - f_equal. lia.
  - rewrite <- seq_shift, map_map. apply map_ext. intros i. f_equal. lia.
Qed.

Lemma fetch_loop_requests (fuel : nat) (chapterId : Z)
    (allEvents : list SolidarityEvent) (page : Z) (w w' : World)
    (r : result (list SolidarityEvent)) :
  fetch_loop fuel chapterId allEvents page w = Some (r, w') ->
  exists k, (1 <= k <= fuel)%nat
    /\ w' = with_requests w
              (List.map (fun i => events_url chapterId (page + Z.of_nat i))
                        (seq 0 k)).
Proof.
  revert allEvents page w.
  induction fuel as [|fuel IH]; intros allEvents page w Hrun; [discriminate|].
  assert (Hone : with_requests w [events_url chapterId page]
                 = with_requests w
                     (List.map
                        (fun i => events_url chapterId (page + Z.of_nat i))
                        (seq 0 1))).
  { simpl. now rewrite Z.add_0_r. }
  cbn [fetch_loop] in Hrun. rewrite do_fetch_eq in Hrun.
  destruct (fetch (length (requests w)) (events_url chapterId page))
    as [response|err].
  2:{ inversion Hrun; subst. exists 1%nat. split; [lia|exact Hone]. }
  destruct (negb (ok response)).
  { destruct (text response); inversion Hrun; subst;
      exists 1%nat; (split; [lia|exact Hone]). }
  destruct (json response) as [body|err].
  2:{ inversion Hrun; subst. exists 1%nat. split; [lia|exact Hone]. }
  destruct (Z.of_nat (length (default [] (data body))) <? LIMIT).
  { inversion Hrun; subst. exists 1%nat. split; [lia|exact Hone]. }
  apply IH in Hrun. destruct Hrun as (k & Hk & ->).
  exists (S k). split; [lia|].
  rewrite with_requests_app. cbn [app]. now rewrite urls_from_shift.
Qed.

(** X1.  A call of [fetchAllEvents] that ends, with a result or with an
    exception, has requested the pages [1 .. k] of the chapter, in this
    order and nothing else, for some [k] between 1 and the number of
    iterations; it has written nothing to the console, posted nothing and
    not read the clock. *)
Theorem fetchAllEvents_requests_pages_in_order (fuel : nat) (chapterId : Z)
    (w w' : World) (r : result (list SolidarityEvent)) :
  fetchAllEvents fuel chapterId w = Some (r, w') ->
  exists k, (1 <= k <= fuel)%nat
    /\ requests w' = requests w ++ page_urls chapterId k
    /\ console w' = console w
    /\ posted w' = posted w
    /\ clock_reads w' = clock_reads w.
Proof.
  intros Hrun. apply fetch_loop_requests in Hrun.
  destruct Hrun as (k & Hk & ->). exists k. split; [exact Hk|].
  repeat split. simpl. f_equal. unfold page_urls.
  apply map_ext. intros i. f_equal. lia.
Qed.

Lemma fetch_loop_full_pages (chapterId : Z)
    (pages : nat -> list SolidarityEvent) (w : World) (m i fuel : nat) :
  (forall j, (i <= j < i + m)%nat ->
     answers_page w chapterId j (pages j) /\ full_page (pages j)) ->
  fetch_loop (m + fuel) chapterId (pages_upto pages i) (Z.of_nat i + 1)
             (with_requests w (page_urls chapterId i))
  = fetch_loop fuel chapterId (pages_upto pages (i + m))
               (Z.of_nat (i + m) + 1)
               (with_requests w (page_urls chapterId (i + m))).
Proof.
  revert i. induction m as [|m IH]; intros i Hfull.
  - now rewrite Nat.add_0_r.
  - destruct (Hfull i) as [Hans Hi]; [lia|].
    change (S m + fuel)%nat with (S (m + fuel)).
    rewrite fetch_loop_step by exact Hans.
    unfold full_page in Hi. unfold LIMIT.
    destruct (Z.ltb_spec (Z.of_nat (length (pages i))) 100); [lia|].
    rewrite IH by (intros j Hj; apply Hfull; lia).
    now replace (S i + m)%nat with (i + S m)%nat by lia.
Qed.

Lemma fetchAllEvents_after_full_pages (chapterId : Z)
    (pages : nat -> list SolidarityEvent) (w : World) (m fuel : nat) :
  (forall j, (j < m)%nat ->
     answers_page w chapterId j (pages j) /\ full_page (pages j)) ->
  fetchAllEvents (m + fuel) chapterId w
  = fetch_loop fuel chapterId (pages_upto pages m) (Z.of_nat m + 1)
               (with_requests w (page_urls chapterId m)).
Proof.
  intros Hfull. unfold fetchAllEvents.
  pose proof (fetch_loop_full_pages chapterId pages w m 0 fuel) as Hrun.
  change (pages_upto pages 0) with (@nil SolidarityEvent) in Hrun.
  change (page_urls chapterId 0) with (@nil string) in Hrun.
  change (Z.of_nat 0 + 1) with 1 in Hrun.
  rewrite with_requests_nil in Hrun.
  apply Hrun. intros j Hj. apply Hfull. lia.
Qed.

Lemma fetch_loop_failure (fuel : nat) (chapterId : Z)
    (allEvents : list SolidarityEvent) (w : World) (i : nat) (e : exn) :
  response_failure
    (fetch (length (requests w) + i) (events_url chapterId (Z.of_nat i + 1)))
  = Some e ->
  fetch_loop (S fuel) chapterId allEvents (Z.of_nat i + 1)
             (with_requests w (page_urls chapterId i))
  = Some (Throw e, with_requests w (page_urls chapterId (S i))).
Proof.
  intros Hfail. cbn [fetch_loop]. rewrite do_fetch_eq.
  rewrite with_requests_length, page_urls_length.
  rewrite with_requests_app, <- page_urls_S.
  unfold response_failure in Hfail.
  destruct (fetch (length (requests w) + i)
                  (events_url chapterId (Z.of_nat i + 1)))
    as [response|err]; [|now inversion Hfail].
  destruct (ok response); cbn [negb].
  - destruct (json response) as [body|err]; [discriminate|now inversion Hfail].
  - destruct (text response) as [body|err]; now inversion Hfail.
Qed.

(** X2.  When, after [n] full pages, the request for the next page fails
    (the request itself throws, the status is not a success, or the body
    cannot be read), [fetchAllEvents] ends with that exception after
    exactly [n + 1] requests: the events of the pages read so far are not
    returned.  For a status that is not a success the exception is the API
    error with the status and the text of the response when that text can
    be read, and the failure of reading it when it cannot. *)
Theorem fetchAllEvents_fails_with_the_page (chapterId : Z)
    (pages : nat -> list SolidarityEvent) (w : World) (n : nat) (e : exn) :
  (forall j, (j < n)%nat ->
     answers_page w chapterId j (pages j) /\ full_page (pages j)) ->
  response_failure
    (fetch (length (requests w) + n) (events_url chapterId (Z.of_nat n + 1)))
  = Some e ->
  (forall fuel, (n < fuel)%nat ->
     fetchAllEvents fuel chapterId w
     = Some (Throw e, with_requests w (page_urls chapterId (S n))))
  /\ (forall response,
        fetch (length (requests w) + n) (events_url chapterId (Z.of_nat n + 1))
        = Ok response ->
        ok response = false ->
        (forall body,
           text response = Ok body ->
           e = Error ("solidarity.tech API error " +:+ pretty (status response)
                      +:+ ": " +:+ body))
        /\ (forall err, text response = Throw err -> e = err)).
Proof.
  intros Hfull Hfail. split.
  - intros fuel Hfuel.
    replace fuel with (n + S (fuel - S n))%nat by lia.
    rewrite (fetchAllEvents_after_full_pages chapterId pages) by exact Hfull.
    now apply fetch_loop_failure.
  - intros response Hresp Hok. rewrite Hresp in Hfail.
    unfold response_failure in Hfail. rewrite Hok in Hfail.
    split.
    + intros body Hbody. rewrite Hbody in Hfail. now inversion Hfail.
    + intros err Herr. rewrite Herr in Hfail. now inversion Hfail.
Qed.

(** X3.  The loop has no bound of its own: against an API that answers every
    page with 100 events or more, [fetchAllEvents] has not returned after
    any number of iterations. *)
Theorem fetchAllEvents_never_ends_on_full_pages (chapterId : Z)
    (pages : nat -> list SolidarityEvent) (w : World) :
  (forall j, answers_page w chapterId j (pages j) /\ full_page (pages j)) ->
  forall fuel, fetchAllEvents fuel chapterId w = None.
Proof.
  intros Hfull fuel.
  replace fuel with (fuel + 0)%nat by lia.
  now rewrite (fetchAllEvents_after_full_pages chapterId pages)
    by (intros j _; apply Hfull).
Qed.

Lemma fetch_loop_Ok_inv (fuel : nat) (chapterId : Z)
    (allEvents : list SolidarityEvent) (page : Z) (w w' : World)
    (evs : list SolidarityEvent) :
  fetch_loop fuel chapterId allEvents page w = Some (Ok evs, w') ->
  exists (full : list (list SolidarityEvent)) (short : list SolidarityEvent),
    evs = allEvents ++ concat full ++ short
    /\ Forall full_page full
    /\ short_page short
    /\ (forall j p, (full ++ [short]) !! j = Some p ->
          exists response body,
            fetch (length (requests w) + j)
                  (events_url chapterId (page + Z.of_nat j)) = Ok response
            /\ ok response = true
            /\ json response = Ok body
            /\ default [] (data body) = p)
    /\ w' = with_requests w
              (List.map (fun i => events_url chapterId (page + Z.of_nat i))
                        (seq 0 (S (length full)))).
Proof.
  revert allEvents page w.
  induction fuel as [|fuel IH]; intros allEvents page w Hrun; [discriminate|].
  cbn [fetch_loop] in Hrun. rewrite do_fetch_eq in Hrun.
  destruct (fetch (length (requests w)) (events_url chapterId page))
    as [response|err] eqn:Hfetch; [|discriminate].
  destruct (ok response) eqn:Hok; cbn [negb] in Hrun;
    [|destruct (text response); discriminate].
  destruct (json response) as [body|err] eqn:Hjson; [|discriminate].
  destruct (Z.ltb_spec (Z.of_nat (length (default [] (data body)))) LIMIT)
    as [Hshort|Hfull].
  - inversion Hrun; subst. exists [], (default [] (data body)).
    split; [reflexivity|]. split; [constructor|].
    split; [unfold short_page; unfold LIMIT in Hshort; lia|].
    split; [|simpl; now rewrite Z.add_0_r].
    intros [|j] p Hp; [|destruct j; discriminate].
    inversion Hp; subst. exists response, body.
    now rewrite Nat.add_0_r, Z.add_0_r.
  - apply IH in Hrun.
    destruct Hrun as (full & short & -> & Hfulls & Hsh & Hans & ->).
    exists (default [] (data body) :: full), short.
    split; [simpl; now rewrite <- !app_assoc|].
    split; [constructor; [unfold full_page; unfold LIMIT in Hfull; lia
                         |exact Hfulls]|].
    split; [exact Hsh|].
    split; [|rewrite with_requests_app; cbn [app length];
             now rewrite urls_from_shift].
    intros [|j] p Hp.
    + inversion Hp; subst. exists response, body.
      now rewrite Nat.add_0_r, Z.add_0_r.
    + destruct (Hans j p Hp) as (resp & bd & Hf & Hrest).
      exists resp, bd. split; [|exact Hrest].
      rewrite with_requests_length in Hf. simpl in Hf.
      replace (length (requests w) + S j)%nat
        with (length (requests w) + 1 + j)%nat by lia.
      now replace (page + Z.of_nat (S j)) with (page + 1 + Z.of_nat j) by lia.
Qed.

(** X4.  A list that [fetchAllEvents] returns is never partial: every page
    it requested was answered with a success, all of them were full except
    the last one, which was short, and the list is the events of all these
    pages in page order. *)
Theorem fetchAllEvents_result_is_complete (fuel : nat) (chapterId : Z)
    (w w' : World) (evs : list SolidarityEvent) :
  fetchAllEvents fuel chapterId w = Some (Ok evs, w') ->
  exists (full : list (list SolidarityEvent)) (short : list SolidarityEvent),
    evs = concat full ++ short
    /\ Forall full_page full
    /\ short_page short
    /\ (forall j p, (full ++ [short]) !! j = Some p ->
          answers_page w chapterId j p)
    /\ requests w' = requests w ++ page_urls chapterId (S (length full)).
Proof.
  intros Hrun. unfold fetchAllEvents in Hrun.
  apply fetch_loop_Ok_inv in Hrun.
  destruct Hrun as (full & short & Hevs & Hfull & Hshort & Hans & ->).
  exists full, short. split; [exact Hevs|]. split; [exact Hfull|].
  split; [exact Hshort|]. split.
  - intros j p Hp. destruct (Hans j p Hp) as (response & body & Hf & Hrest).
    exists response, body. split; [|exact Hrest].
    now rewrite Z.add_comm.
  - unfold with_requests, page_urls. cbn [requests]. f_equal.
    apply map_ext. intros i. f_equal. lia.
Qed.
End EventFetcherMore.

(** ** More on the window filter *)

Lemma filter_all {A : Type} (p : A -> bool) (l : list A) :
  (forall x, In x l -> p x = true) -> List.filter p l = l.
Proof.
  induction l as [|x l IH]; intros Hp; [reflexivity|].
  simpl. rewrite (Hp x) by now left.
  f_equal. apply IH. intros y Hy. apply Hp. now right.
Qed.

Lemma filter_none {A : Type} (p : A -> bool) (l : list A) :
  (forall x, In x l -> p x = false) -> List.filter p l = [].
Proof.
  induction l as [|x l IH]; intros Hp; [reflexivity|].
  simpl. rewrite (Hp x) by now left.
  apply IH. intros y Hy. apply Hp. now right.
Qed.

Lemma filter_length_le {A : Type} (p q : A -> bool) (l : list A) :
  (forall x, In x l -> p x = true -> q x = true) ->
  (length (List.filter p l) <= length (List.filter q l))%nat.
Proof.
  induction l as [|x l IH]; intros Hpq; [reflexivity|].
  assert (IH' : (length (List.filter p l) <= length (List.filter q l))%nat).
  { apply IH. intros y Hy. apply Hpq. now right. }
  simpl. destruct (p x) eqn:Hp.
  - rewrite (Hpq x (or_introl eq_refl) Hp). simpl. lia.
  - destruct (q x); simpl; lia.
Qed.

(** A list in ascending order is left as it is. *)
Lemma Array_sort_ascending_id {A : Type} (key : A -> number) (l : list A) :
  StronglySorted (key_le key) l -> Array_sort (key_cmp key) l = l.
Proof.
  induction 1 as [|x l Hl IH Hx]; [reflexivity|].
  simpl. rewrite IH. destruct l as [|y l']; [reflexivity|].
  inversion Hx as [|? ? Hxy _]; subst. simpl.
  unfold SortCompare, key_cmp. unfold key_le in Hxy.
  destruct (key x) as [|kx], (key y) as [|ky]; simpl in *; try contradiction.
  destruct (Z.ltb_spec 0 (kx - ky)); [lia|reflexivity].
Qed.

Section WindowFilterMore.
Context `{Host}.

Lemma filterAndSortEvents_ascending (now : Z) (daysAhead : number)
    (events : list SolidarityEvent) :
  events_ascending (filterAndSortEvents now events daysAhead).
Proof.
  rewrite filterAndSortEvents_sorted_survivors.
  apply (Array_sort_sorted first_start).
  apply List.Forall_forall. intros e' He'.
  apply in_map_iff in He'. destruct He' as (e & <- & He).
  apply filter_In in He. destruct He as [_ Hb].
  apply andb_true_iff in Hb. now apply kept_first_start_finite.
Qed.

Lemma kept_sessions_in_window (now : Z) (daysAhead : number)
    (e : SolidarityEvent) (s : EventSession) :
  In s (event_sessions (kept now daysAhead e)) ->
  in_window now (window_cutoff now daysAhead) s = true.
Proof.
  intros Hs. eapply Permutation_in in Hs; [|apply kept_sessions_perm].
  apply filter_In in Hs. rewrite in_window_test. apply Hs.
Qed.

(** An event that went through the window is not changed by it again. *)
Lemma window_event_kept (now : Z) (daysAhead : number) (e : SolidarityEvent) :
  window_event now (window_cutoff now daysAhead) (kept now daysAhead e)
  = kept now daysAhead e.
Proof.
  unfold window_event at 1.
  rewrite filter_all by apply kept_sessions_in_window.
  change by_session_start with (key_cmp session_start).
  rewrite Array_sort_ascending_id by apply kept_sessions_ascending.
  reflexivity.
Qed.

(** X5.  Filtering is idempotent at a fixed instant: [filterAndSortEvents]
    applied to its own output, with the same clock reading and the same
    window, returns that output unchanged (the same events, sessions and
    order). *)
Theorem filterAndSortEvents_idempotent (now : Z) (daysAhead : number)
    (events : list SolidarityEvent) :
  filterAndSortEvents now (filterAndSortEvents now events daysAhead) daysAhead
  = filterAndSortEvents now events daysAhead.
Proof.
  set (out := filterAndSortEvents now events daysAhead).
  assert (Hout : forall e', In e' out ->
            is_listed e' = true
            /\ window_event now (window_cutoff now daysAhead) e' = e'
            /\ has_sessions e' = true).
  { intros e' He'. apply In_filterAndSortEvents in He'.
    destruct He' as (e & _ & Hl & Hs & ->).
    split; [now rewrite kept_is_listed|].
    split; [apply window_event_kept|exact Hs]. }
  unfold filterAndSortEvents at 1. cbv zeta.
  rewrite (filter_all is_listed) by (intros e' He'; now apply Hout).
  rewrite (map_ext_in _ (fun e' => e')), map_id
    by (intros e' He'; now apply Hout).
  rewrite (filter_all has_sessions) by (intros e' He'; now apply Hout).
  apply (Array_sort_ascending_id first_start).
  apply filterAndSortEvents_ascending.
Qed.

Lemma filterAndSortEvents_nothing_in_window (now : Z) (daysAhead : number)
    (events : list SolidarityEvent) :
  (forall s, ~ starts_in_window now daysAhead s) ->
  filterAndSortEvents now events daysAhead = [].
Proof.
  intros Hnone. rewrite filterAndSortEvents_sorted_survivors.
  unfold survivors. rewrite filter_none; [reflexivity|].
  intros e _. apply andb_false_iff. right.
  destruct (has_sessions (kept now daysAhead e)) eqn:Hs; [|reflexivity].
  apply kept_has_sessions_iff in Hs. destruct Hs as (s & _ & Hw).
  now apply Hnone in Hw.
Qed.

(** X6.  A lookahead that is no number ([Number] of a malformed setting) or
    a negative whole number of days gives an empty window:
    [filterAndSortEvents] returns the empty list, whatever the events.  (A
    lookahead with a fraction is not a [number] of this development.) *)
Theorem filterAndSortEvents_empty_window (now : Z) (daysAhead : number)
    (events : list SolidarityEvent) :
  match daysAhead with NaN => True | Num d => d < 0 end ->
  filterAndSortEvents now events daysAhead = [].
Proof.
  intros Hd. apply filterAndSortEvents_nothing_in_window.
  intros s. unfold starts_in_window.
  destruct (Date_parse (start_time s)) as [|t]; [tauto|].
  destruct daysAhead as [|d]; [tauto|].
  unfold MS_PER_DAY. lia.
Qed.

Lemma starts_in_window_mono (now d1 d2 : Z) (s : EventSession) :
  d1 <= d2 ->
  starts_in_window now (Num d1) s -> starts_in_window now (Num d2) s.
Proof.
  unfold starts_in_window, MS_PER_DAY.
  destruct (Date_parse (start_time s)) as [|t]; [tauto|]. lia.
Qed.

(** X7.  The window grows with the lookahead: for [d1 <= d2], an input event
    that is in the output for [d1] days is in the output for [d2] days, with
    at least the sessions it had, and the output for [d2] is at least as
    long. *)
Theorem filterAndSortEvents_window_grows (now d1 d2 : Z)
    (events : list SolidarityEvent) :
  d1 <= d2 ->
  (forall e, In e events ->
     In (kept now (Num d1) e) (filterAndSortEvents now events (Num d1)) ->
     In (kept now (Num d2) e) (filterAndSortEvents now events (Num d2)))
  /\ (forall e s,
        In s (event_sessions (kept now (Num d1) e)) ->
        In s (event_sessions (kept now (Num d2) e)))
  /\ (length (filterAndSortEvents now events (Num d1))
      <= length (filterAndSortEvents now events (Num d2)))%nat.
Proof.
  intros Hd.
  assert (Hhas : forall e,
            has_sessions (kept now (Num d1) e) = true ->
            has_sessions (kept now (Num d2) e) = true).
  { intros e Hs. apply kept_has_sessions_iff in Hs.
    destruct Hs as (s & Hs & Hw). apply kept_has_sessions_iff.
    exists s. split; [exact Hs|]. now apply (starts_in_window_mono now d1). }
  split; [|split].
  - intros e He Hin. apply In_filterAndSortEvents in Hin.
    destruct Hin as (e0 & _ & Hl & Hs & Heq).
    apply In_filterAndSortEvents. exists e. split; [exact He|].
    split; [|split; [|reflexivity]].
    + now rewrite <- (kept_is_listed now (Num d1)), Heq, kept_is_listed.
    + apply Hhas. now rewrite Heq.
  - intros e s Hs.
    eapply Permutation_in in Hs; [|apply kept_sessions_perm].
    apply filter_In in Hs. destruct Hs as [Hs Hw].
    eapply Permutation_in; [symmetry; apply kept_sessions_perm|].
    apply filter_In. split; [exact Hs|].
    apply starts_in_windowb_iff. apply starts_in_windowb_iff in Hw.
    now apply (starts_in_window_mono now d1).
  - rewrite !filterAndSortEvents_sorted_survivors, !Array_sort_length,
      !length_map.
    unfold survivors. apply filter_length_le. intros e _ Hb.
    apply andb_true_iff in Hb. destruct Hb as [Hl Hs].
    rewrite Hl. now apply Hhas.
Qed.
End WindowFilterMore.

(** ** More on the message builder *)

Lemma bind_Throw_inv {A B : Type} (r : result A) (k : A -> result B) (e : exn) :
  r ≫= k = Throw e <-> r = Throw e \/ exists a, r = Ok a /\ k a = Throw e.
Proof.
  destruct r as [a|e']; simpl; split.
  - intros Hk. right. now exists a.
  - intros [Hr|(a' & Ha & Hk)]; [discriminate|]. now inversion Ha; subst.
  - intros Hr. left. now inversion Hr.
  - intros [Hr|(a' & Ha & _)]; [now inversion Hr|discriminate].
Qed.

Lemma mapM_Throw_inv {A B : Type} (f : A -> result B) (l : list A) (e : exn) :
  mapM f l = Throw e -> exists x, In x l /\ f x = Throw e.
Proof.
  induction l as [|x l IH]; simpl; [discriminate|].
  intros Hm. apply bind_Throw_inv in Hm.
  destruct Hm as [Hx|(y & _ & Hm)]; [exists x; tauto|].
  apply bind_Throw_inv in Hm.
  destruct Hm as [Hl|(ys & _ & Hret)]; [|discriminate].
  destruct (IH Hl) as (x' & Hin & Hx'). exists x'. tauto.
Qed.

Lemma word_run_cons (c : ascii) (s : string) :
  word_run (String c s)
  = is_word c && match s with EmptyString => true | _ => word_run s end.
Proof. destruct s; simpl; [now rewrite andb_true_r|reflexivity]. Qed.

(** No word runs over a space. *)
Lemma word_run_over_space (u z : string) : word_run (u +:+ " " +:+ z) = false.
Proof.
  induction u as [|c u IH].
  - change ("" +:+ " " +:+ z) with (String " " z).
    rewrite word_run_cons. reflexivity.
  - rewrite append_cons, word_run_cons.
    destruct (u +:+ " " +:+ z) eqn:Hu.
    + destruct u; discriminate Hu.
    + rewrite IH. apply andb_false_r.
Qed.

Lemma space_word_run_before_space (u z : string) :
  space_word_run (u +:+ " " +:+ z) = true ->
  u = "" \/ last_is_space u = true.
Proof.
  induction u as [|c u IH]; [now left|].
  rewrite append_cons. cbn [space_word_run].
  rewrite word_run_over_space, orb_false_r.
  intros Hrun. apply andb_true_iff in Hrun. destruct Hrun as [Hc Hu].
  right. destruct (IH Hu) as [->|Hlast]; [exact Hc|].
  destruct u; [discriminate|exact Hlast].
Qed.

(** The suffix that [/\s+\w+$/] cuts from "time zone" is " zone". *)
Lemma drop_trailing_word_zone (t z : string) :
  last_is_space t = false -> word_run z = true ->
  drop_trailing_word (t +:+ " " +:+ z) = t.
Proof.
  intros Ht Hz. induction t as [|c t IH].
  - change ("" +:+ " " +:+ z) with (String " " z).
    cbn [drop_trailing_word space_word_run]. rewrite Hz, orb_true_r.
    reflexivity.
  - rewrite append_cons. cbn [drop_trailing_word].
    destruct (space_word_run (String c (t +:+ " " +:+ z))) eqn:Hrun.
    + rewrite <- append_cons in Hrun.
      apply space_word_run_before_space in Hrun.
      destruct Hrun as [Hnil|Hlast]; [discriminate|congruence].
    + f_equal. apply IH. destruct t; [reflexivity|exact Ht].
Qed.

Section MessageBuilderMore.
Context `{Host}.

Lemma formatHeaderDateRange_Ok_iff (now : Z) (daysAhead : number) :
  (exists dateRange, formatHeaderDateRange now daysAhead = Ok dateRange)
  <-> window_end_valid now daysAhead.
Proof.
  split; [|apply formatHeaderDateRange_Ok].
  unfold window_end_valid, formatHeaderDateRange. cbv zeta.
  destruct (new_Date (num_add (Num now) (days_ms daysAhead))); simpl;
    [intros (dr & Hdr); discriminate|tauto].
Qed.

Lemma formatHeaderDateRange_Throw (now : Z) (daysAhead : number) (e : exn) :
  formatHeaderDateRange now daysAhead = Throw e ->
  e = RangeError "Invalid time value".
Proof.
  unfold formatHeaderDateRange. cbv zeta.
  destruct (new_Date (num_add (Num now) (days_ms daysAhead))); simpl;
    [|discriminate]. now intros [= <-].
Qed.

Lemma formatDateRange_Ok_inv (startDate endDate : Date) (timeStr : string) :
  formatDateRange startDate endDate = Ok timeStr ->
  is_finite startDate /\ is_finite endDate.
Proof.
  destruct startDate, endDate; simpl; try discriminate. tauto.
Qed.

Lemma formatDateRange_Throw (startDate endDate : Date) (e : exn) :
  formatDateRange startDate endDate = Throw e ->
  e = RangeError "Invalid time value".
Proof.
  destruct startDate, endDate; simpl; try discriminate; now intros [= <-].
Qed.

Lemma sessionLine_Ok_inv (typeLabel : string) (isVirtual : bool)
    (session : EventSession) (line : string) :
  sessionLine typeLabel isVirtual session = Ok line -> session_dated session.
Proof.
  unfold sessionLine. cbv zeta. intros Hline.
  apply bind_Ok_inv in Hline. destruct Hline as (timeStr & Ht & _).
  now apply formatDateRange_Ok_inv in Ht.
Qed.

Lemma sessionLine_Throw (typeLabel : string) (isVirtual : bool)
    (session : EventSession) (e : exn) :
  sessionLine typeLabel isVirtual session = Throw e ->
  e = RangeError "Invalid time value".
Proof.
  unfold sessionLine. cbv zeta. intros Hline.
  apply bind_Throw_inv in Hline.
  destruct Hline as [Ht|(timeStr & _ & Hret)]; [|discriminate].
  now apply formatDateRange_Throw in Ht.
Qed.

Lemma eventSection_Ok_inv (event : SolidarityEvent) (sec : Block) :
  eventSection event = Ok sec -> sessions_dated event.
Proof.
  unfold eventSection. cbv zeta. intros Hsec.
  apply bind_Ok_inv in Hsec. destruct Hsec as (lines & Hlines & _).
  apply mapM_Ok_Forall2 in Hlines. unfold sessions_dated.
  apply List.Forall_forall. intros s Hs.
  apply list_elem_of_In, list_elem_of_lookup in Hs. destruct Hs as (i & Hi).
  destruct (Forall2_lookup_l _ _ _ _ _ Hlines Hi) as (line & _ & Hline).
  eapply sessionLine_Ok_inv, Hline.
Qed.

Lemma eventSection_Throw (event : SolidarityEvent) (e : exn) :
  eventSection event = Throw e -> e = RangeError "Invalid time value".
Proof.
  unfold eventSection. cbv zeta. intros Hsec.
  apply bind_Throw_inv in Hsec.
  destruct Hsec as [Hlines|(lines & _ & Hret)]; [|discriminate].
  apply mapM_Throw_inv in Hlines. destruct Hlines as (s & _ & Hs).
  eapply sessionLine_Throw, Hs.
Qed.

Lemma renders_dated (events : list SolidarityEvent) (sections : list Block) :
  renders events sections -> Forall sessions_dated events.
Proof.
  induction 1 as [|e sec es secs He _ IH]; constructor; [|exact IH].
  eapply eventSection_Ok_inv, He.
Qed.

(** X8.  [buildBlocks] has one way to fail.  It returns a document exactly
    when the end of the window is a valid date and every session of the
    first 23 events has a start and an end stamp that parse; otherwise it
    throws the [RangeError] of the date formatter, and nothing else. *)
Theorem buildBlocks_returns_iff_dates_valid (now : Z)
    (chapterName chapterUrl : string) (events : list SolidarityEvent)
    (daysAhead : number) :
  ((exists blocks,
       buildBlocks now chapterName chapterUrl events daysAhead = Ok blocks)
   <-> window_end_valid now daysAhead
       /\ Forall sessions_dated (take 23 events))
  /\ (forall e,
        buildBlocks now chapterName chapterUrl events daysAhead = Throw e ->
        e = RangeError "Invalid time value").
Proof.
  split; [split|].
  - intros (blocks & Hb). apply buildBlocks_Ok_iff in Hb.
    destruct Hb as (dr & Hdr & Hcases). split.
    + apply formatHeaderDateRange_Ok_iff. eauto.
    + destruct Hcases as [[-> _]|[_ (secs & Hsecs & _)]]; [constructor|].
      eapply renders_dated, Hsecs.
  - intros [Hvalid Hdated].
    destruct (formatHeaderDateRange_Ok _ _ Hvalid) as (dr & Hdr).
    destruct (renders_exists _ Hdated) as (secs & Hsecs).
    destruct events as [|ev events].
    + eexists. apply buildBlocks_Ok_iff. exists dr. split; [exact Hdr|].
      left. split; reflexivity.
    + eexists. apply buildBlocks_Ok_iff. exists dr. split; [exact Hdr|].
      right. split; [discriminate|]. exists secs. split; [exact Hsecs|].
      reflexivity.
  - intros e He. destruct events as [|ev events].
    + rewrite buildBlocks_empty_eq in He. apply bind_Throw_inv in He.
      destruct He as [Hdr|(dr & _ & Hret)]; [|discriminate].
      eapply formatHeaderDateRange_Throw, Hdr.
    + rewrite buildBlocks_nonempty in He by discriminate.
      apply bind_Throw_inv in He.
      destruct He as [Hdr|(dr & _ & He)];
        [eapply formatHeaderDateRange_Throw, Hdr|].
      apply bind_Throw_inv in He.
      destruct He as [Hsecs|(secs & _ & Hret)]; [|discriminate].
      apply mapM_Throw_inv in Hsecs. destruct Hsecs as (x & _ & Hx).
      eapply eventSection_Throw, Hx.
Qed.

(** X9.  The size of a document depends on the number of filtered events
    only: 3 blocks for none, and for [n >= 1] events two blocks of head, one
    section per visible event, one divider between neighbours, and the
    notice when [n > 23]; that is [2 * min n 23 + 1] blocks, plus one beyond
    23 events (48 at most). *)
Theorem buildBlocks_document_size (now : Z) (chapterName chapterUrl : string)
    (events : list SolidarityEvent) (daysAhead : number)
    (blocks : list Block) :
  buildBlocks now chapterName chapterUrl events daysAhead = Ok blocks ->
  length blocks = document_size (length events)
  /\ (length blocks <= 48)%nat.
Proof.
  intros Hb. apply buildBlocks_Ok_iff in Hb.
  destruct Hb as (dr & _ & [[-> ->]|[Hne (secs & Hsecs & ->)]]).
  - split; [reflexivity|simpl; lia].
  - pose proof (renders_length _ _ Hsecs) as Hlen.
    rewrite length_take in Hlen.
    assert (Hpos : (0 < length events)%nat).
    { destruct events; [congruence|simpl; lia]. }
    unfold document_size, overflow_part.
    destruct (Nat.eqb_spec (length events) 0); [lia|].
    cbn [length]. rewrite length_app, separated_length, Hlen.
    destruct (23 <? length events)%nat; simpl length; lia.
Qed.

(** X10.  Events beyond the 23rd are counted and not looked at: two lists of
    the same length that agree on their first 23 events give the same
    document, or the same exception.  A stamp that does not parse does no
    harm beyond position 23. *)
Theorem buildBlocks_ignores_events_beyond_23 (now : Z)
    (chapterName chapterUrl : string) (events1 events2 : list SolidarityEvent)
    (daysAhead : number) :
  length events1 = length events2 ->
  take 23 events1 = take 23 events2 ->
  buildBlocks now chapterName chapterUrl events1 daysAhead
  = buildBlocks now chapterName chapterUrl events2 daysAhead.
Proof.
  intros Hlen Htake. destruct events1 as [|e1 events1].
  - destruct events2; [reflexivity|discriminate].
  - destruct events2 as [|e2 events2]; [discriminate|].
    rewrite !buildBlocks_nonempty by discriminate.
    now rewrite Htake, Hlen.
Qed.

(** X11.  The zone of the start time is left out: when the host prints the
    start time as a time, a space and a zone word, [formatDateRange] shows
    the time alone before the dash, and the end time in full after it. *)
Theorem formatDateRange_elides_start_zone (startTime endTime : Z)
    (time zone : string) :
  TIME_FMT startTime = time +:+ " " +:+ zone ->
  last_is_space time = false ->
  word_run zone = true ->
  formatDateRange (Num startTime) (Num endTime)
  = Ok (SHORT_WEEKDAY startTime +:+ ", " +:+ SHORT_DATE startTime +:+ " · "
        +:+ time +:+ "–" +:+ TIME_FMT endTime).
Proof.
  intros Hfmt Htime Hzone. unfold formatDateRange. simpl.
  now rewrite Hfmt, drop_trailing_word_zone.
Qed.
End MessageBuilderMore.

(** ** More on the driver *)

Section DriverMore.
Context `{Host} `{Outside}.

Lemma fetchAllEvents_world (fuel : nat) (chapterId : Z) (w w' : World)
    (r : result (list SolidarityEvent)) :
  fetchAllEvents fuel chapterId w = Some (r, w') ->
  exists k, (1 <= k <= fuel)%nat
    /\ w' = with_requests w (page_urls chapterId k).
Proof.
  intros Hrun. apply fetch_loop_requests in Hrun.
  destruct Hrun as (k & Hk & ->). exists k. split; [exact Hk|].
  f_equal. unfold page_urls. apply map_ext. intros i. f_equal. lia.
Qed.

Lemma buildBlocks_Ok_at_most_50 (now : Z) (chapterName chapterUrl : string)
    (events : list SolidarityEvent) (daysAhead : number)
    (blocks : list Block) :
  buildBlocks now chapterName chapterUrl events daysAhead = Ok blocks ->
  (length blocks <= 50)%nat.
Proof.
  intros Hb. apply buildBlocks_Ok_iff in Hb.
  destruct Hb as (dr & _ & [[_ ->]|[_ (secs & Hsecs & ->)]]); [simpl; lia|].
  apply document_length. rewrite (renders_length _ _ Hsecs), length_take.
  lia.
Qed.

(** What a finished run of one chapter has done to the world. *)
Lemma postChapter_effects (fuel : nat) (m : ChapterMapping)
    (daysAhead : number) (w w' : World) (r : result unit) :
  postChapter fuel m daysAhead w = Some (r, w') ->
  (exists k, (1 <= k)%nat
     /\ requests w' = requests w ++ page_urls (chapterId m) k)
  /\ match r with
     | Throw _ => posted w' = posted w
     | Ok _ =>
         exists allEvents blocks,
           let events :=
             filterAndSortEvents (clock (clock_reads w)) allEvents daysAhead in
           buildBlocks (clock (S (clock_reads w))) (name m) (pageUrl m)
                       events daysAhead = Ok blocks
           /\ posted w'
              = posted w
                ++ [{| msg_channel := channelId m;
                       msg_text := fallbackText (name m) events daysAhead;
                       msg_blocks := blocks |}]
     end.
Proof.
  unfold postChapter. cbv zeta. intros Hrun.
  destruct (fetchAllEvents fuel (chapterId m) (console_log _ w))
    as [[[allEvents|err] w1]|] eqn:Hfetch; [| |discriminate];
    apply fetchAllEvents_world in Hfetch; destruct Hfetch as (k & Hk & ->).
  - unfold read_clock, console_log, with_requests in Hrun.
    cbn [clock_reads console requests posted] in Hrun.
    destruct (buildBlocks (clock (S (clock_reads w))) (name m) (pageUrl m)
                (filterAndSortEvents (clock (clock_reads w)) allEvents
                   daysAhead) daysAhead) as [blocks|err] eqn:Hblocks.
    + unfold do_post, console_log in Hrun.
      cbn [clock_reads console requests posted] in Hrun.
      destruct (chat_postMessage (length (posted w)) _) as [[]|err] eqn:Hpost;
        inversion Hrun; subst; cbn [clock_reads console requests posted].
      * split; [exists k; split; [lia|reflexivity]|].
        exists allEvents, blocks. split; [exact Hblocks|reflexivity].
      * split; [exists k; split; [lia|reflexivity]|reflexivity].
    + inversion Hrun; subst. cbn [clock_reads console requests posted].
      split; [exists k; split; [lia|reflexivity]|reflexivity].
  - inversion Hrun; subst. unfold with_requests, console_log.
    cbn [clock_reads console requests posted].
    split; [exists k; split; [lia|reflexivity]|reflexivity].
Qed.

(** X12.  A chapter posts at most once and only at its very end: a run of
    [postChapter] that throws (in the fetch, in the builder or in the post
    itself) has posted nothing; a run that returns has posted exactly one
    message, to the channel of its mapping, whose blocks (50 at most) and
    fallback text are built from the same filtered events.  The filter works
    with the first reading of the clock, the builder with the second. *)
Theorem postChapter_posts_once_or_not_at_all (fuel : nat) (m : ChapterMapping)
    (daysAhead : number) (w w' : World) (r : result unit) :
  postChapter fuel m daysAhead w = Some (r, w') ->
  (forall err, r = Throw err -> posted w' = posted w)
  /\ (r = Ok () ->
      exists allEvents blocks,
        let events :=
          filterAndSortEvents (clock (clock_reads w)) allEvents daysAhead in
        buildBlocks (clock (S (clock_reads w))) (name m) (pageUrl m)
                    events daysAhead = Ok blocks
        /\ (length blocks <= 50)%nat
        /\ posted w'
           = posted w
             ++ [{| msg_channel := channelId m;
                    msg_text := fallbackText (name m) events daysAhead;
                    msg_blocks := blocks |}]).
Proof.
  intros Hrun. apply postChapter_effects in Hrun. destruct Hrun as [_ Hr].
  split.
  - intros err ->. exact Hr.
  - intros ->. destruct Hr as (allEvents & blocks & Hb & Hp).
    exists allEvents, blocks. split; [exact Hb|]. split; [|exact Hp].
    eapply buildBlocks_Ok_at_most_50, Hb.
Qed.

Lemma invalid_config_lines (line : string) :
  In line ["Missing SOLIDARITY_TECH_API_KEY"; "Missing SLACK_BOT_TOKEN";
           "Missing CHAPTER_CHANNEL_MAPPING";
           "CHAPTER_CHANNEL_MAPPING is not valid JSON";
           "CHAPTER_CHANNEL_MAPPING must be a non-empty JSON array"]
  <-> line = "Missing SOLIDARITY_TECH_API_KEY"
      \/ line = "Missing SLACK_BOT_TOKEN"
      \/ line = "Missing CHAPTER_CHANNEL_MAPPING"
      \/ line = "CHAPTER_CHANNEL_MAPPING is not valid JSON"
      \/ line = "CHAPTER_CHANNEL_MAPPING must be a non-empty JSON array".
Proof. simpl. intuition congruence. Qed.

(** X13.  A configuration that is not valid (a missing key, token or
    mapping, a mapping that is no JSON or no non-empty array) ends the
    process with exit code 1 before any chapter is touched: one error line
    is written, and no request is sent, no message posted and the clock not
    read, however many chapters the mapping would name. *)
Theorem main_rejects_invalid_config (fuel : nat) (env : ProcessEnv)
    (w : World) :
  (forall mappings, ~ valid_config env mappings) ->
  exists line,
    main fuel env w
    = Some (1, {| console := console w ++ [ConsoleError line None];
                  requests := requests w;
                  posted := posted w;
                  clock_reads := clock_reads w |})
    /\ In line ["Missing SOLIDARITY_TECH_API_KEY"; "Missing SLACK_BOT_TOKEN";
                "Missing CHAPTER_CHANNEL_MAPPING";
                "CHAPTER_CHANNEL_MAPPING is not valid JSON";
                "CHAPTER_CHANNEL_MAPPING must be a non-empty JSON array"].
Proof.
  intros Hinvalid. unfold main, exit_with.
  destruct (nonempty (SOLIDARITY_TECH_API_KEY env)) eqn:Hkey; cbn [negb].
  2:{ eexists. split; [reflexivity|]. apply invalid_config_lines. tauto. }
  destruct (nonempty (SLACK_BOT_TOKEN env)) eqn:Htoken; cbn [negb].
  2:{ eexists. split; [reflexivity|]. apply invalid_config_lines. tauto. }
  destruct (nonempty (CHAPTER_CHANNEL_MAPPING_RAW env)) eqn:Hraw; cbn [negb].
  2:{ eexists. split; [reflexivity|]. apply invalid_config_lines. tauto. }
  destruct (JSON_parse (CHAPTER_CHANNEL_MAPPING_RAW env))
    as [[[|m rest]|]|err] eqn:Hparse.
  - eexists. split; [reflexivity|]. apply invalid_config_lines. tauto.
  - exfalso. apply (Hinvalid (m :: rest)).
    apply nonempty_true_iff in Hkey, Htoken, Hraw.
    repeat split; try assumption. discriminate.
  - eexists. split; [reflexivity|]. apply invalid_config_lines. tauto.
  - eexists. split; [reflexivity|]. apply invalid_config_lines. tauto.
Qed.

Lemma main_runs (fuel : nat) (env : ProcessEnv)
    (mappings : list ChapterMapping) (w : World) :
  valid_config env mappings ->
  Forall (chapter_returns fuel (EVENTS_DAYS_AHEAD env)) mappings ->
  exists outcomes w',
    chapters_run fuel (EVENTS_DAYS_AHEAD env) mappings w outcomes w'
    /\ main fuel env w
       = Some (if existsb failed outcomes then 1 else 0, w').
Proof.
  intros (Hkey & Htoken & Hraw & Hparse & Hne) Hret.
  destruct (chapterLoop_runs fuel (EVENTS_DAYS_AHEAD env) mappings false w
              Hret) as (outcomes & w' & Hrun & Hloop).
  exists outcomes, w'. split; [exact Hrun|].
  unfold main.
  rewrite (proj2 (nonempty_true_iff _) Hkey).
  rewrite (proj2 (nonempty_true_iff _) Htoken).
  rewrite (proj2 (nonempty_true_iff _) Hraw).
  cbn [negb]. rewrite Hparse.
  destruct mappings as [|m rest]; [congruence|].
  now rewrite Hloop.
Qed.

Lemma successes_all (mappings : list ChapterMapping)
    (outcomes : list (result unit)) :
  length outcomes = length mappings ->
  existsb failed outcomes = false ->
  successes mappings outcomes = mappings.
Proof.
  revert outcomes. induction mappings as [|m rest IH];
    intros [|[u|err] outcomes] Hlen Hnone; try discriminate.
  - reflexivity.
  - simpl in *. f_equal. apply IH; [lia|exact Hnone].
Qed.

(** What a run of the chapters has done to the world. *)
Lemma chapters_run_effects (fuel : nat) (daysAhead : number)
    (mappings : list ChapterMapping) (w w' : World)
    (outcomes : list (result unit)) :
  chapters_run fuel daysAhead mappings w outcomes w' ->
  exists msgs ks,
    posted w' = posted w ++ msgs
    /\ List.map msg_channel msgs
       = List.map channelId (successes mappings outcomes)
    /\ Forall (fun msg => (length (msg_blocks msg) <= 50)%nat) msgs
    /\ requests w' = requests w ++ chapter_requests mappings ks
    /\ length ks = length mappings
    /\ Forall (fun k => (1 <= k)%nat) ks.
Proof.
  induction 1 as [w|m rest w w1 w2 outcomes Hpost _ IH
                 |m rest w w1 w2 err outcomes Hpost _ IH].
  - exists [], []. rewrite !app_nil_r. repeat split; constructor.
  - destruct IH as (msgs & ks & Hp & Hch & H50 & Hreq & Hlen & Hks).
    apply postChapter_effects in Hpost.
    destruct Hpost as [(k & Hk & Hrq) (allEvents & blocks & Hb & Hposted)].
    eexists (_ :: msgs), (k :: ks). split; [|split; [|split; [|split; [|split]]]].
    + rewrite Hp, Hposted, <- app_assoc. reflexivity.
    + simpl. now rewrite Hch.
    + constructor; [|exact H50]. simpl.
      eapply buildBlocks_Ok_at_most_50, Hb.
    + rewrite Hreq, Hrq, <- app_assoc. reflexivity.
    + simpl. now rewrite Hlen.
    + now constructor.
  - destruct IH as (msgs & ks & Hp & Hch & H50 & Hreq & Hlen & Hks).
    apply postChapter_effects in Hpost.
    destruct Hpost as [(k & Hk & Hrq) Hposted].
    exists msgs, (k :: ks). split; [|split; [|split; [|split; [|split]]]].
    + rewrite Hp. simpl. now rewrite Hposted.
    + exact Hch.
    + exact H50.
    + rewrite Hreq. simpl. rewrite Hrq, <- app_assoc. reflexivity.
    + simpl. now rewrite Hlen.
    + now constructor.
Qed.

(** X14.  One message per chapter that succeeds: under a valid
    configuration and with every chapter's run ending, [main] ends having
    posted, in input order, exactly one message to the channel of each
    chapter that did not fail and none for a chapter that failed, each of at
    most 50 blocks.  With exit code 0 every configured channel got its
    message. *)
Theorem main_posts_one_message_per_success (fuel : nat) (env : ProcessEnv)
    (mappings : list ChapterMapping) (w : World) :
  valid_config env mappings ->
  Forall (chapter_returns fuel (EVENTS_DAYS_AHEAD env)) mappings ->
  exists outcomes code w' msgs,
    main fuel env w = Some (code, w')
    /\ chapters_run fuel (EVENTS_DAYS_AHEAD env) mappings w outcomes w'
    /\ posted w' = posted w ++ msgs
    /\ List.map msg_channel msgs
       = List.map channelId (successes mappings outcomes)
    /\ Forall (fun msg => (length (msg_blocks msg) <= 50)%nat) msgs
    /\ (code = 0 -> List.map msg_channel msgs = List.map channelId mappings).
Proof.
  intros Hconfig Hret.
  destruct (main_runs fuel env mappings w Hconfig Hret)
    as (outcomes & w' & Hrun & Hmain).
  destruct (chapters_run_effects _ _ _ _ _ _ Hrun)
    as (msgs & ks & Hp & Hch & H50 & _).
  exists outcomes, (if existsb failed outcomes then 1 else 0), w', msgs.
  split; [exact Hmain|]. split; [exact Hrun|]. split; [exact Hp|].
  split; [exact Hch|]. split; [exact H50|].
  intros Hcode. rewrite Hch. f_equal. apply successes_all.
  - eapply chapters_run_length, Hrun.
  - destruct (existsb failed outcomes); [discriminate|reflexivity].
Qed.

(** X15.  The driver asks the events API for the configured chapters and
    for nothing else: the requests of a run are, chapter after chapter in
    input order, the pages [1 .. k] of that chapter with [k >= 1]; a chapter
    that fails is not asked again. *)
Theorem main_requests_configured_chapters_only (fuel : nat) (env : ProcessEnv)
    (mappings : list ChapterMapping) (w : World) :
  valid_config env mappings ->
  Forall (chapter_returns fuel (EVENTS_DAYS_AHEAD env)) mappings ->
  exists code w' ks,
    main fuel env w = Some (code, w')
    /\ requests w' = requests w ++ chapter_requests mappings ks
    /\ length ks = length mappings
    /\ Forall (fun k => (1 <= k)%nat) ks.
Proof.
  intros Hconfig Hret.
  destruct (main_runs fuel env mappings w Hconfig Hret)
    as (outcomes & w' & Hrun & Hmain).
  destruct (chapters_run_effects _ _ _ _ _ _ Hrun)
    as (msgs & ks & _ & _ & _ & Hreq & Hlen & Hks).
  exists (if existsb failed outcomes then 1 else 0), w', ks.
  repeat split; assumption.
Qed.
End DriverMore.

(* ===================================================================== *)
(** * Part IV: the example run                                            *)
(* ===================================================================== *)

Import RefHost Example.

(** The scenarios of the specification, on the reference host. *)

Example scenario_no_events :
  buildBlocks T0 "Washtenaw County" "https://example.org/w" [] (Num 7)
  = Ok [HeaderBlock (PlainText "📅 Upcoming Events — Washtenaw County" true);
        ContextBlock
          [Mrkdwn "Next 7 days · Mar 1 – Mar 8 · <https://example.org/w|All Events>"];
        SectionBlock (Mrkdwn "No upcoming events in the next 7 days.")].
Proof. vm_compute. reflexivity. Qed.

Example scenario_virtual_two_sessions :
  List.map block_type
    <$> buildBlocks T0 "Washtenaw County" "https://example.org/w"
          (filterAndSortEvents T0 [webinar] (Num 7)) (Num 7)
  = Ok ["header"; "context"; "section"].
Proof. vm_compute. reflexivity. Qed.

Example scenario_thirty_events :
  last <$> buildBlocks T0 "Washtenaw County" "https://example.org/w"
             (take 30 hundred_events) (Num 7)
  = Ok (Some (ContextBlock
                [Mrkdwn "_+7 more events later this week not shown._"])).
Proof. vm_compute. reflexivity. Qed.

Example scenario_filter :
  List.map event_id (filterAndSortEvents T0 mixed_events (Num 7)) = [3; 7].
Proof. vm_compute. reflexivity. Qed.

Example scenario_run :
  fst <$> main 3 env start = Some 1.
Proof. vm_compute. reflexivity. Qed.

(** The theorems at the example. *)

Lemma filterAndSortEvents_excludes_iff_witness :
  In excluded mixed_events
  /\ (~ (exists e', In e' (filterAndSortEvents T0 mixed_events (Num 7))
                    /\ restricted_to_window T0 (Num 7) excluded e')
      <-> lacks_page_url excluded \/ has_exclusion_tag excluded
          \/ no_session_in_window T0 (Num 7) excluded).
Proof.
  assert (Hin : In excluded mixed_events) by (simpl; tauto).
  split; [exact Hin|].
  exact (proj1 (filterAndSortEvents_excludes_iff T0 (Num 7) mixed_events)
           excluded Hin).
Defined.

Lemma fetchAllEvents_returns_all_pages_witness :
  short_page (pages 1)
  /\ (forall j, (j <= 1)%nat -> answers_page start 123 j (pages j))
  /\ exists n, (n <= 1)%nat
       /\ (forall j, (j < n)%nat -> full_page (pages j))
       /\ short_page (pages n)
       /\ (forall fuel, (n < fuel)%nat ->
             fetchAllEvents fuel 123 start
             = Some (Ok (pages_upto pages (S n)),
                     with_requests start (page_urls 123 (S n))))
       /\ (pages n = [] ->
             forall fuel, (n < fuel)%nat ->
               fetchAllEvents fuel 123 start
               = Some (Ok (pages_upto pages n),
                       with_requests start
                         (page_urls 123 n
                          ++ [events_url 123 (Z.of_nat n + 1)]))).
Proof.
  assert (Hshort : short_page (pages 1)) by (vm_compute; lia).
  assert (Hans : forall j, (j <= 1)%nat -> answers_page start 123 j (pages j)).
  { intros [|[|j]] Hj; [| |lia];
      (do 2 eexists; split; [vm_compute; reflexivity|];
       repeat split; reflexivity). }
  split; [exact Hshort|]. split; [exact Hans|].
  exact (fetchAllEvents_returns_all_pages 123 pages start 1 Hshort Hans).
Defined.

Lemma buildBlocks_no_events_witness :
  window_end_valid T0 (Num 7)
  /\ exists dateRange,
       buildBlocks T0 "Washtenaw County" "https://example.org/w" [] (Num 7)
       = Ok [HeaderBlock
               (PlainText (ICON_CALENDAR +:+ " Upcoming Events — "
                           +:+ "Washtenaw County") true);
             subtitleBlock "https://example.org/w" (Num 7) dateRange;
             SectionBlock
               (Mrkdwn ("No upcoming events in the next "
                        +:+ num_to_string (Num 7) +:+ " days."))].
Proof.
  assert (Hvalid : window_end_valid T0 (Num 7)) by (vm_compute; exact I).
  split; [exact Hvalid|].
  exact (proj1 (buildBlocks_no_events T0 "Washtenaw County"
                  "https://example.org/w" (Num 7) Hvalid)).
Defined.
Lemma visible_sessions_dated : Forall sessions_dated (take 23 hundred_events).
Proof.
  apply List.Forall_forall. intros e He. apply sessions_datedb_true.
  revert e He. apply List.Forall_forall, forallb_Forall_true.
  vm_compute. reflexivity.
Qed.

Lemma buildBlocks_budget_witness :
  window_end_valid T0 (Num 7)
  /\ Forall sessions_dated (take 23 hundred_events)
  /\ exists dateRange sections blocks,
       buildBlocks T0 "Washtenaw County" "https://example.org/w"
                   hundred_events (Num 7) = Ok blocks
       /\ renders (take 23 hundred_events) sections
       /\ (hundred_events <> [] ->
           blocks = headerBlock "Washtenaw County"
                    :: subtitleBlock "https://example.org/w" (Num 7) dateRange
                    :: separated sections
                       ++ overflow_part (length hundred_events))
       /\ ((length hundred_events <= 23)%nat ->
           renders hundred_events sections
           /\ overflow_part (length hundred_events) = []
           /\ Forall (fun b => ~ is_overflow_notice b) blocks)
       /\ ((23 < length hundred_events)%nat ->
           length sections = 23%nat
           /\ blocks = headerBlock "Washtenaw County"
                       :: subtitleBlock "https://example.org/w" (Num 7)
                                        dateRange
                       :: separated sections
                          ++ [overflowNotice (length hundred_events - 23)]).
Proof.
  assert (Hvalid : window_end_valid T0 (Num 7)) by (vm_compute; exact I).
  split; [exact Hvalid|]. split; [exact visible_sessions_dated|].
  exact (proj1 (proj2 (buildBlocks_budget T0 "Washtenaw County"
                         "https://example.org/w" hundred_events (Num 7)))
           Hvalid visible_sessions_dated).
Defined.

Lemma buildBlocks_no_trailing_divider_witness :
  hundred_events <> []
  /\ window_end_valid T0 (Num 7)
  /\ Forall sessions_dated (take 23 hundred_events)
  /\ exists sections blocks,
       buildBlocks T0 "Washtenaw County" "https://example.org/w"
                   hundred_events (Num 7) = Ok blocks
       /\ renders (take 23 hundred_events) sections
       /\ (forall i sec, sections !! i = Some sec ->
             blocks !! (2 + 2 * i)%nat = Some sec)
       /\ (forall i, (S i < length sections)%nat ->
             blocks !! (2 + 2 * i + 1)%nat = Some DividerBlock)
       /\ ((length hundred_events <= 23)%nat ->
             blocks !! (2 + 2 * (length sections - 1) + 1)%nat = None
             /\ exists e sec, last hundred_events = Some e
                              /\ eventSection e = Ok sec
                              /\ last blocks = Some sec)
       /\ ((23 < length hundred_events)%nat ->
             blocks !! (2 + 2 * (length sections - 1) + 1)%nat
               = Some (overflowNotice (length hundred_events - 23))
             /\ last blocks = Some (overflowNotice (length hundred_events - 23)))
       /\ last blocks <> Some DividerBlock.
Proof.
  assert (Hne : hundred_events <> []) by discriminate.
  assert (Hvalid : window_end_valid T0 (Num 7)) by (vm_compute; exact I).
  split; [exact Hne|]. split; [exact Hvalid|].
  split; [exact visible_sessions_dated|].
  exact (buildBlocks_no_trailing_divider T0 "Washtenaw County"
           "https://example.org/w" hundred_events (Num 7) Hne Hvalid
           visible_sessions_dated).
Defined.

Lemma webinar_sessions_dated : sessions_dated webinar.
Proof. apply sessions_datedb_true. vm_compute. reflexivity. Qed.

Lemma session_line_segments_witness :
  sessions_dated webinar
  /\ exists lines,
       eventSection webinar
       = Ok (SectionBlock
               (Mrkdwn (title_link webinar +:+ NEWLINE +:+ join NEWLINE lines)))
       /\ Forall2
            (fun s line =>
               exists timeStr,
                 formatDateRange (Date_parse (start_time s))
                                 (Date_parse (end_time s)) = Ok timeStr
                 /\ line = ICON_CALENDAR +:+ " *" +:+ timeStr +:+ "*"
                           +:+ location_segment webinar s
                           +:+ label_segment webinar)
            (event_sessions webinar) lines.
Proof.
  split; [exact webinar_sessions_dated|].
  exact (proj1 (session_line_segments webinar webinar_sessions_dated)).
Defined.

Lemma buildBlocks_determined_with_clock_witness :
  formatHeaderDateRange T0 (Num 7)
  = formatHeaderDateRange (T0 + 3600000) (Num 7)
  /\ buildBlocks T0 "Washtenaw County" "https://example.org/w"
                 [webinar] (Num 7)
     = buildBlocks (T0 + 3600000) "Washtenaw County" "https://example.org/w"
                   [webinar] (Num 7).
Proof.
  assert (Hrange : formatHeaderDateRange T0 (Num 7)
                   = formatHeaderDateRange (T0 + 3600000) (Num 7))
    by (vm_compute; reflexivity).
  split; [exact Hrange|].
  exact (buildBlocks_determined_with_clock T0 (T0 + 3600000)
           "Washtenaw County" "https://example.org/w" [webinar] (Num 7) Hrange).
Defined.

(** C4, as the claim states it, fails: the same four arguments give two
    different documents on two different days, because the subtitle shows
    the date range of the window counted from the day of the call. *)
Lemma buildBlocks_reads_the_clock :
  ~ (forall (host : Host) (now1 now2 : Z) (chapterName chapterUrl : string)
            (events : list SolidarityEvent) (daysAhead : number),
        @buildBlocks host now1 chapterName chapterUrl events daysAhead
        = @buildBlocks host now2 chapterName chapterUrl events daysAhead).
Proof.
  intros Hsame.
  specialize (Hsame RefHost.host T0 (T0 + 86400000) "Washtenaw County"
                "https://example.org/w" [] (Num 7)).
  vm_compute in Hsame. discriminate Hsame.
Qed.

Lemma example_chapters_return :
  Forall (chapter_returns 3 (Num 7)) example_mappings.
Proof.
  repeat constructor; intros w; vm_compute; eexists; reflexivity.
Qed.

Lemma main_attempts_every_chapter_witness :
  valid_config env example_mappings
  /\ Forall (chapter_returns 3 (EVENTS_DAYS_AHEAD env)) example_mappings
  /\ exists outcomes code w',
       main 3 env start = Some (code, w')
       /\ chapters_run 3 (EVENTS_DAYS_AHEAD env) example_mappings start
                       outcomes w'
       /\ length outcomes = length example_mappings
       /\ (exists lines, console w' = console start ++ lines
                         /\ sublist (List.map attempt_line example_mappings)
                                    lines)
       /\ (forall i m err,
             example_mappings !! i = Some m ->
             outcomes !! i = Some (Throw err) ->
             In (failure_line m err) (console w'))
       /\ (code <> 0 <-> exists i err, outcomes !! i = Some (Throw err))
       /\ code = (if existsb failed outcomes then 1 else 0).
Proof.
  assert (Hconfig : valid_config env example_mappings).
  { repeat split; try discriminate. }
  split; [exact Hconfig|]. split; [exact example_chapters_return|].
  exact (main_attempts_every_chapter 3 env example_mappings start Hconfig
           example_chapters_return).
Defined.

Lemma memory_holds_webinar : events_rep memory 1%positive [webinar].
Proof.
  exists [2%positive]. split; [reflexivity|].
  constructor; [|constructor].
  exists webinar_object. repeat split.
  exists [5%positive; 6%positive; 7%positive]. split; [reflexivity|].
  repeat constructor.
Qed.

Lemma filterAndSortEvents_keeps_input_witness :
  events_rep memory 1%positive [webinar]
  /\ exists out h',
       filterAndSortEvents_in_memory T0 1%positive (Num 7) memory
       = Some (out, h')
       /\ unchanged memory h'
       /\ events_rep h' 1%positive [webinar]
       /\ events_rep h' out (filterAndSortEvents T0 [webinar] (Num 7))
       /\ result_is_new memory h' out
       /\ result_shares_with_input memory h' 1%positive out.
Proof.
  split; [exact memory_holds_webinar|].
  exact (filterAndSortEvents_keeps_input T0 (Num 7) memory 1%positive
           [webinar] memory_holds_webinar).
Defined.

(** C10, as the claim states it, fails in its last part: not every array of
    the result is new.  The event object of the result carries the tags
    array of the input event (here the array at 4), because the spread copies
    the reference. *)
Lemma result_shares_the_tags_array :
  ~ (forall (host : Host) (now : Z) (daysAhead : number) (h : heap)
            (events : loc) (input : list SolidarityEvent),
        events_rep h events input ->
        exists out h',
          @filterAndSortEvents_in_memory host now events daysAhead h
          = Some (out, h')
          /\ unchanged h h'
          /\ result_entirely_new h h' out).
Proof.
  intros Hclaim.
  destruct (Hclaim RefHost.host T0 (Num 7) memory 1%positive [webinar]
              memory_holds_webinar)
    as (out & h' & Hrun & _ & _ & ls & Hout & Hall).
  vm_compute in Hrun. inversion Hrun; subst out h'. clear Hrun.
  vm_compute in Hout. inversion Hout; subst ls. clear Hout.
  inversion Hall as [|ev rest (_ & o & Ho & _ & Htags) _]; subst.
  vm_compute in Ho. inversion Ho; subst o. clear Ho.
  vm_compute in Htags. discriminate Htags.
Qed.

(** The further properties at the example. *)

Lemma example_fetch_returns :
  fetchAllEvents 3 123 start
  = Some (Ok hundred_events, with_requests start (page_urls 123 2)).
Proof. vm_compute. reflexivity. Qed.

Lemma fetchAllEvents_requests_pages_in_order_witness :
  fetchAllEvents 3 123 start
  = Some (Ok hundred_events, with_requests start (page_urls 123 2))
  /\ exists k, (1 <= k <= 3)%nat
       /\ requests (with_requests start (page_urls 123 2))
          = requests start ++ page_urls 123 k
       /\ console (with_requests start (page_urls 123 2)) = console start
       /\ posted (with_requests start (page_urls 123 2)) = posted start
       /\ clock_reads (with_requests start (page_urls 123 2))
          = clock_reads start.
Proof.
  split; [exact example_fetch_returns|].
  exact (fetchAllEvents_requests_pages_in_order 3 123 start _ _
           example_fetch_returns).
Defined.

Lemma fetchAllEvents_fails_with_the_page_witness :
  (forall j, (j < 0)%nat ->
     answers_page start 456 j (pages j) /\ full_page (pages j))
  /\ response_failure
       (fetch (length (requests start) + 0) (events_url 456 (Z.of_nat 0 + 1)))
     = Some (api_error 500 "Internal Server Error")
  /\ forall fuel, (0 < fuel)%nat ->
       fetchAllEvents fuel 456 start
       = Some (Throw (api_error 500 "Internal Server Error"),
               with_requests start (page_urls 456 1)).
Proof.
  assert (Hfull : forall j, (j < 0)%nat ->
            answers_page start 456 j (pages j) /\ full_page (pages j))
    by (intros j Hj; lia).
  assert (Hfail : response_failure
                    (fetch (length (requests start) + 0)
                           (events_url 456 (Z.of_nat 0 + 1)))
                  = Some (api_error 500 "Internal Server Error"))
    by (vm_compute; reflexivity).
  split; [exact Hfull|]. split; [exact Hfail|].
  exact (proj1 (fetchAllEvents_fails_with_the_page 456 pages start 0
                  (api_error 500 "Internal Server Error") Hfull Hfail)).
Defined.

Lemma fetchAllEvents_never_ends_on_full_pages_witness :
  (forall j, @answers_page endless start 123 j hundred_events
             /\ full_page hundred_events)
  /\ forall fuel, @fetchAllEvents endless fuel 123 start = None.
Proof.
  assert (Hfull : forall j, @answers_page endless start 123 j hundred_events
                            /\ full_page hundred_events).
  { intros j. split; [|vm_compute; lia].
    exists (page_of (Some hundred_events)), {| data := Some hundred_events |}.
    repeat split. }
  split; [exact Hfull|].
  exact (@fetchAllEvents_never_ends_on_full_pages endless 123
           (fun _ => hundred_events) start Hfull).
Defined.

Lemma fetchAllEvents_result_is_complete_witness :
  fetchAllEvents 3 123 start
  = Some (Ok hundred_events, with_requests start (page_urls 123 2))
  /\ exists (full : list (list SolidarityEvent)) (short : list SolidarityEvent),
       hundred_events = concat full ++ short
       /\ Forall full_page full
       /\ short_page short
       /\ (forall j p, (full ++ [short]) !! j = Some p ->
             answers_page start 123 j p)
       /\ requests (with_requests start (page_urls 123 2))
          = requests start ++ page_urls 123 (S (length full)).
Proof.
  split; [exact example_fetch_returns|].
  exact (fetchAllEvents_result_is_complete 3 123 start _ _
           example_fetch_returns).
Defined.

Lemma filterAndSortEvents_empty_window_witness :
  -1 < 0 /\ filterAndSortEvents T0 mixed_events (Num (-1)) = [].
Proof.
  assert (Hneg : -1 < 0) by lia.
  split; [exact Hneg|].
  exact (filterAndSortEvents_empty_window T0 (Num (-1)) mixed_events Hneg).
Defined.

Lemma filterAndSortEvents_window_grows_witness :
  1 <= 7
  /\ (length (filterAndSortEvents T0 mixed_events (Num 1))
      <= length (filterAndSortEvents T0 mixed_events (Num 7)))%nat.
Proof.
  assert (Hle : 1 <= 7) by lia.
  split; [exact Hle|].
  exact (proj2 (proj2 (filterAndSortEvents_window_grows T0 1 7 mixed_events
                         Hle))).
Defined.

Lemma buildBlocks_document_size_witness :
  exists blocks,
    buildBlocks T0 "Washtenaw County" "https://example.org/w"
                hundred_events (Num 7) = Ok blocks
    /\ length blocks = document_size (length hundred_events)
    /\ (length blocks <= 48)%nat.
Proof.
  assert (Hex : exists blocks,
            buildBlocks T0 "Washtenaw County" "https://example.org/w"
                        hundred_events (Num 7) = Ok blocks)
    by (eexists; vm_compute; reflexivity).
  destruct Hex as (blocks & Hb). exists blocks. split; [exact Hb|].
  exact (buildBlocks_document_size T0 "Washtenaw County"
           "https://example.org/w" hundred_events (Num 7) blocks Hb).
Defined.

Lemma buildBlocks_ignores_events_beyond_23_witness :
  length hundred_events
  = length (take 23 hundred_events ++ List.repeat far_away 77)
  /\ take 23 hundred_events
     = take 23 (take 23 hundred_events ++ List.repeat far_away 77)
  /\ buildBlocks T0 "Washtenaw County" "https://example.org/w"
                 hundred_events (Num 7)
     = buildBlocks T0 "Washtenaw County" "https://example.org/w"
                   (take 23 hundred_events ++ List.repeat far_away 77)
                   (Num 7).
Proof.
  assert (Hlen : length hundred_events
                 = length (take 23 hundred_events ++ List.repeat far_away 77))
    by (vm_compute; reflexivity).
  assert (Htake : take 23 hundred_events
                  = take 23 (take 23 hundred_events
                             ++ List.repeat far_away 77))
    by (vm_compute; reflexivity).
  split; [exact Hlen|]. split; [exact Htake|].
  exact (buildBlocks_ignores_events_beyond_23 T0 "Washtenaw County"
           "https://example.org/w" hundred_events _ (Num 7) Hlen Htake).
Defined.

Lemma formatDateRange_elides_start_zone_witness :
  TIME_FMT T0 = "9:00 AM" +:+ " " +:+ "EST"
  /\ last_is_space "9:00 AM" = false
  /\ word_run "EST" = true
  /\ formatDateRange (Num T0) (Num (T0 + 5400000))
     = Ok (SHORT_WEEKDAY T0 +:+ ", " +:+ SHORT_DATE T0 +:+ " · "
           +:+ "9:00 AM" +:+ "–" +:+ TIME_FMT (T0 + 5400000)).
Proof.
  assert (Hfmt : TIME_FMT T0 = "9:00 AM" +:+ " " +:+ "EST")
    by (vm_compute; reflexivity).
  assert (Htime : last_is_space "9:00 AM" = false) by reflexivity.
  assert (Hzone : word_run "EST" = true) by reflexivity.
  split; [exact Hfmt|]. split; [exact Htime|]. split; [exact Hzone|].
  exact (formatDateRange_elides_start_zone T0 (T0 + 5400000) "9:00 AM" "EST"
           Hfmt Htime Hzone).
Defined.

Lemma postChapter_posts_once_or_not_at_all_witness :
  exists w',
    postChapter 3 {| chapterId := 456; channelId := "C9876543210";
                     name := "Wayne County";
                     pageUrl := "https://example.org/y" |}
                (Num 7) start
    = Some (Throw (api_error 500 "Internal Server Error"), w')
    /\ posted w' = posted start.
Proof.
  assert (Hex : exists w',
            postChapter 3 {| chapterId := 456; channelId := "C9876543210";
                             name := "Wayne County";
                             pageUrl := "https://example.org/y" |}
                        (Num 7) start
            = Some (Throw (api_error 500 "Internal Server Error"), w'))
    by (eexists; vm_compute; reflexivity).
  destruct Hex as (w' & Hrun). exists w'. split; [exact Hrun|].
  exact (proj1 (postChapter_posts_once_or_not_at_all 3 _ (Num 7) start w' _
                  Hrun) _ eq_refl).
Defined.

Lemma main_rejects_invalid_config_witness :
  (forall mappings, ~ valid_config env_without_token mappings)
  /\ exists line,
       main 3 env_without_token start
       = Some (1, {| console := console start ++ [ConsoleError line None];
                     requests := requests start;
                     posted := posted start;
                     clock_reads := clock_reads start |})
       /\ In line ["Missing SOLIDARITY_TECH_API_KEY"; "Missing SLACK_BOT_TOKEN";
                   "Missing CHAPTER_CHANNEL_MAPPING";
                   "CHAPTER_CHANNEL_MAPPING is not valid JSON";
                   "CHAPTER_CHANNEL_MAPPING must be a non-empty JSON array"].
Proof.
  assert (Hinvalid : forall mappings, ~ valid_config env_without_token mappings).
  { intros mappings (_ & Htoken & _). now apply Htoken. }
  split; [exact Hinvalid|].
  exact (main_rejects_invalid_config 3 env_without_token start Hinvalid).
Defined.

Lemma example_config_valid : valid_config env example_mappings.
Proof. repeat split; try discriminate. Qed.

Lemma main_posts_one_message_per_success_witness :
  valid_config env example_mappings
  /\ Forall (chapter_returns 3 (EVENTS_DAYS_AHEAD env)) example_mappings
  /\ exists outcomes code w' msgs,
       main 3 env start = Some (code, w')
       /\ chapters_run 3 (EVENTS_DAYS_AHEAD env) example_mappings start
                       outcomes w'
       /\ posted w' = posted start ++ msgs
       /\ List.map msg_channel msgs
          = List.map channelId (successes example_mappings outcomes)
       /\ Forall (fun msg => (length (msg_blocks msg) <= 50)%nat) msgs
       /\ (code = 0 ->
           List.map msg_channel msgs = List.map channelId example_mappings).
Proof.
  split; [exact example_config_valid|].
  split; [exact example_chapters_return|].
  exact (main_posts_one_message_per_success 3 env example_mappings start
           example_config_valid example_chapters_return).
Defined.

Lemma main_requests_configured_chapters_only_witness :
  valid_config env example_mappings
  /\ Forall (chapter_returns 3 (EVENTS_DAYS_AHEAD env)) example_mappings
  /\ exists code w' ks,
       main 3 env start = Some (code, w')
       /\ requests w' = requests start ++ chapter_requests example_mappings ks
       /\ length ks = length example_mappings
       /\ Forall (fun k => (1 <= k)%nat) ks.
Proof.
  split; [exact example_config_valid|].
  split; [exact example_chapters_return|].
  exact (main_requests_configured_chapters_only 3 env example_mappings start
           example_config_valid example_chapters_return).
Defined.
